(** * NOVA slab allocator (src/slab.cpp): shallow embedding and verification

    The allocator is pointer code: slabs are objects living at the base of
    a page, linked into a doubly-linked list through [prev]/[next], and the
    free buffers of a slab are threaded through link words stored inside
    the page.  The embedding keeps this shape: addresses are integers, the
    null pointer is [0], the [Slab] objects and the link words live in two
    finite maps indexed by address, and every dereference of a null or
    unmapped address is a fault ([None]).

    Every call of [Slab_cache::alloc] and [Slab_cache::free] runs under the
    lock of the cache, so a run is a sequence of calls; the lock itself,
    the tracing and the registry of caches are left out.  Keeping the
    [Slab] objects and the link words in two maps is sound because the
    link words of a slab lie inside its buffers, behind the [Slab] header
    and apart from each other ([buffers_layout]). *)

From stdpp Require Import gmap list.
From Stdlib Require Import ZArith Lia.

Open Scope Z_scope.

#[local] Set Warnings "-clear-no-such-hyp".

(** ** Data model *)

(** [class Slab] (slab.h): the free-buffer count, the list links and the
    head of the intrusive free list.  The back pointer [cache] is constant
    and the development follows one cache, whose fields are read
    directly. *)
Record Slab := mkSlab {
  slab_avail : Z;
  slab_prev  : Z;
  slab_next  : Z;
  slab_head  : Z
}.

(** [class Slab_cache] together with the memory it manages.  [cache_curr],
    [cache_head], [cache_size], [cache_buff] and [cache_elem] are the
    fields [curr], [head], [size], [buff] and [elem]; [mem_slabs] holds the
    [Slab] objects by address, [mem_links] the link words by address, and
    [pages_used] counts the pages obtained from the page provider. *)
Record state := mkState {
  cache_curr : Z;
  cache_head : Z;
  cache_size : Z;
  cache_buff : Z;
  cache_elem : Z;
  mem_slabs  : gmap Z Slab;
  mem_links  : gmap Z Z;
  pages_used : nat
}.

Definition set_curr (st : state) (v : Z) : state :=
  mkState v (cache_head st) (cache_size st) (cache_buff st) (cache_elem st)
          (mem_slabs st) (mem_links st) (pages_used st).

Definition set_head (st : state) (v : Z) : state :=
  mkState (cache_curr st) v (cache_size st) (cache_buff st) (cache_elem st)
          (mem_slabs st) (mem_links st) (pages_used st).

Definition set_slabs (st : state) (h : gmap Z Slab) : state :=
  mkState (cache_curr st) (cache_head st) (cache_size st) (cache_buff st)
          (cache_elem st) h (mem_links st) (pages_used st).

Definition set_links (st : state) (m : gmap Z Z) : state :=
  mkState (cache_curr st) (cache_head st) (cache_size st) (cache_buff st)
          (cache_elem st) (mem_slabs st) m (pages_used st).

Definition set_pages (st : state) (n : nat) : state :=
  mkState (cache_curr st) (cache_head st) (cache_size st) (cache_buff st)
          (cache_elem st) (mem_slabs st) (mem_links st) n.

Definition with_avail (s : Slab) (v : Z) : Slab :=
  mkSlab v (slab_prev s) (slab_next s) (slab_head s).
Definition with_prev (s : Slab) (v : Z) : Slab :=
  mkSlab (slab_avail s) v (slab_next s) (slab_head s).
Definition with_next (s : Slab) (v : Z) : Slab :=
  mkSlab (slab_avail s) (slab_prev s) v (slab_head s).
Definition with_head (s : Slab) (v : Z) : Slab :=
  mkSlab (slab_avail s) (slab_prev s) (slab_next s) v.

(** Memory accesses.  A pointer is dereferenced through [deref] (a [Slab]
    object) or [load]/[store] (a link word); null and unmapped addresses
    fault. *)
Definition deref (st : state) (a : Z) : option Slab :=
  if decide (a = 0) then None else mem_slabs st !! a.

Definition put_slab (st : state) (a : Z) (s : Slab) : state :=
  set_slabs st (<[a := s]> (mem_slabs st)).

Definition load (st : state) (a : Z) : option Z :=
  if decide (a = 0) then None else mem_links st !! a.

Definition store (st : state) (a v : Z) : option state :=
  if decide (a = 0) then None
  else Some (set_links st (<[a := v]> (mem_links st))).

(** Field writes [a->prev = v] and [a->next = v]. *)
Definition write_prev (st : state) (a v : Z) : option state :=
  s ← deref st a; Some (put_slab st a (with_prev s v)).

Definition write_next (st : state) (a v : Z) : option state :=
  s ← deref st a; Some (put_slab st a (with_next s v)).

(** Modelled from the spec: [assert] comes from assert.h, which is not
    part of the sources; the spec calls the two asserts of
    [Slab_cache::alloc] an invariant check that must hold.  A call whose
    assertion is false is aborted. *)
Definition assert (b : bool) : option unit := if b then Some () else None.

(** Modelled from the spec: [Slab::full()] and [Slab::empty()] are declared
    in slab.h, which is not part of the sources; the spec defines FULL as
    [free_count == 0] and EMPTY as [free_count == capacity]. *)
Definition full (s : Slab) : bool := bool_decide (slab_avail s = 0).

Definition empty (st : state) (s : Slab) : bool :=
  bool_decide (slab_avail s = cache_elem st).

(** Modelled from the spec: [align_up] comes from bits.h, which is not part
    of the sources; the spec says "rounded up to": the least multiple of
    [align] that is not below [val]. *)
Definition align_up (val align : Z) : Z := (val + (align - 1)) / align * align.

(** The calls a client can make, and the client-side view of a run: the
    cache, the pointers handed out and not yet given back, and the number
    of [alloc] and [free] calls made. *)
Inductive op := Alloc | Free (ptr : Z).

Record sys := mkSys {
  cache    : state;
  live     : list Z;
  n_allocs : nat;
  n_frees  : nat
}.

(** The number of [alloc] calls and of [free] calls in a sequence. *)
Fixpoint count_allocs (ops : list op) : nat :=
  match ops with
  | [] => O
  | Alloc :: ops' => S (count_allocs ops')
  | Free _ :: ops' => count_allocs ops'
  end.

Fixpoint count_frees (ops : list op) : nat :=
  match ops with
  | [] => O
  | Alloc :: ops' => count_frees ops'
  | Free _ :: ops' => S (count_frees ops')
  end.

(** Removes the first occurrence of [p]. *)
Fixpoint remove_first (p : Z) (l : list Z) : list Z :=
  match l with
  | [] => []
  | x :: l' => if decide (x = p) then l' else x :: remove_first p l'
  end.

(** ** The registry of caches

    [static Slab_cache *Slab_cache::first] and the member [next] chain
    the caches constructed so far.  A cache is named by its address; the
    registry holds [first] and, for every cache, its [next]. *)
Record registry := mkRegistry {
  Slab_cache_first : Z;
  Slab_cache_next  : gmap Z Z
}.

(** [Slab_cache *Slab_cache::first = nullptr;] *)
Definition registry_init : registry := mkRegistry 0 ∅.

(** The last two statements of the constructor of the cache at [this]:
    [next = first; first = this;] *)
Definition Slab_cache_register (reg : registry) (this : Z) : registry :=
  mkRegistry this (<[this := Slab_cache_first reg]> (Slab_cache_next reg)).

(** The loop of [Slab_cache::print_all_stats]:
    [for (c = first; c; c = c->next) c->print_stats();].
    The result lists the caches whose [print_stats] is called, in the
    order of the calls; [fuel] bounds the number of iterations. *)
Fixpoint all_stats_loop (fuel : nat) (reg : registry) (c : Z)
  : option (list Z) :=
  if decide (c = 0) then Some []
  else match fuel with
       | O => None
       | S fuel' =>
           n ← Slab_cache_next reg !! c;
           l ← all_stats_loop fuel' reg n;
           Some (c :: l)
       end.

Definition print_all_stats (fuel : nat) (reg : registry)
  : option (list Z) :=
  all_stats_loop fuel reg (Slab_cache_first reg).

(** The loop variable [c] of [print_all_stats] after [n] rounds of the
    loop entered with [c]: a round tests [c], runs the body and reads
    [c->next].  There is no value when the loop has ended before the
    [n]-th round is over ([c] was null) or when a round reads the [next]
    of an address where no cache was constructed. *)
Fixpoint all_stats_at (n : nat) (reg : registry) (c : Z) : option Z :=
  match n with
  | O => Some c
  | S n' =>
      if decide (c = 0) then None
      else nx ← Slab_cache_next reg !! c; all_stats_at n' reg nx
  end.

(** ** Sample data

    A page provider that hands out consecutive 4 KiB pages from address
    4096 on. *)
Definition pages64 (n : nat) : Z := 4096 * (Z.of_nat n + 1).

(** With 4 KiB pages, 64-bit words and a [Slab] header of 40 bytes, a
    cache of 1000-byte objects aligned to 8 has four objects a slab.  Five
    allocations fill the slab at 4096 and start the slab at 8192. *)
Definition five_allocs : list op := [Alloc; Alloc; Alloc; Alloc; Alloc].

(** The scenario of the specification: 126 objects of 24 bytes fill one
    slab. *)
Definition fill_one_slab : list op := replicate 126 Alloc.

(** Nine allocations fill the slabs at 4096 and 8192 and start the slab at
    12288; releasing 5168 requeues the slab at 4096 behind [curr]. *)
Definition nine_allocs : list op := five_allocs ++ [Alloc; Alloc; Alloc; Alloc].

Section Allocator.

(** ** Platform parameters

    Constants and collaborators the sources use but do not define:
    [PAGE_BITS] (memory layout header), [sizeof (mword)], [sizeof (Slab)]
    and the page provider behind [new Slab], which hands out the pages
    [page_at 0], [page_at 1], ... and never gets one back. *)
Variable PAGE_BITS : Z.
Variable WORD : Z.
Variable SLAB_SIZE : Z.
Variable page_at : nat → Z.

(** Modelled from the spec: [PAGE_SIZE] and [PAGE_MASK] come from a header
    that is not part of the sources; the spec has page-sized, page-aligned
    slabs and finds the slab of a pointer by masking off the page offset,
    so the page size is a power of two and the mask is its offset bits. *)
Definition PAGE_SIZE : Z := Z.shiftl 1 PAGE_BITS.
Definition PAGE_MASK : Z := PAGE_SIZE - 1.

(** Arithmetic on [mword]/[unsigned long] wraps at the word width. *)
Definition wrap (x : Z) : Z := x mod 2 ^ (8 * WORD).

(** [reinterpret_cast<mword>(ptr) & ~PAGE_MASK]; on the addresses of a
    machine, which are not negative, the complement in [Z] and the
    complement in a word give the same bits. *)
Definition page_base (ptr : Z) : Z := Z.land ptr (Z.lnot PAGE_MASK).

(** ** Slab *)

(** The formatting loop of [Slab::Slab]:
    [for (i = avail; i; i--, link -= cache->buff) { *link = head; head = link; }] *)
Fixpoint Slab_format (buff : Z) (i : nat) (link hd : Z) (m : gmap Z Z)
  : Z * gmap Z Z :=
  match i with
  | O => (hd, m)
  | S i' => Slab_format buff i' (link - buff) link (<[link := hd]> m)
  end.

(** The constructor [Slab::Slab], run on the page at [this]. *)
Definition Slab_ctor (st : state) (this : Z) : state :=
  let link := this + PAGE_SIZE - cache_buff st + cache_size st in
  let r := Slab_format (cache_buff st) (Z.to_nat (cache_elem st)) link 0
                       (mem_links st) in
  put_slab (set_links st (snd r)) this (mkSlab (cache_elem st) 0 0 (fst r)).

(** [void *Slab::alloc()] *)
Definition Slab_alloc (st : state) (this : Z) : option (Z * state) :=
  s ← deref st this;
  let s1 := with_avail s (wrap (slab_avail s - 1)) in
  let link := slab_head s1 - cache_size st in
  nxt ← load st (slab_head s1);
  Some (link, put_slab st this (with_head s1 nxt)).

(** [void Slab::free (void *ptr)] *)
Definition Slab_free (st : state) (this ptr : Z) : option state :=
  s ← deref st this;
  let s1 := with_avail s (wrap (slab_avail s + 1)) in
  let link := ptr + cache_size st in
  st1 ← store st link (slab_head s1);
  Some (put_slab st1 this (with_head s1 link)).

(** [n] successive calls of [Slab::alloc] on the slab at [this], with no
    release in between; the pointers come in the order returned. *)
Fixpoint Slab_alloc_n (n : nat) (st : state) (this : Z)
  : option (list Z * state) :=
  match n with
  | O => Some ([], st)
  | S n' =>
      '(p, st1) ← Slab_alloc st this;
      '(ps, st2) ← Slab_alloc_n n' st1 this;
      Some (p :: ps, st2)
  end.

(** ** Slab_cache *)

(** [Slab_cache::Slab_cache (name, elem_size, elem_align)]; the name and
    the registry of caches play no part in allocation.  [size], [buff] and
    [elem] are [unsigned long] fields: what [align_up] and the sum compute
    is stored modulo the word width. *)
Definition Slab_cache_ctor (elem_size elem_align : Z) : state :=
  let size := wrap (align_up elem_size WORD) in
  let buff := wrap (align_up (wrap (size + WORD)) elem_align) in
  let elem := (PAGE_SIZE - SLAB_SIZE) / buff in
  mkState 0 0 size buff elem ∅ ∅ O.

(** [void Slab_cache::grow()] *)
Definition grow (st : state) : option state :=
  let slab := page_at (pages_used st) in
  let st0 := Slab_ctor (set_pages st (S (pages_used st))) slab in
  st1 ← (if decide (cache_head st0 = 0) then Some st0
         else write_prev st0 (cache_head st0) slab);
  st2 ← write_next st1 slab (cache_head st1);
  Some (set_curr (set_head st2 slab) slab).

(** [void *Slab_cache::alloc()]; a failing [assert] aborts. *)
Definition Slab_cache_alloc (st : state) : option (Z * state) :=
  st1 ← (if decide (cache_curr st = 0) then grow st else Some st);
  c ← deref st1 (cache_curr st1);
  _ ← assert (negb (full c));
  _ ← (if decide (slab_next c = 0) then Some ()
       else n ← deref st1 (slab_next c); assert (full n));
  '(ret, st2) ← Slab_alloc st1 (cache_curr st1);
  c2 ← deref st2 (cache_curr st2);
  Some (ret, if full c2 then set_curr st2 (slab_prev c2) else st2).

(** The "Dequeue" steps of [Slab_cache::free]:
    [slab->prev->next = slab->next; if (slab->next) slab->next->prev = slab->prev;] *)
Definition dequeue (st : state) (slab : Z) : option state :=
  s ← deref st slab;
  st1 ← write_next st (slab_prev s) (slab_next s);
  s1 ← deref st1 slab;
  if decide (slab_next s1 = 0) then Some st1
  else write_prev st1 (slab_next s1) (slab_prev s1).

(** "Enqueue after curr":
    [slab->prev = curr; slab->next = curr->next; curr->next = curr->next->prev = slab;] *)
Definition enqueue_after_curr (st : state) (slab : Z) : option state :=
  st1 ← write_prev st slab (cache_curr st);
  c ← deref st1 (cache_curr st1);
  st2 ← write_next st1 slab (slab_next c);
  c2 ← deref st2 (cache_curr st2);
  st3 ← write_prev st2 (slab_next c2) slab;
  write_next st3 (cache_curr st3) slab.

(** "Enqueue as head":
    [slab->prev = nullptr; slab->next = head; head = head->prev = slab;] *)
Definition enqueue_as_head (st : state) (slab : Z) : option state :=
  st1 ← write_prev st slab 0;
  st2 ← write_next st1 slab (cache_head st1);
  st3 ← write_prev st2 (cache_head st2) slab;
  Some (set_head st3 slab).

(** What "Enqueue after curr" dereferences: [curr] and [curr->next]. *)
Definition after_curr_safe (st : state) : Prop :=
  ∃ c n, deref st (cache_curr st) = Some c ∧ slab_next c ≠ 0 ∧
         deref st (slab_next c) = Some n.

(** What "Enqueue as head" dereferences: [head]. *)
Definition as_head_safe (st : state) : Prop :=
  ∃ h, cache_head st ≠ 0 ∧ deref st (cache_head st) = Some h.

(** The second cursor condition as the specification words it: the
    neighbour of [curr] on the side of [head] -- [head] is the slab without
    [prev], so this is [curr->prev] -- is FULL. *)
Definition head_side_full (st : state) : Prop :=
  ∀ c, deref st (cache_curr st) = Some c → slab_prev c ≠ 0 →
       ∃ n, deref st (slab_prev c) = Some n ∧ full n = true.

(** The branch taken when the slab was full before the release. *)
Definition requeue_full (st : state) (slab : Z) : option state :=
  s ← deref st slab;
  requeue ← (if decide (slab_prev s = 0) then Some false
             else p ← deref st (slab_prev s); Some (full p));
  st1 ← (if requeue : bool then
           st' ← dequeue st slab;
           if decide (cache_curr st' = 0) then enqueue_as_head st' slab
           else enqueue_after_curr st' slab
         else Some st);
  Some (set_curr st1 slab).

(** The branch taken when the slab was not full and is now empty. *)
Definition requeue_empty (st : state) (slab : Z) : option state :=
  s ← deref st slab;
  requeue ← (if decide (slab_prev s = 0) then Some false
             else p ← deref st (slab_prev s); Some (negb (empty st p)));
  if requeue : bool then
    let st1 := if decide (slab = cache_curr st) then set_curr st (slab_prev s)
               else st in
    st2 ← dequeue st1 slab;
    enqueue_as_head st2 slab
  else Some st.

(** [void Slab_cache::free (void *ptr)] *)
Definition Slab_cache_free (st : state) (ptr : Z) : option state :=
  let slab := page_base ptr in
  s ← deref st slab;
  let was_full := full s in
  st1 ← Slab_free st slab ptr;
  if was_full then requeue_full st1 slab
  else
    s1 ← deref st1 slab;
    if empty st1 s1 then requeue_empty st1 slab else Some st1.

(** Reuse as the specification words it: the allocation that follows the
    release of [p] returns [p]. *)
Definition next_alloc_returns (st : state) (p : Z) : Prop :=
  ∀ st', Slab_cache_free st p = Some st' →
         ∃ st'', Slab_cache_alloc st' = Some (p, st'').

(** Growth as the specification words it: allocate "has no other failure
    path" than the request for backing memory in [grow]; the page
    provider of this model grants every request, so allocate returns. *)
Definition alloc_always_returns (st : state) : Prop :=
  ∃ p st', Slab_cache_alloc st = Some (p, st').

(** The geometry as the specification words it, for whatever arguments
    the constructor is given: the stored size is the element size rounded
    up to the word size, the stride is that size plus one link word
    rounded up to the alignment, and the capacity is the truncated
    quotient of [PAGE_SIZE - sizeof (Slab)] by the stride. *)
Definition ctor_as_specified (elem_size elem_align : Z) : Prop :=
  let st := Slab_cache_ctor elem_size elem_align in
  cache_size st = align_up elem_size WORD ∧
  cache_buff st = align_up (cache_size st + WORD) elem_align ∧
  cache_elem st = (PAGE_SIZE - SLAB_SIZE) / cache_buff st.

(** The loop of [Slab_cache::print_stats]:
    [for (s = head; s; s = s->next) { slabs++; objs += elem - s->avail; }].
    The counters are the pair [(slabs, objs)]; [fuel] bounds the number of
    iterations. *)
Fixpoint stats_loop (fuel : nat) (st : state) (s : Z) (acc : Z * Z)
  : option (Z * Z) :=
  if decide (s = 0) then Some acc
  else match fuel with
       | O => None
       | S fuel' =>
           sl ← deref st s;
           stats_loop fuel' st (slab_next sl)
             (wrap (fst acc + 1),
              wrap (snd acc + wrap (cache_elem st - slab_avail sl)))
       end.

Definition print_stats (fuel : nat) (st : state) : option (Z * Z) :=
  stats_loop fuel st (cache_head st) (0, 0).

(** The slabs of the cache, as the same traversal meets them: from [head]
    along [next] to null. *)
Fixpoint walk (fuel : nat) (st : state) (s : Z) : option (list Z) :=
  if decide (s = 0) then Some []
  else match fuel with
       | O => None
       | S fuel' =>
           sl ← deref st s;
           l ← walk fuel' st (slab_next sl);
           Some (s :: l)
       end.

Definition slab_list (st : state) : option (list Z) :=
  walk (pages_used st) st (cache_head st).

(** ** Runs *)

(** One client call.  A [Free] of a pointer that is not live is not a call
    the allocator supports (slab.cpp does not detect it); such a run is
    cut off. *)
Definition step (s : sys) (o : op) : option sys :=
  match o with
  | Alloc =>
      '(p, c) ← Slab_cache_alloc (cache s);
      Some (mkSys c (p :: live s) (S (n_allocs s)) (n_frees s))
  | Free p =>
      if decide (p ∈ live s) then
        c ← Slab_cache_free (cache s) p;
        Some (mkSys c (remove_first p (live s)) (n_allocs s) (S (n_frees s)))
      else None
  end.

Fixpoint run (s : sys) (ops : list op) : option sys :=
  match ops with
  | [] => Some s
  | o :: ops' => s' ← step s o; run s' ops'
  end.

Definition fresh (elem_size elem_align : Z) : sys :=
  mkSys (Slab_cache_ctor elem_size elem_align) [] O O.

(** ** Assumptions on the platform

    Words are at least as wide as page offsets, the [Slab] header has a
    size, and the page provider returns non-null, page-aligned pages and
    never hands out the same page twice. *)
Record platform_ok : Prop := {
  word_pos     : 0 < WORD;
  page_bits    : 0 ≤ PAGE_BITS;
  page_fits    : PAGE_SIZE < 2 ^ (8 * WORD);
  slab_size    : 0 ≤ SLAB_SIZE ≤ PAGE_SIZE;
  page_nonnull : ∀ n, 0 < page_at n;
  page_aligned : ∀ n, page_at n mod PAGE_SIZE = 0;
  page_fresh   : ∀ n m, page_at n = page_at m → n = m
}.

(** ** Predicates of the verification *)

(** The link fields and the data fields of the slab at an address. *)
Definition lnk (h : gmap Z Slab) (a : Z) : option (Z * Z) :=
  (λ s, (slab_prev s, slab_next s)) <$> h !! a.

Definition dat (h : gmap Z Slab) (a : Z) : option (Z * Z) :=
  (λ s, (slab_avail s, slab_head s)) <$> h !! a.

(** [last_or p l]: the last element of [l], or [p] when [l] is empty. *)
Fixpoint last_or (p : Z) (l : list Z) : Z :=
  match l with
  | [] => p
  | a :: l' => last_or a l'
  end.

(** [linked h p l n]: the slabs at the addresses [l] are chained through
    [prev] and [next] in this order, with [p] before the first and [n]
    after the last. *)
Fixpoint linked (h : gmap Z Slab) (p : Z) (l : list Z) (n : Z) : Prop :=
  match l with
  | [] => True
  | a :: l' => (a ≠ 0 ∧ lnk h a = Some (p, hd n l')) ∧ linked h a l' n
  end.

(** Two states that differ in list links, [curr] and [head] only. *)
Definition same_data (st st' : state) : Prop :=
  cache_size st' = cache_size st ∧ cache_buff st' = cache_buff st ∧
  cache_elem st' = cache_elem st ∧ mem_links st' = mem_links st ∧
  pages_used st' = pages_used st ∧
  ∀ a, dat (mem_slabs st') a = dat (mem_slabs st) a.

(** What the constructor of a usable cache guarantees about its fields. *)
Definition cfg_ok (st : state) : Prop :=
  0 ≤ cache_size st ∧ 0 < cache_buff st ∧ 0 < cache_elem st ∧
  cache_elem st * cache_buff st ≤ PAGE_SIZE.

(** [is_buf st a p]: [p] is the address of one of the [elem] buffers of
    the slab at [a]; the buffers are laid out downwards from the end of
    the page, [buff] bytes apart. *)
Definition is_buf (st : state) (a p : Z) : Prop :=
  ∃ i, 0 ≤ i < cache_elem st ∧ p = a + PAGE_SIZE - (i + 1) * cache_buff st.

(** [chain m sz h ps]: starting from the free-list head [h], the link
    words in [m] thread the buffers [ps] in this order and end in null;
    the link word of a buffer sits [sz] bytes after its start. *)
Fixpoint chain (m : gmap Z Z) (sz h : Z) (ps : list Z) : Prop :=
  match ps with
  | [] => h = 0
  | p :: ps' =>
      h = p + sz ∧ h ≠ 0 ∧ ∃ nx, m !! h = Some nx ∧ chain m sz nx ps'
  end.

(** The buffers threaded by [i] rounds of the formatting loop, on top of
    the buffers [acc] threaded before. *)
Fixpoint format_list (buff sz : Z) (i : nat) (link : Z) (acc : list Z)
  : list Z :=
  match i with
  | O => acc
  | S i' => format_list buff sz i' (link - buff) ((link - sz) :: acc)
  end.

Definition avail_at (st : state) (a : Z) : option Z :=
  fst <$> dat (mem_slabs st) a.

Definition is_full (st : state) (a : Z) : Prop := avail_at st a = Some 0.

Definition is_empty (st : state) (a : Z) : Prop :=
  avail_at st a = Some (cache_elem st).

Definition is_partial (st : state) (a : Z) : Prop :=
  ∃ v, avail_at st a = Some v ∧ 0 < v < cache_elem st.

(** The list is made of the EMPTY slabs, then the PARTIAL ones, then the
    FULL ones, and [curr] is the last slab that is not FULL (null when
    there is none). *)
Definition ordered (st : state) (l : list Z) : Prop :=
  ∃ E P F, l = E ++ P ++ F ∧
    Forall (is_empty st) E ∧ Forall (is_partial st) P ∧
    Forall (is_full st) F ∧ cache_curr st = last_or 0 (E ++ P).

(** [st'] keeps the capacity of [st] and the free counts of all slabs
    except [a]. *)
Definition frame (st st' : state) (a : Z) : Prop :=
  cache_elem st' = cache_elem st ∧
  ∀ b, b ≠ a → avail_at st' b = avail_at st b.

(** The slab at [a] is sound: its free count is the length of its free
    list, which threads distinct buffers of this slab, none of them
    live. *)
Definition slab_ok (st : state) (lv : list Z) (a : Z) : Prop :=
  ∃ fl h, dat (mem_slabs st) a = Some (Z.of_nat (length fl), h) ∧
    chain (mem_links st) (cache_size st) h fl ∧ NoDup fl ∧
    ∀ p, p ∈ fl → is_buf st a p ∧ p ∉ lv.

(** Buffers in use in the slabs [l]: the sum of [elem - avail]. *)
Fixpoint used (st : state) (l : list Z) : Z :=
  match l with
  | [] => 0
  | a :: l' => (cache_elem st - default 0 (avail_at st a)) + used st l'
  end.

(** What holds of the contents of the slabs [l] and of the live pointers
    [lv], whatever the order of the list. *)
Record Data (st : state) (lv : list Z) (l : list Z) : Prop := {
  d_cfg   : cfg_ok st;
  d_pages : ∀ a, a ∈ l → ∃ k, (k < pages_used st)%nat ∧ a = page_at k;
  d_slabs : ∀ a, a ∈ l → slab_ok st lv a;
  d_nodup : NoDup lv;
  d_live  : ∀ p, p ∈ lv → ∃ a, a ∈ l ∧ is_buf st a p;
  d_used  : used st l = Z.of_nat (length lv)
}.

(** The list [l] is the slab list of the cache, as linked in memory. *)
Record Shape (st : state) (l : list Z) : Prop := {
  s_nodup  : NoDup l;
  s_head   : cache_head st = hd 0 l;
  s_linked : linked (mem_slabs st) 0 l 0;
  s_dom    : ∀ a, is_Some (mem_slabs st !! a) → a ∈ l
}.

Record Inv (s : sys) (l : list Z) : Prop := {
  inv_shape : Shape (cache s) l;
  inv_data  : Data (cache s) (live s) l;
  inv_order : ordered (cache s) l;
  inv_len   : length l = pages_used (cache s);
  inv_count : n_allocs s = (n_frees s + length (live s))%nat
}.

(** Two states that differ in the contents of slabs only. *)
Definition same_links (st st' : state) : Prop :=
  cache_curr st' = cache_curr st ∧ cache_head st' = cache_head st ∧
  ∀ a, lnk (mem_slabs st') a = lnk (mem_slabs st) a.

(** [Slab_cache::alloc] after the growth check: the asserts and the
    allocation from [curr]. *)
Definition alloc_from_curr (st1 : state) : option (Z * state) :=
  c ← deref st1 (cache_curr st1);
  _ ← assert (negb (full c));
  _ ← (if decide (slab_next c = 0) then Some ()
       else n ← deref st1 (slab_next c); assert (full n));
  '(ret, st2) ← Slab_alloc st1 (cache_curr st1);
  c2 ← deref st2 (cache_curr st2);
  Some (ret, if full c2 then set_curr st2 (slab_prev c2) else st2).

(** The slab [Slab_cache::alloc] takes the buffer from: [curr], or the
    page obtained by [grow] when [curr] is null. *)
Definition alloc_target (st : state) : Z :=
  if decide (cache_curr st = 0) then page_at (pages_used st)
  else cache_curr st.

(** No operation changes the geometry of the cache. *)
Definition same_cfg (st st' : state) : Prop :=
  cache_size st' = cache_size st ∧ cache_buff st' = cache_buff st ∧
  cache_elem st' = cache_elem st.

(** ** Addresses *)

Lemma PAGE_SIZE_pow : 0 ≤ PAGE_BITS → PAGE_SIZE = 2 ^ PAGE_BITS.
Proof. intros H. unfold PAGE_SIZE. by rewrite Z.shiftl_1_l. Qed.

Lemma PAGE_SIZE_pos : 0 ≤ PAGE_BITS → 0 < PAGE_SIZE.
Proof. intros H. rewrite PAGE_SIZE_pow by done. by apply Z.pow_pos_nonneg. Qed.

Lemma page_base_mod ptr :
  0 ≤ PAGE_BITS → page_base ptr = ptr - ptr mod PAGE_SIZE.
Proof.
  intros H. unfold page_base, PAGE_MASK.
  rewrite PAGE_SIZE_pow by done.
  replace (2 ^ PAGE_BITS - 1) with (Z.ones PAGE_BITS)
    by (rewrite Z.ones_equiv; lia).
  rewrite <- Z.ldiff_land, Z.ldiff_ones_r by done.
  rewrite Z.shiftl_mul_pow2, Z.shiftr_div_pow2 by done.
  pose proof (Z.pow_pos_nonneg 2 PAGE_BITS ltac:(lia) H) as Hp.
  pose proof (Z.div_mod ptr (2 ^ PAGE_BITS) ltac:(lia)). lia.
Qed.

Lemma page_base_within a ptr :
  0 ≤ PAGE_BITS → a mod PAGE_SIZE = 0 → a ≤ ptr < a + PAGE_SIZE →
  page_base ptr = a.
Proof.
  intros Hb Ha Hp. rewrite page_base_mod by done.
  pose proof (PAGE_SIZE_pos Hb) as Hpos.
  assert (ptr mod PAGE_SIZE = ptr - a) as ->; [|lia].
  symmetry. apply (Z.mod_unique_pos ptr PAGE_SIZE (a / PAGE_SIZE)); [lia|].
  pose proof (Z.div_mod a PAGE_SIZE ltac:(lia)). lia.
Qed.

(** ** The slab list as a doubly-linked list in memory *)

Lemma last_or_app p l1 l2 : last_or p (l1 ++ l2) = last_or (last_or p l1) l2.
Proof. revert p. induction l1 as [|a l1 IH]; intros p; simpl; auto. Qed.

Lemma last_or_snoc p l x : last_or p (l ++ [x]) = x.
Proof. by rewrite last_or_app. Qed.

Lemma last_or_elem p l : l ≠ [] → last_or p l ∈ l.
Proof.
  revert p. induction l as [|a l IH]; intros p Hl; [done|].
  simpl. destruct l as [|b l]; [simpl; left|].
  right. by apply IH.
Qed.

Lemma last_or_nonempty p q l : l ≠ [] → last_or p l = last_or q l.
Proof. destruct l; [done|reflexivity]. Qed.

Lemma hd_app (n : Z) (l1 l2 : list Z) : hd n (l1 ++ l2) = hd (hd n l2) l1.
Proof. by destruct l1. Qed.

Lemma snoc_cases (l : list Z) : l = [] ∨ ∃ l' x, l = l' ++ [x].
Proof.
  induction l as [|a l IH] using rev_ind; [by left|right; eauto].
Qed.

Lemma lnk_insert h a s b :
  lnk (<[a := s]> h) b =
  if decide (a = b) then Some (slab_prev s, slab_next s) else lnk h b.
Proof.
  unfold lnk. rewrite lookup_insert. by case_decide.
Qed.

Lemma dat_insert h a s b :
  dat (<[a := s]> h) b =
  if decide (a = b) then Some (slab_avail s, slab_head s) else dat h b.
Proof.
  unfold dat. rewrite lookup_insert. by case_decide.
Qed.

Lemma linked_app h p l1 l2 n :
  linked h p (l1 ++ l2) n ↔
  linked h p l1 (hd n l2) ∧ linked h (last_or p l1) l2 n.
Proof.
  revert p. induction l1 as [|a l1 IH]; intros p; simpl; [tauto|].
  rewrite IH, hd_app. tauto.
Qed.

Lemma linked_frame h h' p l n :
  (∀ a, a ∈ l → lnk h' a = lnk h a) → linked h p l n → linked h' p l n.
Proof.
  revert p. induction l as [|a l IH]; intros p Hf; simpl; [done|].
  intros [[Ha Hl] Hr]. split.
  - split; [done|]. rewrite Hf; [done|left].
  - apply IH; [|done]. intros b Hb. apply Hf. by right.
Qed.

Lemma linked_nonnull h p l n a : linked h p l n → a ∈ l → a ≠ 0.
Proof.
  revert p. induction l as [|b l IH]; intros p; simpl.
  - intros _ Ha. by apply elem_of_nil in Ha.
  - intros [[Hb _] Hr] Ha. apply elem_of_cons in Ha as [->|Ha]; eauto.
Qed.

Lemma linked_lookup h p l1 a l2 n :
  linked h p (l1 ++ a :: l2) n →
  a ≠ 0 ∧ lnk h a = Some (last_or p l1, hd n l2).
Proof. rewrite linked_app. simpl. tauto. Qed.

Lemma linked_mapped h p l n a : linked h p l n → a ∈ l → is_Some (h !! a).
Proof.
  intros Hl Ha. apply list_elem_of_split in Ha as (l1 & l2 & ->).
  apply linked_lookup in Hl as [_ Hl]. unfold lnk in Hl.
  destruct (h !! a); [eauto|done].
Qed.

Lemma same_data_refl st : same_data st st.
Proof. by repeat split. Qed.

Lemma same_data_trans st1 st2 st3 :
  same_data st1 st2 → same_data st2 st3 → same_data st1 st3.
Proof.
  intros (?&?&?&?&?&Ha) (?&?&?&?&?&Hb).
  repeat split; try congruence; intros a; by rewrite Hb.
Qed.

Lemma deref_Some st a s :
  a ≠ 0 → mem_slabs st !! a = Some s → deref st a = Some s.
Proof. intros. unfold deref. by case_decide. Qed.

Lemma deref_inv st a s :
  deref st a = Some s → a ≠ 0 ∧ mem_slabs st !! a = Some s.
Proof. unfold deref. by case_decide. Qed.

Lemma lnk_Some h a p n :
  lnk h a = Some (p, n) →
  ∃ s, h !! a = Some s ∧ slab_prev s = p ∧ slab_next s = n.
Proof.
  unfold lnk. destruct (h !! a) as [s|]; [|done].
  simpl. intros [= <- <-]. eauto.
Qed.

Lemma dat_insert_links h a s s' b :
  h !! a = Some s → slab_avail s' = slab_avail s →
  slab_head s' = slab_head s → dat (<[a := s']> h) b = dat h b.
Proof.
  intros Ha H1 H2. rewrite dat_insert. case_decide; [subst b|done].
  unfold dat. rewrite Ha. simpl. congruence.
Qed.

Lemma lnk_insert_data h a s s' b :
  h !! a = Some s → slab_prev s' = slab_prev s →
  slab_next s' = slab_next s → lnk (<[a := s']> h) b = lnk h b.
Proof.
  intros Ha H1 H2. rewrite lnk_insert. case_decide; [subst b|done].
  unfold lnk. rewrite Ha. simpl. congruence.
Qed.

Lemma write_prev_spec st a s v :
  a ≠ 0 → mem_slabs st !! a = Some s →
  write_prev st a v = Some (put_slab st a (with_prev s v)).
Proof. intros Ha Hs. unfold write_prev. by rewrite (deref_Some _ _ s). Qed.

Lemma write_next_spec st a s v :
  a ≠ 0 → mem_slabs st !! a = Some s →
  write_next st a v = Some (put_slab st a (with_next s v)).
Proof. intros Ha Hs. unfold write_next. by rewrite (deref_Some _ _ s). Qed.

Lemma submseteq_NoDup (l k : list Z) : l ⊆+ k → NoDup k → NoDup l.
Proof.
  induction 1 as [|x l1 l2 Hs IH|x y l|x l1 l2 Hs IH|l1 l2 l3 H1 IH1 H2 IH2];
    intros Hnd.
  - done.
  - apply NoDup_cons in Hnd as [Hx Hnd]. apply NoDup_cons. split; [|auto].
    intros Hin. apply Hx. by eapply elem_of_submseteq.
  - by rewrite (Permutation_swap x y l).
  - apply NoDup_cons in Hnd as [_ Hnd]. auto.
  - auto.
Qed.

Lemma nodup_ne (L : list Z) x y : NoDup L → [x; y] ⊆+ L → x ≠ y.
Proof.
  intros Hnd Hs. apply (submseteq_NoDup _ _ Hs) in Hnd.
  apply NoDup_cons in Hnd as [Hx _]. intros ->. apply Hx. left.
Qed.

Lemma nodup_notin (L : list Z) x l : NoDup L → x :: l ⊆+ L → x ∉ l.
Proof.
  intros Hnd Hs. apply (submseteq_NoDup _ _ Hs) in Hnd.
  by apply NoDup_cons in Hnd as [Hx _].
Qed.

Lemma nodup_ne_in (L : list Z) x y l :
  NoDup L → y ∈ l → x :: l ⊆+ L → x ≠ y.
Proof.
  intros Hnd Hy Hs Heq. subst. by apply (nodup_notin L y l).
Qed.

(** Solves a goal of (non-)membership, disequality of addresses or
    absence of duplicates that follows, by dropping and reordering
    elements, from a hypothesis [H : NoDup L]. *)
Ltac by_nodup H :=
  lazymatch goal with
  | |- NoDup _ => refine (submseteq_NoDup _ _ _ H); solve_submseteq
  | |- _ ∉ _ => refine (nodup_notin _ _ _ H _); solve_submseteq
  | |- ?x ≠ ?y =>
      first
        [ refine (nodup_ne _ x y H _); solve_submseteq
        | match goal with
          | Ha : y ∈ ?l |- _ =>
              refine (nodup_ne_in _ x y l H Ha _); solve_submseteq
          | Ha : x ∈ ?l |- _ =>
              apply not_eq_sym;
              refine (nodup_ne_in _ y x l H Ha _); solve_submseteq
          end ]
  end.

Lemma dequeue_spec st l1 sp s l2 :
  NoDup (l1 ++ sp :: s :: l2) →
  linked (mem_slabs st) 0 (l1 ++ sp :: s :: l2) 0 →
  ∃ st', dequeue st s = Some st' ∧
    linked (mem_slabs st') 0 (l1 ++ sp :: l2) 0 ∧
    lnk (mem_slabs st') s = lnk (mem_slabs st) s ∧
    same_data st st' ∧
    cache_curr st' = cache_curr st ∧ cache_head st' = cache_head st.
Proof.
  intros Hnd Hl. apply linked_app in Hl as [Hl1 Hl]. simpl in Hl.
  destruct Hl as [[Hsp0 Hsp] [[Hs0 Hs] Hl2]].
  apply lnk_Some in Hsp as (rp & Hrp & Hrp1 & Hrp2).
  apply lnk_Some in Hs as (rs & Hrs & Hrs1 & Hrs2).
  assert (sp ≠ s) as Hne by by_nodup Hnd.
  unfold dequeue. rewrite (deref_Some _ _ rs) by done. simpl.
  rewrite Hrs1, (write_next_spec _ _ rp) by done. simpl.
  rewrite (deref_Some _ _ rs) by (by simpl; rewrite ?lookup_insert_ne).
  simpl. rewrite Hrs2.
  destruct l2 as [|sn l2]; simpl in *.
  - eexists; split; [done|].
    repeat split; simpl; try done.
    + apply linked_app. simpl. split.
      * eapply linked_frame; [|done]. intros a Ha.
        rewrite lnk_insert, decide_False; [done|]. by_nodup Hnd.
      * rewrite lnk_insert, decide_True by done. simpl. by rewrite Hrp1.
    + rewrite lnk_insert. by case_decide.
    + intros a. by apply (dat_insert_links _ _ rp).
  - destruct Hl2 as [[Hsn0 Hsn] Hl2].
    apply lnk_Some in Hsn as (rn & Hrn & Hrn1 & Hrn2).
    assert (sn ≠ sp) as Hn1 by by_nodup Hnd.
    assert (sn ≠ s) as Hn2 by by_nodup Hnd.
    rewrite decide_False, ?Hrs1 by done.
    rewrite (write_prev_spec _ _ rn)
      by (by simpl; rewrite ?lookup_insert_ne).
    eexists; split; [done|]. repeat split; simpl; try done.
    + apply linked_app. simpl. split; [|split; [|split]].
      * eapply linked_frame; [|done]. intros a Ha.
        rewrite !lnk_insert, !decide_False by by_nodup Hnd. done.
      * rewrite !lnk_insert. rewrite decide_False, decide_True by done.
        simpl. by rewrite Hrp1.
      * rewrite !lnk_insert. rewrite decide_True by done.
        simpl. by rewrite Hrn2.
      * eapply linked_frame; [|done]. intros a Ha.
        rewrite !lnk_insert, !decide_False by by_nodup Hnd. done.
    + rewrite !lnk_insert. by repeat case_decide.
    + intros a.
      rewrite (dat_insert_links _ _ rn);
        [|by rewrite lookup_insert_ne|done..].
      by apply (dat_insert_links _ _ rp).
Qed.

Lemma enqueue_as_head_spec st s h0 l :
  cache_head st = h0 → NoDup (s :: h0 :: l) → s ≠ 0 →
  is_Some (mem_slabs st !! s) →
  linked (mem_slabs st) 0 (h0 :: l) 0 →
  ∃ st', enqueue_as_head st s = Some st' ∧
    linked (mem_slabs st') 0 (s :: h0 :: l) 0 ∧
    same_data st st' ∧
    cache_curr st' = cache_curr st ∧ cache_head st' = s.
Proof.
  intros Hh Hnd Hs0 [rs Hrs] Hl. simpl in Hl.
  destruct Hl as [[Hh0 Hl0] Hl].
  apply lnk_Some in Hl0 as (r0 & Hr0 & Hr01 & Hr02).
  assert (s ≠ h0) as Hne by by_nodup Hnd.
  unfold enqueue_as_head.
  rewrite (write_prev_spec _ _ rs) by done. simpl.
  rewrite (write_next_spec _ _ (with_prev rs 0))
    by (by simpl; rewrite ?lookup_insert_eq). simpl.
  rewrite Hh, (write_prev_spec _ _ r0)
    by (by simpl; rewrite ?lookup_insert_ne). simpl.
  eexists; split; [done|]. repeat split; simpl; try done.
  - rewrite !lnk_insert, decide_False, decide_True by done. done.
  - rewrite !lnk_insert, decide_True by done. simpl. by rewrite Hr02.
  - eapply linked_frame; [|done]. intros a Ha.
    rewrite !lnk_insert, !decide_False by by_nodup Hnd. done.
  - intros a.
    rewrite (dat_insert_links _ _ r0);
      [|by rewrite ?lookup_insert_ne|done..].
    rewrite (dat_insert_links _ _ (with_prev rs 0));
      [|by rewrite ?lookup_insert_eq|done..].
    by apply (dat_insert_links _ _ rs).
Qed.

Lemma enqueue_after_curr_spec st s l1 c cn l2 :
  cache_curr st = c → NoDup (s :: l1 ++ c :: cn :: l2) → s ≠ 0 →
  is_Some (mem_slabs st !! s) →
  linked (mem_slabs st) 0 (l1 ++ c :: cn :: l2) 0 →
  ∃ st', enqueue_after_curr st s = Some st' ∧
    linked (mem_slabs st') 0 (l1 ++ c :: s :: cn :: l2) 0 ∧
    same_data st st' ∧
    cache_curr st' = c ∧ cache_head st' = cache_head st.
Proof.
  intros <- Hnd Hs0 [rs Hrs] Hl. set (c := cache_curr st) in *.
  apply linked_app in Hl as [Hl1 Hl]. simpl in Hl.
  destruct Hl as [[Hc0 Hlc] [[Hn0 Hln] Hl2]].
  apply lnk_Some in Hlc as (rc & Hrc & Hrc1 & Hrc2).
  apply lnk_Some in Hln as (rn & Hrn & Hrn1 & Hrn2).
  assert (s ≠ c) as Hsc by by_nodup Hnd.
  assert (s ≠ cn) as Hsn by by_nodup Hnd.
  assert (c ≠ cn) as Hcn by by_nodup Hnd.
  unfold enqueue_after_curr.
  rewrite (write_prev_spec _ _ rs) by done. simpl.
  fold c. rewrite (deref_Some _ _ rc)
    by (by simpl; rewrite ?lookup_insert_ne). simpl.
  rewrite (write_next_spec _ _ (with_prev rs c))
    by (by simpl; rewrite ?lookup_insert_eq). simpl.
  fold c. rewrite (deref_Some _ _ rc)
    by (by simpl; rewrite ?lookup_insert_ne). simpl.
  rewrite !Hrc2, (write_prev_spec _ _ rn)
    by (by simpl; rewrite ?lookup_insert_ne). simpl.
  fold c. rewrite (write_next_spec _ _ rc)
    by (by simpl; rewrite ?lookup_insert_ne). simpl.
  eexists; split; [done|]. repeat split; simpl; try done.
  - apply linked_app. simpl. split; [|split; [|split; [|split]]].
    + eapply linked_frame; [|done]. intros a Ha.
      rewrite !lnk_insert, !decide_False by by_nodup Hnd. done.
    + rewrite !lnk_insert, decide_True by done. simpl. by rewrite Hrc1.
    + split; [done|].
      rewrite !lnk_insert.
      by rewrite decide_False, decide_False, decide_True by done.
    + split; [done|].
      rewrite !lnk_insert.
      rewrite decide_False, decide_True by done. simpl. by rewrite Hrn2.
    + eapply linked_frame; [|done]. intros a Ha.
      rewrite !lnk_insert, !decide_False by by_nodup Hnd. done.
  - intros a.
    rewrite (dat_insert_links _ _ rc);
      [|by rewrite ?lookup_insert_ne|done..].
    rewrite (dat_insert_links _ _ rn);
      [|by rewrite ?lookup_insert_ne|done..].
    rewrite (dat_insert_links _ _ (with_prev rs c));
      [|by rewrite ?lookup_insert_eq|done..].
    by apply (dat_insert_links _ _ rs).
Qed.

(** ** Buffers and free lists *)

Lemma chain_frame m sz h ps x v :
  x - sz ∉ ps → chain m sz h ps → chain (<[x := v]> m) sz h ps.
Proof.
  revert h. induction ps as [|p ps IH]; intros h Hx; simpl; [done|].
  intros (-> & Hh & nx & Hnx & Hc).
  split; [done|]. split; [done|]. exists nx. split.
  - rewrite lookup_insert_ne; [done|].
    intros ->. apply Hx. replace (p + sz - sz) with p by lia. left.
  - apply IH; [|done]. intros Hin. apply Hx. by right.
Qed.

Lemma is_buf_range st a p :
  cfg_ok st → is_buf st a p → a ≤ p ∧ p + cache_buff st ≤ a + PAGE_SIZE.
Proof.
  intros (Hs & Hb & He & Hc) (i & Hi & ->). split; nia.
Qed.

Lemma is_buf_base st a p :
  0 ≤ PAGE_BITS → cfg_ok st → a mod PAGE_SIZE = 0 → is_buf st a p →
  page_base p = a.
Proof.
  intros Hb Hc Ha Hp. apply page_base_within; [done..|].
  destruct (is_buf_range _ _ _ Hc Hp). destruct Hc as (?&?&?&?). lia.
Qed.

Lemma format_list_elem buff sz i link acc p :
  p ∈ format_list buff sz i link acc ↔
  p ∈ acc ∨ ∃ k, 0 ≤ k < Z.of_nat i ∧ p = link - k * buff - sz.
Proof.
  revert link acc. induction i as [|i IH]; intros link acc; simpl.
  - split; [by left|]. intros [?|(k & ? & ?)]; [done|lia].
  - rewrite IH, elem_of_cons. split.
    + intros [[->|?]|(k & Hk & ->)].
      * right. exists 0. split; lia.
      * by left.
      * right. exists (k + 1). split; lia.
    + intros [?|(k & Hk & ->)]; [by left; right|].
      destruct (decide (k = 0)) as [->|Hk0].
      * left; left. lia.
      * right. exists (k - 1). split; lia.
Qed.

Lemma format_list_length buff sz i link acc :
  length (format_list buff sz i link acc) = (i + length acc)%nat.
Proof.
  revert link acc. induction i as [|i IH]; intros link acc; simpl; [done|].
  rewrite IH. simpl. lia.
Qed.

Lemma format_list_NoDup buff sz i link acc :
  0 < buff → NoDup acc → (∀ p, p ∈ acc → link - sz < p) →
  NoDup (format_list buff sz i link acc).
Proof.
  revert link acc. induction i as [|i IH]; intros link acc Hb Hnd Hlt;
    simpl; [done|].
  apply IH; [done| |].
  - apply NoDup_cons. split; [|done].
    intros Hin. apply Hlt in Hin. lia.
  - intros p [->|Hp]%elem_of_cons; [lia|]. apply Hlt in Hp. lia.
Qed.

(** The formatting loop threads exactly the buffers of [format_list] and
    writes no other link word. *)
Lemma Slab_format_chain buff sz i link h m acc :
  0 < buff → chain m sz h acc →
  (∀ p, p ∈ acc → link - sz < p) →
  (∀ k, 0 ≤ k < Z.of_nat i → link - k * buff ≠ 0) →
  chain (snd (Slab_format buff i link h m)) sz
        (fst (Slab_format buff i link h m))
        (format_list buff sz i link acc).
Proof.
  revert link h m acc.
  induction i as [|i IH]; intros link h m acc Hb Hc Hlt Hnz; simpl; [done|].
  apply IH; [done| | |].
  - simpl. split; [lia|]. split.
    + specialize (Hnz 0). lia.
    + exists h. rewrite lookup_insert_eq. split; [done|].
      apply chain_frame; [|done]. intros Hin. apply Hlt in Hin. lia.
  - intros p [->|Hp]%elem_of_cons; [lia|]. apply Hlt in Hp. lia.
  - intros k Hk. specialize (Hnz (k + 1)).
    replace (link - buff - k * buff) with (link - (k + 1) * buff) by lia.
    apply Hnz. lia.
Qed.

Lemma Slab_format_frame buff i link h m x :
  (∀ k, 0 ≤ k < Z.of_nat i → x ≠ link - k * buff) →
  snd (Slab_format buff i link h m) !! x = m !! x.
Proof.
  revert link h m. induction i as [|i IH]; intros link h m Hx; simpl; [done|].
  rewrite IH.
  - rewrite lookup_insert_ne; [done|]. specialize (Hx 0). lia.
  - intros k Hk. specialize (Hx (k + 1)).
    replace (link - buff - k * buff) with (link - (k + 1) * buff) by lia.
    apply Hx. lia.
Qed.

(** ** Occupancy classes and the order of the list *)

Lemma is_empty_frame st st' a L :
  frame st st' a → a ∉ L → Forall (is_empty st) L → Forall (is_empty st') L.
Proof.
  intros [He Hf] Ha. rewrite !Forall_forall. intros H b Hb.
  unfold is_empty. rewrite He, Hf; [by apply H|]. by intros ->.
Qed.

Lemma is_partial_frame st st' a L :
  frame st st' a → a ∉ L →
  Forall (is_partial st) L → Forall (is_partial st') L.
Proof.
  intros [He Hf] Ha. rewrite !Forall_forall. intros H b Hb.
  unfold is_partial. rewrite He, Hf; [by apply H|]. by intros ->.
Qed.

Lemma is_full_frame st st' a L :
  frame st st' a → a ∉ L → Forall (is_full st) L → Forall (is_full st') L.
Proof.
  intros [He Hf] Ha. rewrite !Forall_forall. intros H b Hb.
  unfold is_full. rewrite Hf; [by apply H|]. by intros ->.
Qed.

Lemma last_or_zero l : (∀ a, a ∈ l → a ≠ 0) → last_or 0 l = 0 → l = [].
Proof.
  intros Hnz H0. destruct l as [|a l]; [done|].
  exfalso. apply (Hnz (last_or 0 (a :: l))); [|done].
  by apply last_or_elem.
Qed.

(** Allocation takes a buffer from [curr]: where [curr] stands in the
    list, and why the order survives. *)
Lemma alloc_order st l c :
  0 < cache_elem st → NoDup l → (∀ a, a ∈ l → a ≠ 0) →
  ordered st l → cache_curr st = c → c ≠ 0 →
  ∃ N F v, l = N ++ c :: F ∧ avail_at st c = Some v ∧
    0 < v ≤ cache_elem st ∧ Forall (is_full st) F ∧
    ∀ st', frame st st' c → avail_at st' c = Some (v - 1) →
      cache_curr st' = (if decide (v - 1 = 0) then last_or 0 N else c) →
      ordered st' l.
Proof.
  intros He Hnd Hnz (E & P & F & -> & HE & HP & HF & Hcur) Hc Hc0.
  rewrite Hc in Hcur.
  destruct (snoc_cases P) as [->|(P' & c' & ->)].
  - rewrite app_nil_r in Hcur. simpl in *.
    destruct (snoc_cases E) as [->|(E' & c' & ->)]; [done|].
    rewrite last_or_snoc in Hcur. subst c'.
    rewrite Forall_app, Forall_singleton in HE. destruct HE as [HE' Hce].
    exists E', F, (cache_elem st). rewrite <- app_assoc. simpl.
    split; [done|]. split; [done|]. split; [lia|]. split; [done|].
    intros st' Hfr Hav Hcur'. pose proof Hfr as [Hel _].
    case_decide as Hv.
    + exists E', [], (c :: F). rewrite <- app_assoc in *. simpl.
      split; [done|]. split; [|split; [done|split]].
      * eapply is_empty_frame; [done| |done]. by_nodup Hnd.
      * constructor; [unfold is_full; by rewrite Hav, Hv|].
        eapply is_full_frame; [done| |done]. by_nodup Hnd.
      * by rewrite app_nil_r.
    + exists E', [c], F. rewrite <- app_assoc in *. simpl.
      split; [done|]. split; [|split; [|split]].
      * eapply is_empty_frame; [done| |done]. by_nodup Hnd.
      * apply Forall_singleton. eexists. split; [done|]. lia.
      * eapply is_full_frame; [done| |done]. by_nodup Hnd.
      * by rewrite last_or_snoc.
  - rewrite app_assoc, last_or_snoc in Hcur. subst c'.
    rewrite Forall_app, Forall_singleton in HP.
    destruct HP as [HP' (v & Hv & Hvr)].
    exists (E ++ P'), F, v. rewrite <- !app_assoc. simpl.
    split; [done|]. split; [done|]. split; [lia|]. split; [done|].
    intros st' Hfr Hav Hcur'. pose proof Hfr as [Hel _].
    rewrite <- !app_assoc in Hnd. simpl in Hnd.
    case_decide as Hv0.
    + exists E, P', (c :: F). split; [done|]. split; [|split; [|split]].
      * eapply is_empty_frame; [done| |done]. by_nodup Hnd.
      * eapply is_partial_frame; [done| |done]. by_nodup Hnd.
      * constructor; [unfold is_full; by rewrite Hav, Hv0|].
        eapply is_full_frame; [done| |done]. by_nodup Hnd.
      * done.
    + exists E, (P' ++ [c]), F. rewrite <- !app_assoc. simpl.
      split; [done|]. split; [|split; [|split]].
      * eapply is_empty_frame; [done| |done]. by_nodup Hnd.
      * apply Forall_app. split.
        -- eapply is_partial_frame; [done| |done]. by_nodup Hnd.
        -- apply Forall_singleton. eexists. split; [done|]. lia.
      * eapply is_full_frame; [done| |done]. by_nodup Hnd.
      * by rewrite Hcur', app_assoc, last_or_snoc.
Qed.

(** Release into a FULL slab: the slab sits among the FULL ones and is
    moved, or already stands, right behind the slabs that are not FULL. *)
Lemma free_full_order st l a :
  0 < cache_elem st → NoDup l → ordered st l → a ∈ l → is_full st a →
  ∃ N F1 F2, l = N ++ F1 ++ a :: F2 ∧ cache_curr st = last_or 0 N ∧
    Forall (is_full st) F1 ∧ (∀ b, b ∈ N → ¬ is_full st b) ∧
    ∀ st', frame st st' a → avail_at st' a = Some 1 →
      cache_curr st' = a → ordered st' (N ++ a :: F1 ++ F2).
Proof.
  intros He Hnd (E & P & F & -> & HE & HP & HF & Hcur) Ha Hfull.
  assert (∀ b, b ∈ E ++ P → ¬ is_full st b) as Hnf.
  { intros b [Hb|Hb]%elem_of_app Hbf; unfold is_full in Hbf.
    - rewrite Forall_forall in HE. apply HE in Hb.
      unfold is_empty in Hb. rewrite Hb in Hbf. injection Hbf. lia.
    - rewrite Forall_forall in HP. apply HP in Hb as (v & Hv & Hvr).
      rewrite Hv in Hbf. injection Hbf. lia. }
  assert (a ∈ F) as HaF.
  { rewrite app_assoc in Ha. apply elem_of_app in Ha as [Ha|Ha]; [|done].
    by apply Hnf in Ha. }
  apply list_elem_of_split in HaF as (F1 & F2 & ->).
  rewrite Forall_app, Forall_cons in HF. destruct HF as (HF1 & _ & HF2).
  exists (E ++ P), F1, F2. rewrite <- !app_assoc.
  split; [done|]. split; [done|]. split; [done|]. split; [done|].
  intros st' Hfr Hav Hcur'. pose proof Hfr as [Hel _].
  assert (Forall (is_full st') (F1 ++ F2)) as HF'.
  { apply Forall_app. split.
    - eapply is_full_frame; [done| |done]. by_nodup Hnd.
    - eapply is_full_frame; [done| |done]. by_nodup Hnd. }
  assert (Forall (is_empty st') E) as HE'.
  { eapply is_empty_frame; [done| |done]. by_nodup Hnd. }
  destruct (decide (cache_elem st = 1)) as [H1|H1].
  - assert (P = []) as ->.
    { destruct P as [|b P]; [done|]. apply Forall_cons in HP as [HP _].
      destruct HP as (v & _ & Hv). lia. }
    exists (E ++ [a]), [], (F1 ++ F2). simpl. rewrite <- !app_assoc. simpl.
    split; [done|]. split; [|split; [done|split; [done|]]].
    + apply Forall_app. split; [done|]. apply Forall_singleton.
      unfold is_empty. by rewrite Hav, Hel, H1.
    + by rewrite last_or_snoc.
  - exists E, (P ++ [a]), (F1 ++ F2). rewrite <- !app_assoc. simpl.
    split; [done|]. split; [done|]. split; [|split; [done|]].
    + apply Forall_app. split.
      * eapply is_partial_frame; [done| |done]. by_nodup Hnd.
      * apply Forall_singleton. exists 1. split; [done|]. lia.
    + by rewrite !app_assoc, last_or_snoc.
Qed.

(** Release into a PARTIAL slab: it stays where it is, unless it becomes
    EMPTY behind a slab that is not EMPTY, in which case it goes to the
    front. *)
Lemma free_partial_order st l a v :
  NoDup l → ordered st l → a ∈ l →
  avail_at st a = Some v → 0 < v < cache_elem st →
  ∃ E P1 R, l = E ++ P1 ++ a :: R ∧
    Forall (is_empty st) E ∧ Forall (is_partial st) P1 ∧
    (∀ st', frame st st' a → avail_at st' a = Some (v + 1) →
       (v + 1 < cache_elem st ∨ P1 = []) →
       cache_curr st' = cache_curr st → ordered st' l) ∧
    (∀ st', frame st st' a → avail_at st' a = Some (v + 1) →
       v + 1 = cache_elem st → P1 ≠ [] →
       cache_curr st' = (if decide (a = cache_curr st) then last_or 0 P1
                         else cache_curr st) →
       ordered st' (a :: E ++ P1 ++ R)).
Proof.
  intros Hnd (E & P & F & -> & HE & HP & HF & Hcur) Ha Hav Hv.
  assert (a ∈ P) as HaP.
  { apply elem_of_app in Ha as [Ha|Ha].
    - rewrite Forall_forall in HE. apply HE in Ha.
      unfold is_empty in Ha. rewrite Ha in Hav. injection Hav. lia.
    - apply elem_of_app in Ha as [Ha|Ha]; [done|].
      rewrite Forall_forall in HF. apply HF in Ha.
      unfold is_full in Ha. rewrite Ha in Hav. injection Hav. lia. }
  apply list_elem_of_split in HaP as (P1 & P2 & ->).
  rewrite Forall_app, Forall_cons in HP. destruct HP as (HP1 & _ & HP2).
  exists E, P1, (P2 ++ F). rewrite <- !app_assoc. simpl.
  split; [done|]. split; [done|]. split; [done|].
  rewrite <- !app_assoc in Hnd. simpl in Hnd.
  assert (∀ st', frame st st' a →
    Forall (is_empty st') E ∧ Forall (is_partial st') P1 ∧
    Forall (is_partial st') P2 ∧ Forall (is_full st') F) as Hframe.
  { intros st' Hfr. split; [|split; [|split]].
    - eapply is_empty_frame; [done| |done]. by_nodup Hnd.
    - eapply is_partial_frame; [done| |done]. by_nodup Hnd.
    - eapply is_partial_frame; [done| |done]. by_nodup Hnd.
    - eapply is_full_frame; [done| |done]. by_nodup Hnd. }
  split.
  - intros st' Hfr Hav' Hcase Hcur'. pose proof Hfr as [Hel _].
    destruct (Hframe st' Hfr) as (HE' & HP1' & HP2' & HF').
    destruct (decide (v + 1 < cache_elem st)) as [Hlt|Hge].
    + exists E, (P1 ++ a :: P2), F. rewrite <- !app_assoc. simpl.
      split; [done|]. split; [done|]. split; [|split; [done|]].
      * apply Forall_app. split; [done|]. constructor; [|done].
        exists (v + 1). split; [done|]. lia.
      * by rewrite Hcur', Hcur.
    + destruct Hcase as [?| ->]; [lia|]. simpl in *.
      exists (E ++ [a]), P2, F. rewrite <- !app_assoc. simpl.
      split; [done|]. split; [|split; [done|split; [done|]]].
      * apply Forall_app. split; [done|]. apply Forall_singleton.
        unfold is_empty. rewrite Hav', Hel. f_equal. lia.
      * by rewrite Hcur', Hcur.
  - intros st' Hfr Hav' Hfull HP1ne Hcur'. pose proof Hfr as [Hel _].
    destruct (Hframe st' Hfr) as (HE' & HP1' & HP2' & HF').
    exists (a :: E), (P1 ++ P2), F. simpl. rewrite <- !app_assoc.
    split; [done|]. split; [|split; [|split; [done|]]].
    + constructor; [|done]. unfold is_empty. by rewrite Hav', Hel, Hfull.
    + by apply Forall_app.
    + rewrite Hcur', Hcur. rewrite !last_or_app. simpl.
      destruct (snoc_cases P2) as [->|(P2' & z & ->)]; simpl.
      * rewrite decide_True by done.
        by apply last_or_nonempty.
      * rewrite !last_or_snoc. rewrite decide_False; [done|].
        by_nodup Hnd.
Qed.

(** ** The invariant *)

Lemma lnk_is_Some h a : is_Some (lnk h a) ↔ is_Some (h !! a).
Proof. unfold lnk. by rewrite fmap_is_Some. Qed.

Lemma dat_is_Some h a : is_Some (dat h a) ↔ is_Some (h !! a).
Proof. unfold dat. by rewrite fmap_is_Some. Qed.

Lemma used_frame st st' l :
  cache_elem st' = cache_elem st →
  (∀ a, a ∈ l → avail_at st' a = avail_at st a) → used st' l = used st l.
Proof.
  intros He. induction l as [|a l IH]; intros Ha; simpl; [done|].
  rewrite He, Ha, IH; [done| |left]. intros b Hb. apply Ha. by right.
Qed.

Lemma used_perm st l l' : l ≡ₚ l' → used st l = used st l'.
Proof. induction 1; simpl; lia. Qed.

Lemma used_app st l1 l2 : used st (l1 ++ l2) = used st l1 + used st l2.
Proof. induction l1 as [|a l1 IH]; simpl; lia. Qed.

Lemma is_buf_same st st' a p :
  cache_elem st' = cache_elem st → cache_buff st' = cache_buff st →
  is_buf st a p → is_buf st' a p.
Proof. unfold is_buf. intros -> ->. done. Qed.

Lemma avail_at_same st st' a :
  same_data st st' → avail_at st' a = avail_at st a.
Proof. intros (_&_&_&_&_&H). unfold avail_at. by rewrite H. Qed.

Lemma slab_ok_same st st' lv a :
  same_data st st' → slab_ok st lv a → slab_ok st' lv a.
Proof.
  intros (Hs & Hb & He & Hl & Hp & Hd) (fl & h & Hdat & Hc & Hnd & Hfl).
  exists fl, h. rewrite Hd, Hl, Hs. repeat split; try done.
  - eapply is_buf_same; [..|by apply Hfl]; done.
  - by apply Hfl.
Qed.

Lemma Data_same st st' lv l l' :
  same_data st st' → l ≡ₚ l' → Data st lv l → Data st' lv l'.
Proof.
  intros Hsd Hperm [Hcfg Hpg Hsl Hnd Hlv Hu].
  pose proof Hsd as (Hs & Hb & He & Hl & Hp & Hd).
  split.
  - unfold cfg_ok. by rewrite Hs, Hb, He.
  - intros a Ha. rewrite <- Hperm in Ha. rewrite Hp. by apply Hpg.
  - intros a Ha. rewrite <- Hperm in Ha.
    eapply slab_ok_same; [done|]. by apply Hsl.
  - done.
  - intros p Hp'. destruct (Hlv p Hp') as (a & Ha & Hbuf).
    exists a. rewrite <- Hperm. split; [done|].
    eapply is_buf_same; [..|done]; done.
  - rewrite <- (used_perm _ _ _ Hperm), <- Hu.
    apply used_frame; [done|]. intros a _. by apply avail_at_same.
Qed.

Lemma Shape_same st st' l : same_links st st' → Shape st l → Shape st' l.
Proof.
  intros (Hc & Hh & Hl) [Hnd Hhd Hlk Hdom]. split; [done|congruence| |].
  - eapply linked_frame; [|done]. intros a _. by apply Hl.
  - intros a Ha. apply Hdom. by rewrite <- lnk_is_Some, <- Hl, lnk_is_Some.
Qed.

(** A slab has [elem] buffers, so a duplicate-free list of its buffers
    has at most [elem] entries. *)
Lemma buffers_bound st a L :
  0 ≤ cache_elem st → 0 < cache_buff st →
  NoDup L → (∀ q, q ∈ L → is_buf st a q) →
  Z.of_nat (length L) ≤ cache_elem st.
Proof.
  intros He Hb Hnd HL.
  set (all := map (λ i : nat, a + PAGE_SIZE - (Z.of_nat i + 1) * cache_buff st)
                  (seq 0 (Z.to_nat (cache_elem st)))).
  assert (L ⊆+ all) as Hsub.
  { apply NoDup_submseteq; [done|]. intros q Hq.
    destruct (HL q Hq) as (i & Hi & ->).
    apply list_elem_of_fmap. exists (Z.to_nat i). split; [f_equal; lia|].
    apply elem_of_seq. lia. }
  apply submseteq_length in Hsub. unfold all in Hsub.
  rewrite length_map, length_seq in Hsub. lia.
Qed.

Lemma remove_first_subset p q l : q ∈ remove_first p l → q ∈ l.
Proof.
  induction l as [|x l IH]; simpl; [done|].
  case_decide; [by right|]. intros [->|?]%elem_of_cons; [left|right; auto].
Qed.

Lemma remove_first_NoDup p l : NoDup l → NoDup (remove_first p l).
Proof.
  induction 1 as [|x l Hx Hnd IH]; simpl; [constructor|].
  case_decide; [done|]. constructor; [|done].
  intros Hin. by apply remove_first_subset in Hin.
Qed.

Lemma remove_first_notin p l : NoDup l → p ∉ remove_first p l.
Proof.
  induction 1 as [|x l Hx Hnd IH]; simpl; [by apply not_elem_of_nil|].
  case_decide; [by subst|]. by intros [->|?]%elem_of_cons.
Qed.

Lemma remove_first_length p l :
  p ∈ l → S (length (remove_first p l)) = length l.
Proof.
  induction l as [|x l IH]; simpl; [by intros ?%elem_of_nil|].
  case_decide; [done|]. intros [->|Hin]%elem_of_cons; [done|].
  simpl. by rewrite IH.
Qed.

Lemma used_update st st' l c v v' :
  NoDup l → c ∈ l → frame st st' c →
  avail_at st c = Some v → avail_at st' c = Some v' →
  used st' l = used st l + v - v'.
Proof.
  intros Hnd Hc [He Hf] Hv Hv'.
  apply list_elem_of_split in Hc as (l1 & l2 & ->).
  rewrite !used_app. simpl. rewrite Hv, Hv', He. simpl.
  rewrite (used_frame st st' l1), (used_frame st st' l2); [lia|done| |done|].
  - intros b Hb. apply Hf. by_nodup Hnd.
  - intros b Hb. apply Hf. by_nodup Hnd.
Qed.

Hypothesis PF : platform_ok.

Lemma wrap_small x : 0 ≤ x < 2 ^ (8 * WORD) → wrap x = x.
Proof. intros Hx. unfold wrap. by apply Z.mod_small. Qed.

Lemma elem_fits st : cfg_ok st → cache_elem st < 2 ^ (8 * WORD).
Proof. intros (?&?&?&?). pose proof (page_fits PF). nia. Qed.

Lemma Data_slab_addr st lv l a :
  Data st lv l → a ∈ l → 0 < a ∧ a mod PAGE_SIZE = 0.
Proof.
  intros HD Ha. destruct (d_pages _ _ _ HD a Ha) as (k & _ & ->).
  split; [apply (page_nonnull PF)|apply (page_aligned PF)].
Qed.

(** A buffer belongs to one slab only: the one at its page base. *)
Lemma Data_buf_base st lv l a p :
  Data st lv l → a ∈ l → is_buf st a p → page_base p = a.
Proof.
  intros HD Ha Hp. destruct (Data_slab_addr _ _ _ _ HD Ha).
  apply (is_buf_base st); [apply (page_bits PF)|apply (d_cfg _ _ _ HD)|done..].
Qed.

Lemma Data_buf_owner st lv l a b p :
  Data st lv l → a ∈ l → b ∈ l → is_buf st a p → is_buf st b p → a = b.
Proof.
  intros HD Ha Hb Hpa Hpb.
  rewrite <- (Data_buf_base _ _ _ _ _ HD Ha Hpa).
  by rewrite <- (Data_buf_base _ _ _ _ _ HD Hb Hpb).
Qed.

Lemma dat_Some h a v hd :
  dat h a = Some (v, hd) →
  ∃ s, h !! a = Some s ∧ slab_avail s = v ∧ slab_head s = hd.
Proof.
  unfold dat. destruct (h !! a) as [s|]; [|done].
  simpl. intros [= <- <-]. eauto.
Qed.

(** [Slab::alloc] on a slab that is not FULL pops the first buffer of its
    free list. *)
Lemma Slab_alloc_data st lv l c v :
  Data st lv l → NoDup l → c ∈ l → avail_at st c = Some v → v ≠ 0 →
  ∃ p st', Slab_alloc st c = Some (p, st') ∧
    Data st' (p :: lv) l ∧ is_buf st c p ∧ (p ∉ lv) ∧
    (∃ a0, dat (mem_slabs st) c = Some (a0, p + cache_size st)) ∧
    0 < v ≤ cache_elem st ∧
    avail_at st' c = Some (v - 1) ∧ frame st st' c ∧
    same_links st st' ∧ pages_used st' = pages_used st.
Proof.
  intros HD Hnd Hc Hv Hv0.
  destruct (d_slabs _ _ _ HD c Hc) as (fl & h & Hdat & Hch & Hfnd & Hfl).
  unfold avail_at in Hv. rewrite Hdat in Hv. simpl in Hv.
  injection Hv as <-.
  destruct fl as [|p fl]; [done|]. simpl in Hch.
  destruct Hch as (-> & Hh0 & nx & Hnx & Hch).
  pose proof (d_cfg _ _ _ HD) as Hcfg. pose proof (elem_fits _ Hcfg) as Hfit.
  assert (Z.of_nat (length (p :: fl)) ≤ cache_elem st) as Hle.
  { destruct Hcfg as (?&?&?&?).
    apply (buffers_bound st c); [lia|done|done|]. intros q Hq. by apply Hfl. }
  simpl length in *.
  destruct (Data_slab_addr _ _ _ _ HD Hc) as [Hc0 _].
  apply dat_Some in Hdat as (s & Hs & Hs1 & Hs2).
  exists p. eexists. split.
  { unfold Slab_alloc. rewrite (deref_Some _ _ s) by (done || lia).
    simpl. unfold load. rewrite Hs2, decide_False by done.
    rewrite Hnx. simpl. f_equal. f_equal. lia. }
  assert (wrap (slab_avail s - 1) = Z.of_nat (length fl)) as Hw.
  { rewrite wrap_small; lia. }
  assert (frame st (put_slab st c
      (with_head (with_avail s (wrap (slab_avail s - 1))) nx)) c) as Hfr.
  { split; [done|]. intros b Hb. unfold avail_at. simpl.
    rewrite dat_insert. by rewrite decide_False. }
  assert (p ∉ lv) as Hplv by (apply Hfl; left).
  split; [|split; [apply Hfl; left|split; [done|split; [|split;
    [lia|split; [|split; [done|split; [|done]]]]]]]].
  - destruct HD as [_ Hpg Hsl Hlnd Hlv Hu]. split; simpl.
    + done.
    + done.
    + intros a Ha. destruct (decide (a = c)) as [->|Hac].
      * exists fl, nx. simpl. rewrite dat_insert, decide_True by done.
        simpl. rewrite Hw. split; [done|]. split; [done|].
        apply NoDup_cons in Hfnd as [Hpfl Hfnd]. split; [done|].
        intros q Hq. split; [apply Hfl; by right|].
        intros [->|Hq']%elem_of_cons; [done|].
        by apply (Hfl q); [right|].
      * destruct (Hsl a Ha) as (fla & ha & Hdata & Hcha & Hnda & Hfla).
        exists fla, ha. simpl. rewrite dat_insert, decide_False by done.
        split; [done|]. split; [done|]. split; [done|].
        intros q Hq. split; [by apply Hfla|].
        intros [->|Hq']%elem_of_cons; [|by apply (Hfla q)].
        apply Hac.
        eapply (Data_buf_owner st lv l a c p);
          [by split|done|done|by apply Hfla|apply Hfl; left].
    + by constructor.
    + intros q [->|Hq]%elem_of_cons; [|by apply Hlv].
      exists c. split; [done|]. apply Hfl; left.
    + rewrite (used_update st _ l c (Z.of_nat (S (length fl)))
                 (Z.of_nat (length fl))); try done.
      * rewrite Hu. lia.
      * unfold avail_at, dat. rewrite Hs. simpl. by rewrite Hs1.
      * unfold avail_at. simpl. rewrite dat_insert, decide_True by done.
        simpl. by rewrite Hw.
  - exists (slab_avail s). unfold dat. rewrite Hs. simpl. by rewrite Hs2.
  - unfold avail_at. simpl. rewrite dat_insert, decide_True by done.
    simpl. rewrite Hw. f_equal. lia.
  - repeat split; simpl; try done. intros a.
    by apply (lnk_insert_data _ _ s).
Qed.

(** [Slab::free] of a live pointer pushes its buffer on the free list of
    the slab at its page base. *)
Lemma Slab_free_data st lv l p :
  Data st lv l → NoDup l → p ∈ lv →
  ∃ v st', page_base p ∈ l ∧ is_buf st (page_base p) p ∧
    avail_at st (page_base p) = Some v ∧ 0 ≤ v < cache_elem st ∧
    Slab_free st (page_base p) p = Some st' ∧
    Data st' (remove_first p lv) l ∧ frame st st' (page_base p) ∧
    dat (mem_slabs st') (page_base p) = Some (v + 1, p + cache_size st) ∧
    same_links st st' ∧ pages_used st' = pages_used st.
Proof.
  intros HD Hnd Hp.
  destruct (d_live _ _ _ HD p Hp) as (a & Ha & Hbuf).
  rewrite (Data_buf_base _ _ _ _ _ HD Ha Hbuf).
  destruct (d_slabs _ _ _ HD a Ha) as (fl & h & Hdat & Hch & Hfnd & Hfl).
  pose proof (d_cfg _ _ _ HD) as Hcfg. pose proof (elem_fits _ Hcfg) as Hfit.
  assert (p ∉ fl) as Hpfl by (intros Hin; by apply (Hfl p Hin)).
  assert (Z.of_nat (length (p :: fl)) ≤ cache_elem st) as Hle.
  { destruct Hcfg as (?&?&?&?).
    apply (buffers_bound st a); [lia|done|by constructor|].
    intros q [->|Hq]%elem_of_cons; [done|by apply Hfl]. }
  simpl length in Hle.
  destruct (Data_slab_addr _ _ _ _ HD Ha) as [Ha0 _].
  destruct (is_buf_range _ _ _ Hcfg Hbuf) as [Hpa _].
  assert (p + cache_size st ≠ 0) as Hlink
    by (destruct Hcfg as (?&?&?&?); lia).
  pose proof Hdat as Hdat'.
  apply dat_Some in Hdat' as (s & Hs & Hs1 & Hs2).
  assert (wrap (slab_avail s + 1) = Z.of_nat (length fl) + 1) as Hw.
  { rewrite wrap_small; lia. }
  exists (Z.of_nat (length fl)). eexists.
  split; [done|]. split; [done|].
  split; [unfold avail_at; by rewrite Hdat|]. split; [lia|].
  split.
  { unfold Slab_free. rewrite (deref_Some _ _ s) by (done || lia).
    simpl. unfold store. rewrite decide_False by done. simpl. done. }
  assert (frame st
    (put_slab (set_links st (<[p + cache_size st := slab_head s]>
                               (mem_links st))) a
       (with_head (with_avail s (wrap (slab_avail s + 1)))
                  (p + cache_size st))) a) as Hfr.
  { split; [done|]. intros b Hb. unfold avail_at. simpl.
    rewrite dat_insert. by rewrite decide_False. }
  split; [|split; [done|split; [|split; [|done]]]].
  - destruct HD as [_ Hpg Hsl Hlnd Hlv Hu]. split; simpl.
    + done.
    + done.
    + intros b Hb. destruct (decide (b = a)) as [->|Hba].
      * exists (p :: fl), (p + cache_size st). simpl.
        rewrite dat_insert, decide_True by done. simpl. rewrite Hw.
        split; [do 2 f_equal; lia|]. split; [|split].
        -- split; [done|]. split; [done|]. exists h.
           rewrite lookup_insert_eq, Hs2. split; [done|].
           apply chain_frame; [|done].
           by replace (p + cache_size st - cache_size st) with p by lia.
        -- by constructor.
        -- intros q [->|Hq]%elem_of_cons.
           ++ split; [done|]. by apply remove_first_notin.
           ++ split; [by apply Hfl|]. intros Hin%remove_first_subset.
              by apply (Hfl q).
      * destruct (Hsl b Hb) as (flb & hb & Hdatb & Hchb & Hndb & Hflb).
        exists flb, hb. simpl. rewrite dat_insert, decide_False by done.
        split; [done|]. split; [|split; [done|]].
        -- apply chain_frame; [|done].
           replace (p + cache_size st - cache_size st) with p by lia.
           intros Hin. apply Hba.
           eapply (Data_buf_owner st lv l b a p);
             [by split|done|done|by apply Hflb|done].
        -- intros q Hq. split; [by apply Hflb|].
           intros Hin%remove_first_subset. by apply (Hflb q).
    + by apply remove_first_NoDup.
    + intros q Hq%remove_first_subset. by apply Hlv.
    + rewrite (used_update st _ l a (Z.of_nat (length fl))
                 (Z.of_nat (length fl) + 1)); try done.
      * rewrite Hu. pose proof (remove_first_length p lv Hp). lia.
      * unfold avail_at. by rewrite Hdat.
      * unfold avail_at. simpl. rewrite dat_insert, decide_True by done.
        simpl. by rewrite Hw.
  - simpl. rewrite dat_insert, decide_True by done. simpl. by rewrite Hw.
  - repeat split; simpl; try done. intros b.
    by apply (lnk_insert_data _ _ s).
Qed.

Lemma chain_ext m m' sz h ps :
  (∀ q, q ∈ ps → m' !! (q + sz) = m !! (q + sz)) →
  chain m sz h ps → chain m' sz h ps.
Proof.
  revert h. induction ps as [|p ps IH]; intros h Hext; simpl; [done|].
  intros (-> & Hh & nx & Hnx & Hc). split; [done|]. split; [done|].
  exists nx. split.
  - rewrite Hext; [done|left].
  - apply IH; [|done]. intros q Hq. apply Hext. by right.
Qed.

Lemma fresh_page st lv l :
  Data st lv l → page_at (pages_used st) ∉ l.
Proof.
  intros HD Hin. destruct (d_pages _ _ _ HD _ Hin) as (k & Hk & Heq).
  apply (page_fresh PF) in Heq. lia.
Qed.

(** The constructor of [Slab], run on a fresh page, adds an EMPTY slab
    whose free list threads all the buffers of the page. *)
Lemma Slab_ctor_data st lv l :
  Data st lv l →
  let a0 := page_at (pages_used st) in
  let st0 := Slab_ctor (set_pages st (S (pages_used st))) a0 in
  Data st0 lv (a0 :: l) ∧
  (∃ h0, mem_slabs st0 = <[a0 := mkSlab (cache_elem st) 0 0 h0]>
                           (mem_slabs st)) ∧
  cache_curr st0 = cache_curr st ∧ cache_head st0 = cache_head st ∧
  cache_elem st0 = cache_elem st ∧ pages_used st0 = S (pages_used st).
Proof.
  intros HD a0 st0.
  pose proof (fresh_page _ _ _ HD) as Hfresh. fold a0 in Hfresh.
  pose proof (d_cfg _ _ _ HD) as Hcfg.
  pose proof Hcfg as (Hsz & Hbf & Hel & Hfit).
  pose proof (page_nonnull PF (pages_used st)) as Ha0. fold a0 in Ha0.
  pose proof (page_aligned PF (pages_used st)) as Hal. fold a0 in Hal.
  set (link := a0 + PAGE_SIZE - cache_buff st + cache_size st).
  set (n := Z.to_nat (cache_elem st)).
  set (r := Slab_format (cache_buff st) n link 0 (mem_links st)).
  assert (st0 = put_slab (set_links (set_pages st (S (pages_used st))) r.2)
                  a0 (mkSlab (cache_elem st) 0 0 r.1)) as Hst0 by done.
  assert (∀ q, is_buf st a0 q ↔
            ∃ k, 0 ≤ k < Z.of_nat n ∧ q = link - k * cache_buff st
                                           - cache_size st) as Hbufs.
  { intros q. unfold is_buf, link, n. split.
    - intros (i & Hi & ->). exists i. split; lia.
    - intros (k & Hk & ->). exists k. split; lia. }
  assert (∀ a q, a ∈ l → is_buf st a q → ¬ is_buf st a0 q) as Hother.
  { intros a q Ha Hq Hq0.
    apply (is_buf_base st) in Hq0; [|apply (page_bits PF)|done..].
    rewrite (Data_buf_base _ _ _ _ _ HD Ha Hq) in Hq0. by subst. }
  split; [|split; [|done]].
  - rewrite Hst0. destruct HD as [_ Hpg Hsl Hlnd Hlv Hu]. split; simpl.
    + done.
    + intros a [->|Ha]%elem_of_cons.
      * exists (pages_used st). split; [lia|done].
      * destruct (Hpg a Ha) as (k & Hk & ->). exists k. split; [lia|done].
    + intros a [->|Ha]%elem_of_cons.
      * exists (format_list (cache_buff st) (cache_size st) n link []), r.1.
        simpl. rewrite dat_insert, decide_True by done. simpl.
        rewrite format_list_length.
        split; [do 2 f_equal; unfold n; simpl; lia|].
        split; [|split].
        -- apply Slab_format_chain; [done|done| |].
           ++ by intros p ?%elem_of_nil.
           ++ intros k Hk. unfold link. nia.
        -- apply format_list_NoDup; [done|constructor|].
           by intros p ?%elem_of_nil.
        -- intros q Hq. apply format_list_elem in Hq as [?%elem_of_nil|Hq];
             [done|].
           apply Hbufs in Hq. split; [done|]. intros Hin.
           destruct (Hlv q Hin) as (a & Ha & Hqa). by apply (Hother a q).
      * destruct (Hsl a Ha) as (fla & ha & Hdata & Hcha & Hnda & Hfla).
        exists fla, ha. simpl.
        rewrite dat_insert, decide_False by (by intros ->).
        split; [done|]. split; [|done].
        eapply chain_ext; [|done]. intros q Hq.
        apply Slab_format_frame. intros k Hk Heq.
        apply (Hother a q Ha); [by apply Hfla|].
        apply Hbufs. exists k. split; [done|]. lia.
    + done.
    + intros q Hq. destruct (Hlv q Hq) as (a & Ha & Hqa).
      exists a. split; [by right|done].
    + unfold avail_at at 1. simpl.
      rewrite dat_insert, decide_True by done. simpl.
      rewrite <- Hu. ring_simplify.
      apply used_frame; [done|]. intros a Ha. unfold avail_at. simpl.
      rewrite dat_insert, decide_False; [done|]. by intros ->.
  - rewrite Hst0. simpl. by eexists.
Qed.

Lemma same_data_set_curr st v : same_data st (set_curr st v).
Proof. by repeat split. Qed.

Lemma same_data_dom st st' a :
  same_data st st' →
  is_Some (mem_slabs st' !! a) → is_Some (mem_slabs st !! a).
Proof.
  intros (_&_&_&_&_&H). by rewrite <- !dat_is_Some, H.
Qed.

Lemma Inv_nonnull s l a : Inv s l → a ∈ l → a ≠ 0.
Proof.
  intros HI Ha. pose proof (Data_slab_addr _ _ _ _ (inv_data _ _ HI) Ha). lia.
Qed.

(** With [curr] null every slab of the list is FULL. *)
Lemma Inv_curr_null s l :
  Inv s l → cache_curr (cache s) = 0 → Forall (is_full (cache s)) l.
Proof.
  intros HI Hc. destruct (inv_order _ _ HI) as (E & P & F & -> & _ & _ & HF & Hcur).
  rewrite Hc in Hcur. symmetry in Hcur. apply last_or_zero in Hcur.
  - apply app_eq_nil in Hcur as [-> ->]. done.
  - intros a Ha. apply (Inv_nonnull _ _ _ HI). rewrite app_assoc.
    apply elem_of_app. by left.
Qed.

(** [grow] links a fresh EMPTY slab in front of the list and makes it
    [curr]. *)
Lemma grow_inv s l :
  Inv s l → cache_curr (cache s) = 0 →
  let a0 := page_at (pages_used (cache s)) in
  ∃ st1, grow (cache s) = Some st1 ∧
    Inv (mkSys st1 (live s) (n_allocs s) (n_frees s)) (a0 :: l) ∧
    cache_curr st1 = a0 ∧ cache_head st1 = a0 ∧
    pages_used st1 = S (pages_used (cache s)) ∧
    is_empty st1 a0 ∧
    lnk (mem_slabs st1) a0 = Some (0, cache_head (cache s)) ∧
    (cache_head (cache s) ≠ 0 →
     ∃ n, lnk (mem_slabs st1) (cache_head (cache s)) = Some (a0, n)).
Proof.
  intros HI Hc a0. pose proof (Inv_curr_null _ _ HI Hc) as Hfull.
  destruct HI as [[Hnd Hhd Hlk Hdom] HD Hord Hlen Hcnt].
  set (st := cache s) in *.
  pose proof (fresh_page _ _ _ HD) as Hfresh. fold a0 in Hfresh.
  pose proof (page_nonnull PF (pages_used st)) as Ha0. fold a0 in Ha0.
  destruct (Slab_ctor_data _ _ _ HD) as (HD0 & [h0 Hm0] & Hc0 & Hh0 & He0 & Hp0).
  fold a0 in HD0, Hm0, Hc0, Hh0, He0, Hp0.
  set (st0 := Slab_ctor (set_pages st (S (pages_used st))) a0) in *.
  assert (∀ b, b ≠ a0 → mem_slabs st0 !! b = mem_slabs st !! b) as Hold.
  { intros b Hb. by rewrite Hm0, lookup_insert_ne. }
  assert (mem_slabs st0 !! a0 = Some (mkSlab (cache_elem st) 0 0 h0)) as Hnew.
  { by rewrite Hm0, lookup_insert_eq. }
  assert (∃ st1, grow st = Some st1 ∧ same_data st0 st1 ∧
            linked (mem_slabs st1) 0 (a0 :: l) 0 ∧
            cache_curr st1 = a0 ∧ cache_head st1 = a0) as
    (st1 & Hgrow & Hsd & Hlk1 & Hc1 & Hh1).
  { unfold grow. fold a0 st0. clearbody st0. rewrite Hh0, Hhd.
    destruct l as [|hd0 l']; simpl in *.
    - rewrite (write_next_spec _ _ (mkSlab (cache_elem st) 0 0 h0))
        by (done || lia). simpl.
      eexists. split; [done|]. split; [|split; [|done]].
      + repeat split; simpl; try done. intros b.
        by eapply dat_insert_links.
      + simpl. rewrite lnk_insert, decide_True by done.
        simpl. rewrite Hh0, Hhd. split; [split; [lia|done]|done].
    - destruct Hlk as [[Hhd0 Hl0] Hlk].
      apply lnk_Some in Hl0 as (r0 & Hr0 & Hr01 & Hr02).
      assert (hd0 ≠ a0) as Hne by (intros ->; apply Hfresh; left).
      rewrite decide_False by done.
      rewrite (write_prev_spec _ _ r0) by (by rewrite ?Hold). simpl.
      rewrite (write_next_spec _ _ (mkSlab (cache_elem st) 0 0 h0));
        [|lia|by simpl; rewrite lookup_insert_ne]. simpl.
      eexists. split; [done|]. split; [|split; [|done]].
      + repeat split; simpl; try done. intros b.
        rewrite (dat_insert_links _ _ (mkSlab (cache_elem st) 0 0 h0));
          [|by rewrite lookup_insert_ne|done..].
        eapply dat_insert_links; [by rewrite Hold|done..].
      + simpl. rewrite !lnk_insert, decide_True by done. simpl.
        rewrite Hh0, Hhd. simpl. split; [split; [lia|done]|].
        rewrite decide_False, decide_True by done. simpl.
        rewrite Hr02. split; [done|].
        eapply linked_frame; [|done]. intros b Hb.
        rewrite !lnk_insert.
        rewrite decide_False, decide_False.
        * unfold lnk. rewrite Hold; [done|].
          intros ->. apply Hfresh. by right.
        * by_nodup Hnd.
        * intros ->. apply Hfresh. by right. }
  clearbody st0. pose proof Hsd as (Hs1 & Hb1 & He1 & Hl1 & Hp1 & Hd1).
  assert (∀ b, b ∈ l → avail_at st1 b = avail_at st b) as Hav.
  { intros b Hb. rewrite (avail_at_same st0) by done.
    unfold avail_at, dat. rewrite Hold; [done|]. by intros ->. }
  assert (is_empty st1 a0) as Hemp.
  { unfold is_empty. rewrite (avail_at_same st0) by done.
    unfold avail_at, dat. rewrite Hnew. simpl. by rewrite He1, He0. }
  exists st1. split; [done|].
  split; [|split; [done|split; [done|split; [congruence|split; [done|]]]]].
  - split; simpl.
    + split; [by constructor|done|done|].
      intros b Hb. apply (same_data_dom _ _ _ Hsd) in Hb.
      destruct (decide (b = a0)) as [->|Hne]; [left|right].
      apply Hdom. by rewrite <- Hold.
    + by eapply Data_same.
    + exists [a0], [], l. split; [done|].
      split; [by apply Forall_singleton|]. split; [done|]. split; [|done].
      eapply Forall_impl; [apply Forall_forall; intros b Hb; exact Hb|].
      intros b Hb. unfold is_full. rewrite Hav by done.
      rewrite Forall_forall in Hfull. by apply Hfull.
    + rewrite Hp1, Hp0. by rewrite Hlen.
    + done.
  - simpl in Hlk1. destruct Hlk1 as [[_ Hl0] Hlk1]. split.
    + rewrite Hl0. by rewrite Hhd.
    + intros Hne. destruct l as [|hd0 l']; simpl in *; [congruence|].
      destruct Hlk1 as [[_ Hl'] _]. rewrite Hhd. eauto.
Qed.

Lemma Shape_frame st st' l :
  cache_head st' = cache_head st →
  (∀ a, lnk (mem_slabs st') a = lnk (mem_slabs st) a) →
  Shape st l → Shape st' l.
Proof.
  intros Hh Hl [Hnd Hhd Hlk Hdom]. split; [done|congruence| |].
  - eapply linked_frame; [|done]. intros a _. by apply Hl.
  - intros a Ha. apply Hdom. by rewrite <- lnk_is_Some, <- Hl, lnk_is_Some.
Qed.

Lemma avail_at_Some st a v :
  avail_at st a = Some v →
  ∃ s, mem_slabs st !! a = Some s ∧ slab_avail s = v.
Proof.
  unfold avail_at, dat. destruct (mem_slabs st !! a) as [s|]; [|done].
  simpl. intros [= <-]. eauto.
Qed.

Lemma Slab_cache_alloc_unfold st :
  Slab_cache_alloc st =
  st1 ← (if decide (cache_curr st = 0) then grow st else Some st);
  alloc_from_curr st1.
Proof. reflexivity. Qed.

Lemma alloc_from_curr_inv s l :
  Inv s l → cache_curr (cache s) ≠ 0 →
  ∃ p st', alloc_from_curr (cache s) = Some (p, st') ∧
    Inv (mkSys st' (p :: live s) (S (n_allocs s)) (n_frees s)) l ∧
    is_buf (cache s) (cache_curr (cache s)) p ∧ (p ∉ live s) ∧
    (∃ v, dat (mem_slabs (cache s)) (cache_curr (cache s)) =
            Some (v, p + cache_size (cache s))) ∧
    pages_used st' = pages_used (cache s).
Proof.
  intros HI Hc0. pose proof (λ a, Inv_nonnull _ _ a HI) as Hnz.
  destruct HI as [HS HD Hord Hlen Hcnt].
  pose proof HS as [Hnd Hhd Hlk Hdom].
  set (st := cache s) in *. set (c := cache_curr st) in *.
  pose proof (d_cfg _ _ _ HD) as Hcfg. pose proof Hcfg as (_ & _ & Hel & _).
  destruct (alloc_order st l c Hel Hnd Hnz Hord eq_refl Hc0)
    as (N & F & v & Hl & Hv & Hvr & HF & Hk).
  assert (c ∈ l) as Hcl by (rewrite Hl; set_solver).
  destruct (Slab_alloc_data st _ l c v HD Hnd Hcl Hv ltac:(lia))
    as (p & st2 & Halloc & HD2 & Hbuf & Hplv & Hdat & _ & Hv2 & Hfr & Hsl & Hpg).
  pose proof Hsl as (Hc2 & Hh2 & Hl2).
  rewrite Hl in Hlk. apply linked_lookup in Hlk as [_ Hlc].
  pose proof Hv as Hv'. apply avail_at_Some in Hv' as (rc & Hrc & Hrcv).
  pose proof Hlc as Hlc'. unfold lnk in Hlc'. rewrite Hrc in Hlc'.
  simpl in Hlc'. injection Hlc' as Hrcp Hrcn.
  pose proof Hv2 as Hv2'. apply avail_at_Some in Hv2' as (rc2 & Hrc2 & Hrcv2).
  assert (slab_prev rc2 = last_or 0 N) as Hrcp2.
  { specialize (Hl2 c). rewrite Hlc in Hl2. unfold lnk in Hl2.
    rewrite Hrc2 in Hl2. simpl in Hl2. by injection Hl2. }
  exists p.
  exists (if decide (v - 1 = 0) then set_curr st2 (last_or 0 N) else st2).
  split.
  { unfold alloc_from_curr. fold st c.
    rewrite (deref_Some _ _ rc) by done. simpl.
    assert (full rc = false) as ->
      by (unfold full; rewrite Hrcv; apply bool_decide_eq_false_2; lia).
    simpl.
    assert ((if decide (slab_next rc = 0) then Some ()
             else n ← deref st (slab_next rc); assert (full n)) = Some ())
      as ->.
    { rewrite Hrcn. destruct F as [|f F']; simpl; [done|].
      apply Forall_cons in HF as [Hf _].
      apply avail_at_Some in Hf as (rf & Hrf & Hrfv).
      assert (f ≠ 0) as Hf0 by (apply Hnz; rewrite Hl; set_solver).
      rewrite decide_False, (deref_Some _ _ rf) by done. simpl.
      unfold full. by rewrite Hrfv. }
    simpl. rewrite Halloc. simpl. rewrite Hc2. fold c.
    rewrite (deref_Some _ _ rc2) by done. simpl.
    unfold full. rewrite Hrcv2, Hrcp2.
    case_decide; [by rewrite bool_decide_eq_true_2|
                  by rewrite bool_decide_eq_false_2]. }
  set (st' := if decide (v - 1 = 0) then set_curr st2 (last_or 0 N) else st2).
  assert (same_data st2 st' ∧ cache_head st' = cache_head st2 ∧
          mem_slabs st' = mem_slabs st2 ∧
          cache_curr st' = (if decide (v - 1 = 0) then last_or 0 N else c))
    as (Hsd & Hh' & Hm' & Hc').
  { unfold st'. case_decide; simpl.
    - split; [apply same_data_set_curr|done].
    - split; [apply same_data_refl|done]. }
  split; [|split; [done|split; [done|split; [done|]]]].
  - split; simpl.
    + eapply Shape_frame; [| |exact HS].
      * by rewrite Hh', Hh2.
      * intros a. by rewrite Hm', Hl2.
    + by eapply Data_same.
    + apply Hk; [|by unfold avail_at; rewrite Hm'|done].
      destruct Hfr as [He Hf]. destruct Hsd as (_ & _ & He' & _).
      split; [congruence|]. intros b Hb.
      unfold avail_at. rewrite Hm'. by apply Hf.
    + destruct Hsd as (_ & _ & _ & _ & Hp' & _). by rewrite Hp', Hpg.
    + simpl. lia.
  - destruct Hsd as (_ & _ & _ & _ & Hp' & _). by rewrite Hp', Hpg.
Qed.

Lemma is_full_deref st a :
  a ≠ 0 → is_Some (mem_slabs st !! a) →
  ∃ r, deref st a = Some r ∧ (full r = true ↔ is_full st a).
Proof.
  intros Ha [r Hr]. exists r. split; [by apply deref_Some|].
  unfold full, is_full, avail_at, dat. rewrite Hr. simpl.
  rewrite bool_decide_eq_true. split; [by intros ->|by intros [= ->]].
Qed.

Lemma is_empty_deref st a :
  a ≠ 0 → is_Some (mem_slabs st !! a) →
  ∃ r, deref st a = Some r ∧ (empty st r = true ↔ is_empty st a).
Proof.
  intros Ha [r Hr]. exists r. split; [by apply deref_Some|].
  unfold empty, is_empty, avail_at, dat. rewrite Hr. simpl.
  rewrite bool_decide_eq_true. split; [by intros ->|by intros [= ->]].
Qed.

Lemma Shape_mapped st l a : Shape st l → a ∈ l → is_Some (mem_slabs st !! a).
Proof. intros [_ _ Hlk _] Ha. by eapply linked_mapped. Qed.

Lemma Shape_nonnull st l a : Shape st l → a ∈ l → a ≠ 0.
Proof. intros [_ _ Hlk _] Ha. by eapply linked_nonnull. Qed.

(** The requeue of a slab that was FULL: it ends up right behind the
    slabs that are not FULL, and becomes [curr]. *)
Lemma requeue_full_spec st l a N F1 F2 :
  Shape st l → l = N ++ F1 ++ a :: F2 →
  cache_curr st = last_or 0 N →
  Forall (is_full st) F1 → (∀ b, b ∈ N → ¬ is_full st b) →
  ∃ st', requeue_full st a = Some st' ∧
    Shape st' (N ++ a :: F1 ++ F2) ∧ same_data st st' ∧
    cache_curr st' = a.
Proof.
  intros HS -> Hcur HF1 HN.
  pose proof (λ b, Shape_nonnull _ _ b HS) as Hnz.
  pose proof (λ b, Shape_mapped _ _ b HS) as Hmap.
  destruct HS as [Hnd Hhd Hlk Hdom].
  pose proof Hlk as Hlk'. rewrite app_assoc in Hlk'.
  apply linked_lookup in Hlk' as [Ha0 Hla].
  apply lnk_Some in Hla as (rs & Hrs & Hrs1 & Hrs2).
  unfold requeue_full. rewrite (deref_Some _ _ rs) by done. simpl.
  rewrite Hrs1, last_or_app.
  destruct (snoc_cases F1) as [->|(F1' & sp & ->)]; simpl.
  - (* the slab already stands behind the slabs that are not FULL *)
    assert ((if decide (last_or 0 N = 0) then Some false
             else p ← deref st (last_or 0 N); Some (full p)) = Some false)
      as ->.
    { case_decide as Hz; [done|].
      assert (last_or 0 N ∈ N) as Hin.
      { apply last_or_elem. intros ->. by apply Hz. }
      destruct (is_full_deref st (last_or 0 N)) as (r & -> & Hr).
      - apply Hnz. set_solver.
      - apply Hmap. set_solver.
      - simpl. f_equal. apply not_true_is_false. rewrite Hr. by apply HN. }
    simpl. eexists. split; [done|]. split; [|split; [|done]].
    + by split.
    + apply same_data_set_curr.
  - (* requeue *)
    rewrite last_or_snoc.
    assert (sp ≠ 0) as Hsp0 by (apply Hnz; set_solver).
    rewrite decide_False by done.
    destruct (is_full_deref st sp) as (rp & -> & Hrp);
      [done|apply Hmap; set_solver|].
    rewrite Forall_app, Forall_singleton in HF1. destruct HF1 as [HF1 Hspf].
    simpl. rewrite (proj2 Hrp) by done.
    rewrite <- !app_assoc in Hnd, Hlk, Hhd. simpl in Hnd, Hlk, Hhd.
    rewrite app_assoc in Hnd, Hlk.
    destruct (dequeue_spec st _ sp a F2 Hnd Hlk)
      as (st1 & -> & Hlk1 & Hla1 & Hsd1 & Hc1 & Hh1).
    simpl. rewrite <- app_assoc in Hlk1, Hnd.
    assert (is_Some (mem_slabs st1 !! a)) as Hma.
    { rewrite <- lnk_is_Some, Hla1, lnk_is_Some. eauto. }
    rewrite Hc1, Hcur.
    destruct (snoc_cases N) as [->|(N' & c & ->)]; simpl in *.
    + (* no slab is usable: the slab becomes the head *)
      destruct (F1' ++ sp :: F2) as [|h0 rest] eqn:HF;
        [by destruct F1'|].
      assert (hd 0 (F1' ++ sp :: a :: F2) = h0) as Hh0.
      { destruct F1'; simpl in *; congruence. }
      destruct (enqueue_as_head_spec st1 a h0 rest)
        as (st2 & -> & Hlk2 & Hsd2 & Hc2 & Hh2).
      * congruence.
      * rewrite <- HF. by_nodup Hnd.
      * done.
      * done.
      * done.
      * simpl. eexists. split; [done|].
        split; [|split; [|done]].
        -- split; simpl.
           ++ by_nodup Hnd.
           ++ done.
           ++ rewrite <- app_assoc. simpl. by rewrite HF.
           ++ intros b Hb.
              apply (same_data_dom st) in Hb;
                [|by eapply same_data_trans; eauto].
              apply Hdom in Hb. set_solver.
        -- eapply same_data_trans; [done|].
           eapply same_data_trans; [done|]. apply same_data_set_curr.
    + (* the slab goes behind [curr] *)
      rewrite last_or_snoc. 
      assert (c ≠ 0) as Hc0 by (apply Hnz; set_solver).
      rewrite decide_False by done.
      rewrite <- app_assoc in Hlk1. simpl in Hlk1.
      destruct (F1' ++ sp :: F2) as [|cn rest] eqn:HF;
        [by destruct F1'|].
      destruct (enqueue_after_curr_spec st1 a N' c cn rest)
        as (st2 & -> & Hlk2 & Hsd2 & Hc2 & Hh2).
      * by rewrite Hc1, Hcur, last_or_snoc.
      * rewrite <- HF. by_nodup Hnd.
      * done.
      * done.
      * done.
      * simpl. eexists. split; [done|].
        split; [|split; [|done]].
        -- split; simpl.
           ++ by_nodup Hnd.
           ++ rewrite Hh2, Hh1, Hhd. rewrite <- !app_assoc. by destruct N'.
           ++ rewrite <- !app_assoc. simpl. by rewrite HF.
           ++ intros b Hb.
              apply (same_data_dom st) in Hb;
                [|by eapply same_data_trans; eauto].
              apply Hdom in Hb. set_solver.
        -- eapply same_data_trans; [done|].
           eapply same_data_trans; [done|]. apply same_data_set_curr.
Qed.

(** The requeue of a slab that became EMPTY: it stays behind EMPTY
    slabs, and goes to the front from behind a PARTIAL one. *)
Lemma requeue_empty_spec st l a E P1 R :
  Shape st l → l = E ++ P1 ++ a :: R →
  Forall (is_empty st) E → Forall (is_partial st) P1 →
  ∃ st', requeue_empty st a = Some st' ∧ same_data st st' ∧
    (P1 = [] → st' = st) ∧
    (P1 ≠ [] → Shape st' (a :: E ++ P1 ++ R) ∧
       cache_curr st' = (if decide (a = cache_curr st) then last_or 0 P1
                         else cache_curr st)).
Proof.
  intros HS -> HE HP1.
  pose proof (λ b, Shape_nonnull _ _ b HS) as Hnz.
  pose proof (λ b, Shape_mapped _ _ b HS) as Hmap.
  destruct HS as [Hnd Hhd Hlk Hdom].
  pose proof Hlk as Hlk'. rewrite app_assoc in Hlk'.
  apply linked_lookup in Hlk' as [Ha0 Hla].
  apply lnk_Some in Hla as (rs & Hrs & Hrs1 & Hrs2).
  unfold requeue_empty. rewrite (deref_Some _ _ rs) by done. simpl.
  rewrite Hrs1, last_or_app.
  destruct (snoc_cases P1) as [->|(P1' & sp & ->)]; simpl.
  - assert ((if decide (last_or 0 E = 0) then Some false
             else p ← deref st (last_or 0 E); Some (negb (empty st p)))
            = Some false) as ->.
    { case_decide as Hz; [done|].
      assert (last_or 0 E ∈ E) as Hin.
      { apply last_or_elem. intros ->. by apply Hz. }
      destruct (is_empty_deref st (last_or 0 E)) as (r & -> & Hr).
      - apply Hnz. set_solver.
      - apply Hmap. set_solver.
      - simpl. rewrite (proj2 Hr); [done|].
        rewrite Forall_forall in HE. by apply HE. }
    simpl. exists st. split; [done|]. split; [apply same_data_refl|].
    split; [done|]. by intros [].
  - rewrite last_or_snoc.
    assert (sp ≠ 0) as Hsp0 by (apply Hnz; set_solver).
    rewrite (decide_False (P := sp = 0)) by done.
    destruct (is_empty_deref st sp) as (rp & -> & Hrp);
      [done|apply Hmap; set_solver|].
    rewrite Forall_app, Forall_singleton in HP1.
    destruct HP1 as [HP1 (v & Hv & Hvr)].
    assert (empty st rp = false) as Hne.
    { apply not_true_is_false. rewrite Hrp. unfold is_empty.
      rewrite Hv. intros [= ->]. lia. }
    simpl. rewrite Hne. simpl.
    set (st1 := if decide (a = cache_curr st) then set_curr st sp else st).
    assert (mem_slabs st1 = mem_slabs st ∧ cache_head st1 = cache_head st ∧
            same_data st st1 ∧
            cache_curr st1 = (if decide (a = cache_curr st) then sp
                              else cache_curr st))
      as (Hm1 & Hh1 & Hsd1 & Hc1).
    { unfold st1. case_decide; simpl.
      - split; [done|]. split; [done|]. split; [|done].
        apply same_data_set_curr.
      - split; [done|]. split; [done|]. split; [|done].
        apply same_data_refl. }
    clearbody st1.
    rewrite <- !app_assoc in Hnd, Hlk, Hhd. simpl in Hnd, Hlk, Hhd.
    rewrite app_assoc in Hnd, Hlk. rewrite <- Hm1 in Hlk.
    destruct (dequeue_spec st1 _ sp a R Hnd Hlk)
      as (st2 & -> & Hlk2 & Hla2 & Hsd2 & Hc2 & Hh2).
    simpl. rewrite <- app_assoc in Hlk2, Hnd.
    assert (is_Some (mem_slabs st2 !! a)) as Hma.
    { rewrite <- lnk_is_Some, Hla2, lnk_is_Some, Hm1. eauto. }
    destruct (E ++ P1' ++ sp :: R) as [|h0 rest] eqn:HF;
      [by destruct E, P1'|].
    assert (hd 0 (E ++ P1' ++ sp :: a :: R) = h0) as Hh0.
    { destruct E; simpl in *; [destruct P1'; simpl in *|]; congruence. }
    destruct (enqueue_as_head_spec st2 a h0 rest)
      as (st3 & -> & Hlk3 & Hsd3 & Hc3 & Hh3).
    + congruence.
    + rewrite <- HF. by_nodup Hnd.
    + done.
    + done.
    + done.
    + exists st3. split; [done|]. split; [|split].
      * eapply same_data_trans; [done|]. by eapply same_data_trans.
      * intros Hnil. by destruct P1'.
      * intros _. split; [|by rewrite Hc3, Hc2, Hc1, last_or_snoc].
        split.
        -- by_nodup Hnd.
        -- done.
        -- rewrite <- !app_assoc. simpl. by rewrite HF.
        -- intros b Hb.
           apply (same_data_dom st) in Hb.
           ++ apply Hdom in Hb. set_solver.
           ++ eapply same_data_trans; [done|]. by eapply same_data_trans.
Qed.

Lemma frame_same st st1 st2 a :
  frame st st1 a → same_data st1 st2 → frame st st2 a.
Proof.
  intros [He Hf] Hsd. pose proof Hsd as (_ & _ & He' & _).
  split; [congruence|]. intros b Hb.
  rewrite (avail_at_same st1) by done. by apply Hf.
Qed.

(** [Slab_cache::free] of a live pointer succeeds and keeps the
    invariant; the slab list is permuted at most. *)
Lemma free_inv s l p :
  Inv s l → p ∈ live s →
  ∃ st' l', Slab_cache_free (cache s) p = Some st' ∧
    Inv (mkSys st' (remove_first p (live s)) (n_allocs s) (S (n_frees s))) l' ∧
    l' ≡ₚ l ∧ pages_used st' = pages_used (cache s) ∧
    (∃ v, dat (mem_slabs st') (page_base p) =
            Some (v, p + cache_size (cache s))) ∧
    (is_full (cache s) (page_base p) → cache_curr st' = page_base p).
Proof.
  intros [HS HD Hord Hlen Hcnt] Hp.
  set (st := cache s) in *. set (a := page_base p).
  pose proof (s_nodup _ _ HS) as Hnd.
  destruct (Slab_free_data st _ l p HD Hnd Hp)
    as (v & st1 & Ha & Hbuf & Hv & Hvr & Hfree & HD1 & Hfr & Hdat1 & Hsl & Hpg).
  fold a in Ha, Hbuf, Hv, Hfree, Hfr, Hdat1.
  pose proof (Shape_same _ _ _ Hsl HS) as HS1.
  pose proof Hsl as (Hc1 & Hh1 & Hl1).
  pose proof Hfr as [He1 Hf1].
  pose proof (d_cfg _ _ _ HD) as (_ & _ & Hel & _).
  assert (a ≠ 0) as Ha0 by by eapply Shape_nonnull.
  pose proof Hv as Hv'. apply avail_at_Some in Hv' as (rs & Hrs & Hrsv).
  assert (avail_at st1 a = Some (v + 1)) as Hv1
    by (unfold avail_at; by rewrite Hdat1).
  pose proof Hv1 as Hv1'. apply avail_at_Some in Hv1' as (rs1 & Hrs1 & Hrsv1).
  assert (length (live s) = S (length (remove_first p (live s)))) as Hlive
    by (by rewrite remove_first_length).
  unfold Slab_cache_free. fold a st.
  rewrite (deref_Some _ _ rs) by done. simpl. rewrite Hfree. simpl.
  unfold full. rewrite Hrsv.
  destruct (decide (v = 0)) as [->|Hv0].
  - (* the slab was FULL *)
    rewrite bool_decide_eq_true_2 by done.
    destruct (free_full_order st l a Hel Hnd Hord Ha Hv)
      as (N & F1 & F2 & Hl & Hcur & HF1 & HN & Hk).
    rewrite Hl in Hnd.
    destruct (requeue_full_spec st1 l a N F1 F2)
      as (st2 & Hrq & HS2 & Hsd2 & Hc2); [done|done|congruence| | |].
    { eapply is_full_frame; [done| |done]. by_nodup Hnd. }
    { intros b Hb. unfold is_full. rewrite Hf1; [by apply HN|].
      by_nodup Hnd. }
    assert (N ++ a :: F1 ++ F2 ≡ₚ l) as Hperm
      by (rewrite Hl; solve_Permutation).
    exists st2, (N ++ a :: F1 ++ F2). split; [done|].
    pose proof Hsd2 as (Hs2 & _ & _ & _ & Hp2 & Hd2).
    split; [|split; [done|split; [congruence|split; [|done]]]].
    + split; simpl.
      * done.
      * eapply Data_same; [done| |done]. by symmetry.
      * apply Hk; [by eapply frame_same| |done].
        by rewrite (avail_at_same st1).
      * rewrite (Permutation_length Hperm). congruence.
      * lia.
    + rewrite Hd2, Hdat1. eauto.
  - (* the slab was PARTIAL *)
    rewrite bool_decide_eq_false_2 by done.
    rewrite (deref_Some _ _ rs1) by done. simpl.
    unfold empty. rewrite Hrsv1, He1.
    destruct (free_partial_order st l a v Hnd Hord Ha Hv ltac:(lia))
      as (E & P1 & R & Hl & HE & HP1 & Hk1 & Hk2).
    assert (is_full st a → cache_curr st1 = a) as Hnotfull.
    { unfold is_full. rewrite Hv. intros [= ->]. done. }
    destruct (decide (v + 1 = cache_elem st)) as [Hfull|Hpart].
    + rewrite bool_decide_eq_true_2 by done.
      rewrite Hl in Hnd.
      destruct (requeue_empty_spec st1 l a E P1 R)
        as (st2 & Hrq & Hsd2 & Hnil & Hcons); [done|done| | |].
      { eapply is_empty_frame; [done| |done]. by_nodup Hnd. }
      { eapply is_partial_frame; [done| |done]. by_nodup Hnd. }
      pose proof Hsd2 as (Hs2 & _ & _ & _ & Hp2 & Hd2).
      destruct (decide (P1 = [])) as [HP|HP].
      * specialize (Hnil HP). subst st2.
        exists st1, l. split; [done|].
        split; [|split; [done|split; [done|split; [|done]]]].
        -- split; simpl; [done|done| |congruence|lia].
           apply Hk1; [done|done|by right|done].
        -- rewrite Hdat1. eauto.
      * destruct (Hcons HP) as [HS2 Hc2].
        assert (a :: E ++ P1 ++ R ≡ₚ l) as Hperm
          by (rewrite Hl; solve_Permutation).
        exists st2, (a :: E ++ P1 ++ R). split; [done|].
        split; [|split; [done|split; [congruence|split]]].
        -- split; simpl.
           ++ done.
           ++ eapply Data_same; [done| |done]. by symmetry.
           ++ apply Hk2; [by eapply frame_same| |done|done|].
              ** by rewrite (avail_at_same st1).
              ** by rewrite Hc2, Hc1.
           ++ pose proof (Permutation_length Hperm) as Hpl.
              simpl in Hpl. congruence.
           ++ lia.
        -- rewrite Hd2, Hdat1. eauto.
        -- unfold is_full. rewrite Hv. intros [= ->]. done.
    + rewrite bool_decide_eq_false_2 by done.
      exists st1, l. split; [done|].
      split; [|split; [done|split; [done|split; [|done]]]].
      * split; simpl; [done|done| |congruence|lia].
        apply Hk1; [done|done|left; lia|done].
      * rewrite Hdat1. eauto.
Qed.

Lemma grow_cfg st st1 :
  grow st = Some st1 →
  cache_size st1 = cache_size st ∧ cache_buff st1 = cache_buff st ∧
  cache_elem st1 = cache_elem st.
Proof.
  unfold grow, write_prev, write_next. intros H.
  repeat (case_decide || simplify_option_eq); done.
Qed.

Lemma ordered_curr_in st l :
  (∀ a, a ∈ l → a ≠ 0) → ordered st l → cache_curr st ≠ 0 →
  cache_curr st ∈ l.
Proof.
  intros Hnz (E & P & F & -> & _ & _ & _ & Hcur) Hc.
  rewrite app_assoc. apply elem_of_app. left. rewrite Hcur.
  apply last_or_elem. intros Hnil. rewrite Hnil in Hcur. by simpl in Hcur.
Qed.

(** [Slab_cache::alloc] succeeds in every state of the invariant and
    keeps it. *)
Lemma alloc_inv s l :
  Inv s l →
  ∃ p st' l', Slab_cache_alloc (cache s) = Some (p, st') ∧
    Inv (mkSys st' (p :: live s) (S (n_allocs s)) (n_frees s)) l' ∧
    l' = (if decide (cache_curr (cache s) = 0)
          then page_at (pages_used (cache s)) :: l else l) ∧
    is_buf (cache s) (alloc_target (cache s)) p ∧
    page_base p = alloc_target (cache s) ∧ (p ∉ live s) ∧
    pages_used st' = (if decide (cache_curr (cache s) = 0)
                      then S (pages_used (cache s))
                      else pages_used (cache s)) ∧
    (cache_curr (cache s) ≠ 0 →
     ∃ v, dat (mem_slabs (cache s)) (cache_curr (cache s)) =
            Some (v, p + cache_size (cache s))).
Proof.
  intros HI. rewrite Slab_cache_alloc_unfold. unfold alloc_target.
  destruct (decide (cache_curr (cache s) = 0)) as [Hc|Hc].
  - destruct (grow_inv s l HI Hc)
      as (st1 & Hgrow & HI1 & Hc1 & Hh1 & Hp1 & _).
    destruct (grow_cfg _ _ Hgrow) as (Hsz & Hbf & Hel).
    rewrite Hgrow. simpl.
    pose proof (page_nonnull PF (pages_used (cache s))) as Ha0.
    destruct (alloc_from_curr_inv _ _ HI1)
      as (p & st' & Halloc & HI' & Hbuf & Hplv & _ & Hpg).
    { simpl. rewrite Hc1. lia. }
    simpl in *. rewrite Hc1 in Hbuf.
    exists p, st', (page_at (pages_used (cache s)) :: l).
    split; [done|]. split; [done|]. split; [done|].
    split; [by eapply is_buf_same; [..|exact Hbuf]|].
    split; [|split; [done|split; [congruence|done]]].
    eapply (Data_buf_base st1); [apply (inv_data _ _ HI1)|left|done].
  - simpl.
    destruct (alloc_from_curr_inv _ _ HI Hc)
      as (p & st' & Halloc & HI' & Hbuf & Hplv & Hdat & Hpg).
    exists p, st', l. split; [done|]. split; [done|]. split; [done|].
    split; [done|]. split; [|done].
    eapply Data_buf_base; [apply (inv_data _ _ HI)| |done].
    apply ordered_curr_in; [|apply (inv_order _ _ HI)|done].
    intros a. by apply (Inv_nonnull s l).
Qed.

(** ** Reachable states *)

Lemma ctor_cfg elem_size elem_align :
  0 < cache_elem (Slab_cache_ctor elem_size elem_align) →
  cfg_ok (Slab_cache_ctor elem_size elem_align).
Proof.
  unfold cfg_ok. simpl.
  set (size := wrap (align_up elem_size WORD)).
  set (buff := wrap (align_up (wrap (size + WORD)) elem_align)).
  intros He.
  pose proof (word_pos PF) as HW. pose proof (slab_size PF) as HS.
  assert (0 < 2 ^ (8 * WORD)) as Hpow by (apply Z.pow_pos_nonneg; lia).
  assert (0 ≤ size) as Hsz by (apply Z.mod_pos_bound; lia).
  assert (0 ≤ buff) as Hb0 by (apply Z.mod_pos_bound; lia).
  assert (buff ≠ 0) as Hb.
  { intros Hz. rewrite Hz in He. rewrite Z.div_0_r in He. lia. }
  split; [done|]. split; [lia|]. split; [done|].
  pose proof (Z.mul_div_le (PAGE_SIZE - SLAB_SIZE) buff ltac:(lia)). lia.
Qed.

Lemma fresh_inv elem_size elem_align :
  0 < cache_elem (Slab_cache_ctor elem_size elem_align) →
  Inv (fresh elem_size elem_align) [].
Proof.
  intros He. split; simpl.
  - split; simpl; [constructor|done|done|].
    intros a [? Ha]. by rewrite lookup_empty in Ha.
  - split; simpl; [by apply ctor_cfg| | |constructor| |done].
    + by intros a ?%elem_of_nil.
    + by intros a ?%elem_of_nil.
    + by intros a ?%elem_of_nil.
  - by exists [], [], [].
  - done.
  - done.
Qed.

Lemma step_inv s l o s' :
  Inv s l → step s o = Some s' → ∃ l', Inv s' l'.
Proof.
  intros HI Hstep. destruct o as [|p]; simpl in Hstep.
  - destruct (alloc_inv s l HI) as (p & st' & l' & Ha & HI' & _).
    rewrite Ha in Hstep. simpl in Hstep. injection Hstep as <-. eauto.
  - case_decide as Hp; [|done].
    destruct (free_inv s l p HI Hp) as (st' & l' & Hf & HI' & _).
    rewrite Hf in Hstep. simpl in Hstep. injection Hstep as <-. eauto.
Qed.

Lemma run_inv s l ops s' :
  Inv s l → run s ops = Some s' → ∃ l', Inv s' l'.
Proof.
  revert s l. induction ops as [|o ops IH]; intros s l HI Hrun; simpl in Hrun.
  - injection Hrun as <-. eauto.
  - destruct (step s o) as [s1|] eqn:Hstep; [|done]. simpl in Hrun.
    destruct (step_inv _ _ _ _ HI Hstep) as (l1 & HI1). eauto.
Qed.

(** A cache whose slabs hold no buffer at all cannot allocate: the first
    [alloc] stops at the assertion on [curr]. *)
Lemma alloc_no_capacity elem_size elem_align :
  cache_elem (Slab_cache_ctor elem_size elem_align) = 0 →
  Slab_cache_alloc (Slab_cache_ctor elem_size elem_align) = None.
Proof.
  intros He. pose proof (page_nonnull PF O) as Hp.
  set (st := Slab_cache_ctor elem_size elem_align) in *.
  assert (cache_curr st = 0) as Hc by done.
  assert (cache_head st = 0) as Hh by done.
  assert (pages_used st = O) as Hpg by done.
  clearbody st.
  unfold Slab_cache_alloc, grow, write_next, Slab_ctor.
  rewrite Hc, Hpg. simpl. rewrite Hh, He. simpl.
  erewrite deref_Some; [|lia|simpl; apply lookup_insert_eq].
  simpl.
  erewrite deref_Some; [|lia|simpl; apply lookup_insert_eq].
  done.
Qed.

(** The states a run from a fresh cache can reach: the fresh cache itself,
    or a state of the invariant. *)
Lemma reach_cases elem_size elem_align ops s :
  run (fresh elem_size elem_align) ops = Some s →
  (s = fresh elem_size elem_align ∧
   cache_elem (Slab_cache_ctor elem_size elem_align) = 0) ∨
  (0 < cache_elem (Slab_cache_ctor elem_size elem_align) ∧ ∃ l, Inv s l).
Proof.
  intros Hrun.
  destruct (decide (0 < cache_elem (Slab_cache_ctor elem_size elem_align)))
    as [He|He].
  - right. split; [done|]. eapply run_inv; [by apply fresh_inv|done].
  - left. assert (cache_elem (Slab_cache_ctor elem_size elem_align) = 0) as H0.
    { simpl in *. pose proof (slab_size PF). pose proof (word_pos PF).
      assert (0 < 2 ^ (8 * WORD)) as Hpow by (apply Z.pow_pos_nonneg; lia).
      set (buff := wrap _) in *.
      assert (0 ≤ buff) as Hb0 by (apply Z.mod_pos_bound; lia).
      pose proof (Z.div_pos (PAGE_SIZE - SLAB_SIZE) buff).
      destruct (decide (buff = 0)) as [->|?]; [by rewrite Z.div_0_r|lia]. }
    split; [|done].
    destruct ops as [|[|p] ops]; simpl in Hrun.
    + by injection Hrun.
    + by rewrite alloc_no_capacity in Hrun.
    + done.
Qed.

(** ** The traversal of [print_stats] *)

Lemma walk_linked st p l fuel :
  linked (mem_slabs st) p l 0 → (length l ≤ fuel)%nat →
  walk fuel st (hd 0 l) = Some l.
Proof.
  revert p fuel. induction l as [|a l IH]; intros p fuel Hl Hlen.
  - by destruct fuel.
  - simpl in Hl. destruct Hl as [[Ha0 Hla] Hl].
    apply lnk_Some in Hla as (r & Hr & _ & Hrn).
    destruct fuel as [|fuel]; simpl in Hlen; [lia|].
    simpl. rewrite decide_False by done.
    rewrite (deref_Some _ _ r) by done. simpl.
    rewrite Hrn, (IH a) by (done || lia). done.
Qed.

Lemma stats_loop_linked st p l fuel n o :
  linked (mem_slabs st) p l 0 → (length l ≤ fuel)%nat →
  stats_loop fuel st (hd 0 l) (wrap n, wrap o) =
  Some (wrap (n + Z.of_nat (length l)), wrap (o + used st l)).
Proof.
  revert p fuel n o. induction l as [|a l IH]; intros p fuel n o Hl Hlen.
  - destruct fuel; simpl; by rewrite !Z.add_0_r.
  - simpl in Hl. destruct Hl as [[Ha0 Hla] Hl].
    apply lnk_Some in Hla as (r & Hr & _ & Hrn).
    destruct fuel as [|fuel]; simpl in Hlen; [lia|].
    simpl stats_loop. rewrite decide_False by done.
    rewrite (deref_Some _ _ r) by done. simpl.
    assert (wrap (wrap n + 1) = wrap (n + 1)) as ->
      by (unfold wrap; by rewrite Zplus_mod_idemp_l).
    assert (wrap (wrap o + wrap (cache_elem st - slab_avail r)) =
            wrap (o + (cache_elem st - slab_avail r))) as ->
      by (unfold wrap; by rewrite <- Zplus_mod).
    rewrite Hrn, (IH a) by (done || lia).
    unfold avail_at, dat. rewrite Hr. simpl.
    do 3 f_equal; lia.
Qed.

Lemma Inv_slab_list s l : Inv s l → slab_list (cache s) = Some l.
Proof.
  intros [[_ Hhd Hlk _] _ _ Hlen _]. unfold slab_list.
  rewrite Hhd. eapply walk_linked; [done|lia].
Qed.

Lemma run_counts s ops s' :
  run s ops = Some s' →
  n_allocs s' = (n_allocs s + count_allocs ops)%nat ∧
  n_frees s' = (n_frees s + count_frees ops)%nat.
Proof.
  revert s. induction ops as [|o ops IH]; intros s Hrun; simpl in Hrun.
  - injection Hrun as <-. simpl. lia.
  - destruct (step s o) as [s1|] eqn:Hstep; [|done]. simpl in Hrun.
    destruct (IH _ Hrun) as [Ha Hf]. rewrite Ha, Hf.
    destruct o as [|p]; simpl in Hstep.
    + destruct (Slab_cache_alloc (cache s)) as [[q c]|]; [|done].
      simpl in Hstep. injection Hstep as <-. simpl. lia.
    + case_decide; [|done].
      destruct (Slab_cache_free (cache s) p) as [c|]; [|done].
      simpl in Hstep. injection Hstep as <-. simpl. lia.
Qed.

(** Around [curr]: the slabs up to [curr] are not FULL, the slabs behind
    it are FULL. *)
Lemma curr_neighbours s l :
  Inv s l → cache_curr (cache s) ≠ 0 →
  ∃ N F, l = N ++ cache_curr (cache s) :: F ∧
    (∀ b, b ∈ N ++ [cache_curr (cache s)] → ¬ is_full (cache s) b) ∧
    Forall (is_full (cache s)) F.
Proof.
  intros HI Hc. pose proof (d_cfg _ _ _ (inv_data _ _ HI)) as (_ & _ & He & _).
  destruct (inv_order _ _ HI) as (E & P & F & -> & HE & HP & HF & Hcur).
  destruct (snoc_cases (E ++ P)) as [Hnil|(N & c & HN)].
  { rewrite Hnil in Hcur. done. }
  rewrite HN, last_or_snoc in Hcur. subst c.
  exists N, F. rewrite app_assoc, HN, <- app_assoc. split; [done|].
  split; [|done]. rewrite <- HN.
  intros b [Hb|Hb]%elem_of_app Hbf; unfold is_full in Hbf.
  - rewrite Forall_forall in HE. apply HE in Hb.
    unfold is_empty in Hb. rewrite Hb in Hbf. injection Hbf. lia.
  - rewrite Forall_forall in HP. apply HP in Hb as (v & Hv & Hvr).
    rewrite Hv in Hbf. injection Hbf. lia.
Qed.

Lemma not_full_deref st a :
  a ≠ 0 → is_Some (mem_slabs st !! a) → ¬ is_full st a →
  ∃ r, deref st a = Some r ∧ full r = false.
Proof.
  intros Ha Hm Hnf. destruct (is_full_deref st a Ha Hm) as (r & Hr & Hiff).
  exists r. split; [done|]. apply not_true_is_false. by rewrite Hiff.
Qed.

(** ** The claims *)

(** C1, as amended: after every allocate and release call, if [curr] is
    non-null the slab it designates is not FULL, and its neighbour on the
    side away from [head] (its [next]), if any, is FULL.  Its neighbour on
    the side of [head] (its [prev]), if any, is not FULL. *)
Theorem cursor_invariant elem_size elem_align ops s :
  run (fresh elem_size elem_align) ops = Some s →
  cache_curr (cache s) ≠ 0 →
  ∃ c, deref (cache s) (cache_curr (cache s)) = Some c ∧ full c = false ∧
    (slab_next c ≠ 0 →
     ∃ n, deref (cache s) (slab_next c) = Some n ∧ full n = true) ∧
    (slab_prev c ≠ 0 →
     ∃ q, deref (cache s) (slab_prev c) = Some q ∧ full q = false).
Proof.
  intros Hrun Hc.
  destruct (reach_cases _ _ _ _ Hrun) as [[-> _]|(_ & l & HI)]; [done|].
  destruct (curr_neighbours _ _ HI Hc) as (N & F & Hl & HN & HF).
  pose proof (inv_shape _ _ HI) as HS.
  pose proof (λ b, Shape_nonnull _ _ b HS) as Hnz.
  pose proof (λ b, Shape_mapped _ _ b HS) as Hmap.
  pose proof (s_linked _ _ HS) as Hlk. rewrite Hl in Hlk.
  apply linked_lookup in Hlk as [_ Hlc].
  destruct (not_full_deref (cache s) (cache_curr (cache s)))
    as (c & Hdc & Hfc); [done|apply Hmap; rewrite Hl; set_solver| |].
  { apply HN. set_solver. }
  exists c. split; [done|]. split; [done|].
  apply deref_inv in Hdc as [_ Hdc]. unfold lnk in Hlc. rewrite Hdc in Hlc.
  simpl in Hlc. injection Hlc as Hp Hn. rewrite Hp, Hn. split.
  - intros Hnext. destruct F as [|f F']; [done|]. simpl in *.
    apply Forall_cons in HF as [Hf _].
    destruct (is_full_deref (cache s) f) as (r & Hr & Hiff).
    + apply Hnz. rewrite Hl. set_solver.
    + apply Hmap. rewrite Hl. set_solver.
    + exists r. split; [done|]. by apply Hiff.
  - intros Hprev.
    assert (last_or 0 N ∈ N) as Hin.
    { apply last_or_elem. intros ->. by apply Hprev. }
    apply not_full_deref.
    + done.
    + apply Hmap. rewrite Hl. set_solver.
    + apply HN. set_solver.
Qed.

(** C2: at every point of a sequence of allocate and release calls on a
    fresh cache, the sum over the slabs of the cache of
    [elem - avail] is the number of allocate calls minus the number of
    release calls; [print_stats] reports it (modulo the word width). *)
Theorem conservation elem_size elem_align ops s :
  run (fresh elem_size elem_align) ops = Some s →
  ∃ l, slab_list (cache s) = Some l ∧
    used (cache s) l =
      Z.of_nat (count_allocs ops) - Z.of_nat (count_frees ops) ∧
    print_stats (pages_used (cache s)) (cache s) =
      Some (wrap (Z.of_nat (length l)),
            wrap (Z.of_nat (count_allocs ops) - Z.of_nat (count_frees ops))).
Proof.
  intros Hrun. destruct (run_counts _ _ _ Hrun) as [Hna Hnf]. simpl in *.
  destruct (reach_cases _ _ _ _ Hrun) as [[-> _]|(_ & l & HI)].
  - exists []. simpl in *. rewrite <- Hna, <- Hnf. done.
  - exists l. split; [by apply Inv_slab_list|].
    pose proof (d_used _ _ _ (inv_data _ _ HI)) as Hu.
    pose proof (inv_count _ _ HI) as Hcnt.
    assert (used (cache s) l =
            Z.of_nat (count_allocs ops) - Z.of_nat (count_frees ops)) as Hsum
      by lia.
    split; [done|]. unfold print_stats.
    rewrite (s_head _ _ (inv_shape _ _ HI)).
    pose proof (stats_loop_linked (cache s) 0 l (pages_used (cache s)) 0 0
                  (s_linked _ _ (inv_shape _ _ HI))) as Hst.
    unfold wrap in Hst at 1 2. rewrite Zmod_0_l in Hst.
    rewrite Hst by (rewrite (inv_len _ _ HI); lia).
    by rewrite Hsum.
Qed.

(** C4: in every reachable state the EMPTY slabs are a prefix of the slab
    list, and no FULL slab stands ahead of an EMPTY one. *)
Theorem empty_prefix elem_size elem_align ops s :
  run (fresh elem_size elem_align) ops = Some s →
  ∃ l, slab_list (cache s) = Some l ∧
    (∃ E R, l = E ++ R ∧ Forall (is_empty (cache s)) E ∧
            Forall (λ a, ¬ is_empty (cache s) a) R) ∧
    (∀ (i j : nat) f e, (i < j)%nat → l !! i = Some f → l !! j = Some e →
       is_full (cache s) f → ¬ is_empty (cache s) e).
Proof.
  intros Hrun.
  destruct (reach_cases _ _ _ _ Hrun) as [[-> _]|(_ & l & HI)].
  - exists []. split; [done|]. split; [by exists [], []|].
    intros i j f e _ Hf. by rewrite lookup_nil in Hf.
  - exists l. split; [by apply Inv_slab_list|].
    pose proof (d_cfg _ _ _ (inv_data _ _ HI)) as (_ & _ & He & _).
    destruct (inv_order _ _ HI) as (E & P & F & -> & HE & HP & HF & _).
    assert (Forall (λ a, ¬ is_empty (cache s) a) (P ++ F)) as HR.
    { apply Forall_app. split.
      - eapply Forall_impl; [done|]. intros a (v & Hv & Hvr) Hem.
        unfold is_empty in Hem. rewrite Hv in Hem. injection Hem. lia.
      - eapply Forall_impl; [done|]. intros a Hf Hem.
        unfold is_empty, is_full in *. rewrite Hf in Hem. injection Hem. lia. }
    split; [by exists E, (P ++ F)|].
    intros i j f e Hij Hi Hj Hf Hem.
    assert (j < length E)%nat as HjE.
    { destruct (decide (j < length E)%nat) as [|Hge]; [done|].
      rewrite lookup_app_r in Hj by lia.
      apply list_elem_of_lookup_2 in Hj.
      rewrite Forall_forall in HR. by apply HR in Hj. }
    rewrite lookup_app_l in Hi by lia.
    apply list_elem_of_lookup_2 in Hi.
    rewrite Forall_forall in HE. apply HE in Hi.
    unfold is_empty, is_full in *. rewrite Hi in Hf. injection Hf. lia.
Qed.

(** C9: at every point of a valid sequence of allocate and release calls,
    the live pointers are pairwise distinct. *)
Theorem live_distinct elem_size elem_align ops s :
  run (fresh elem_size elem_align) ops = Some s → NoDup (live s).
Proof.
  intros Hrun.
  destruct (reach_cases _ _ _ _ Hrun) as [[-> _]|(_ & l & HI)].
  - constructor.
  - apply (d_nodup _ _ _ (inv_data _ _ HI)).
Qed.

Lemma same_cfg_trans st1 st2 st3 :
  same_cfg st1 st2 → same_cfg st2 st3 → same_cfg st1 st3.
Proof. intros (?&?&?) (?&?&?). repeat split; congruence. Qed.

Lemma write_prev_cfg st a v st' : write_prev st a v = Some st' → same_cfg st st'.
Proof.
  unfold write_prev. destruct (deref st a); [|done].
  simpl. by intros [= <-].
Qed.

Lemma write_next_cfg st a v st' : write_next st a v = Some st' → same_cfg st st'.
Proof.
  unfold write_next. destruct (deref st a); [|done].
  simpl. by intros [= <-].
Qed.

Lemma dequeue_cfg st a st' : dequeue st a = Some st' → same_cfg st st'.
Proof.
  unfold dequeue. intros H.
  destruct (deref st a) as [r|]; [|done]. simpl in H.
  destruct (write_next st _ _) as [st1|] eqn:H1; [|done]. simpl in H.
  apply write_next_cfg in H1.
  destruct (deref st1 a) as [r1|]; [|done]. simpl in H.
  case_decide; [by injection H as <-|].
  apply write_prev_cfg in H. by eapply same_cfg_trans.
Qed.

Lemma enqueue_as_head_cfg st a st' :
  enqueue_as_head st a = Some st' → same_cfg st st'.
Proof.
  unfold enqueue_as_head. intros H.
  destruct (write_prev st a 0) as [st1|] eqn:H1; [|done]. simpl in H.
  destruct (write_next st1 _ _) as [st2|] eqn:H2; [|done]. simpl in H.
  destruct (write_prev st2 _ _) as [st3|] eqn:H3; [|done]. simpl in H.
  injection H as <-.
  apply write_prev_cfg in H1, H3. apply write_next_cfg in H2.
  destruct H1 as (?&?&?), H2 as (?&?&?), H3 as (?&?&?).
  repeat split; simpl; congruence.
Qed.

Lemma enqueue_after_curr_cfg st a st' :
  enqueue_after_curr st a = Some st' → same_cfg st st'.
Proof.
  unfold enqueue_after_curr. intros H.
  destruct (write_prev st a _) as [st1|] eqn:H1; [|done]. simpl in H.
  destruct (deref st1 _) as [c|]; [|done]. simpl in H.
  destruct (write_next st1 _ _) as [st2|] eqn:H2; [|done]. simpl in H.
  destruct (deref st2 _) as [c2|]; [|done]. simpl in H.
  destruct (write_prev st2 _ _) as [st3|] eqn:H3; [|done]. simpl in H.
  apply write_prev_cfg in H1, H3. apply write_next_cfg in H2, H.
  destruct H1 as (?&?&?), H2 as (?&?&?), H3 as (?&?&?), H as (?&?&?).
  repeat split; congruence.
Qed.

Lemma requeue_full_cfg st a st' : requeue_full st a = Some st' → same_cfg st st'.
Proof.
  unfold requeue_full. intros H.
  destruct (deref st a) as [r|]; [|done]. simpl in H.
  destruct (if decide (slab_prev r = 0) then _ else _) as [[|]|];
    simpl in H; [| |done].
  - destruct (dequeue st a) as [st1|] eqn:H1; [|done]. simpl in H.
    apply dequeue_cfg in H1.
    destruct (if decide (cache_curr st1 = 0) then _ else _) as [st2|] eqn:H2;
      [|done].
    simpl in H. injection H as <-.
    assert (same_cfg st1 st2) as H2'.
    { case_decide; [by eapply enqueue_as_head_cfg|
                    by eapply enqueue_after_curr_cfg]. }
    destruct H1 as (?&?&?), H2' as (?&?&?). repeat split; simpl; congruence.
  - by injection H as <-.
Qed.

Lemma requeue_empty_cfg st a st' :
  requeue_empty st a = Some st' → same_cfg st st'.
Proof.
  unfold requeue_empty. intros H.
  destruct (deref st a) as [r|]; [|done]. simpl in H.
  destruct (if decide (slab_prev r = 0) then _ else _) as [[|]|];
    simpl in H; [| |done].
  - destruct (dequeue _ a) as [st1|] eqn:H1; [|done]. simpl in H.
    apply dequeue_cfg in H1. apply enqueue_as_head_cfg in H.
    destruct H1 as (?&?&?), H as (?&?&?).
    case_decide; simpl in *; repeat split; congruence.
  - by injection H as <-.
Qed.

Lemma Slab_free_cfg st a p st' : Slab_free st a p = Some st' → same_cfg st st'.
Proof.
  unfold Slab_free, store. intros H.
  destruct (deref st a) as [r|]; [|done]. simpl in H.
  case_decide; [done|]. simpl in H. by injection H as <-.
Qed.

Lemma Slab_cache_free_cfg st p st' :
  Slab_cache_free st p = Some st' → same_cfg st st'.
Proof.
  unfold Slab_cache_free. intros H.
  destruct (deref st _) as [r|]; [|done]. simpl in H.
  destruct (Slab_free st _ p) as [st1|] eqn:H1; [|done]. simpl in H.
  apply Slab_free_cfg in H1.
  destruct (full r).
  - apply requeue_full_cfg in H. by eapply same_cfg_trans.
  - destruct (deref st1 _) as [r1|]; [|done]. simpl in H.
    destruct (empty st1 r1).
    + apply requeue_empty_cfg in H. by eapply same_cfg_trans.
    + by injection H as <-.
Qed.

(** C3, as amended: after [free (p)] of a live pointer, the very next
    [alloc] returns [p] exactly when the slab of [p] is [curr] after the
    release; this is the case whenever that slab was FULL before the
    release. *)
Theorem lifo_reuse elem_size elem_align ops s p :
  run (fresh elem_size elem_align) ops = Some s → p ∈ live s →
  ∃ st' q st'',
    Slab_cache_free (cache s) p = Some st' ∧
    Slab_cache_alloc st' = Some (q, st'') ∧
    (q = p ↔ cache_curr st' = page_base p) ∧
    (∀ r, deref (cache s) (page_base p) = Some r → full r = true → q = p).
Proof.
  intros Hrun Hp.
  destruct (reach_cases _ _ _ _ Hrun) as [[-> _]|(_ & l & HI)];
    [by apply elem_of_nil in Hp|].
  destruct (free_inv s l p HI Hp)
    as (st' & l' & Hfree & HI' & Hperm & Hpg & [v Hdat] & Hfull).
  destruct (alloc_inv _ _ HI')
    as (q & st'' & l'' & Halloc & _ & _ & _ & Hbase & _ & _ & Hhead).
  simpl in *.
  assert (page_base p ∈ l') as Hin.
  { apply (s_dom _ _ (inv_shape _ _ HI')). simpl.
    apply dat_is_Some. by rewrite Hdat. }
  assert (cache_curr st' = page_base p → q = p) as Hcur.
  { intros Hc.
    destruct Hhead as [w Hw].
    { rewrite Hc. by apply (Inv_nonnull _ _ _ HI'). }
    rewrite Hc, Hdat in Hw. injection Hw as _ Hw.
    destruct (Slab_cache_free_cfg _ _ _ Hfree) as (Hsz & _). lia. }
  exists st', q, st''. split; [done|]. split; [done|]. split; [split|].
  - intros ->. unfold alloc_target in Hbase.
    case_decide as Hc; [|done]. exfalso.
    apply (fresh_page _ _ _ (inv_data _ _ HI')). simpl. by rewrite <- Hbase.
  - done.
  - intros r Hr Hrf. apply Hcur, Hfull.
    apply deref_inv in Hr as [Ha0 Hr].
    destruct (is_full_deref (cache s) (page_base p) Ha0) as (r' & Hr' & Hiff);
      [eauto|].
    apply deref_inv in Hr' as [_ Hr']. rewrite Hr in Hr'.
    injection Hr' as <-. by apply Hiff.
Qed.

(** C5: every pointer returned by the [alloc] of a slab lies in the page
    of that slab, so its page base is the address of the slab; the slab
    [Slab_cache::free] recovers from a pointer is the slab
    [Slab_cache::alloc] took it from, and for a live pointer it is a slab
    of the cache that owns this buffer. *)
Theorem owner_recovery elem_size elem_align ops s :
  run (fresh elem_size elem_align) ops = Some s →
  (∀ a p st', Slab_alloc (cache s) a = Some (p, st') →
     a ≤ p ∧ p + cache_buff (cache s) ≤ a + PAGE_SIZE ∧ page_base p = a) ∧
  (∀ p st', Slab_cache_alloc (cache s) = Some (p, st') →
     ∃ st1 st2,
       (if decide (cache_curr (cache s) = 0) then grow (cache s)
        else Some (cache s)) = Some st1 ∧
       Slab_alloc st1 (cache_curr st1) = Some (p, st2) ∧
       page_base p = cache_curr st1) ∧
  (∀ p, p ∈ live s →
     is_Some (deref (cache s) (page_base p)) ∧
     is_buf (cache s) (page_base p) p).
Proof.
  intros Hrun.
  destruct (reach_cases _ _ _ _ Hrun) as [[-> He]|(_ & l & HI)].
  - split; [|split].
    + intros a p st' H. unfold Slab_alloc, deref in H. simpl in H.
      case_decide; [done|]. by rewrite lookup_empty in H.
    + intros p st' H. simpl in H. by rewrite alloc_no_capacity in H.
    + by intros p ?%elem_of_nil.
  - pose proof (inv_data _ _ HI) as HD. pose proof (inv_shape _ _ HI) as HS.
    pose proof (d_cfg _ _ _ HD) as Hcfg.
    split; [|split].
    + intros a p st' Halloc. unfold Slab_alloc in Halloc.
      destruct (deref (cache s) a) as [r|] eqn:Hr; [|done].
      simpl in Halloc. apply deref_inv in Hr as [Ha0 Hr].
      assert (a ∈ l) as Ha by (apply (s_dom _ _ HS); eauto).
      destruct (d_slabs _ _ _ HD a Ha) as (fl & h & Hdat & Hch & _ & Hfl).
      unfold dat in Hdat. rewrite Hr in Hdat. simpl in Hdat.
      injection Hdat as _ <-.
      unfold load in Halloc. case_decide as Hh; [done|].
      destruct fl as [|p' fl]; [done|]. destruct Hch as (Hp' & _).
      destruct (mem_links (cache s) !! slab_head r); [|done].
      simpl in Halloc. injection Halloc as <- _.
      assert (is_buf (cache s) a p') as Hbuf by (apply Hfl; left).
      rewrite Hp'. replace (p' + cache_size (cache s) - cache_size (cache s))
        with p' by lia.
      destruct (is_buf_range _ _ _ Hcfg Hbuf). repeat split; [done..|].
      by eapply Data_buf_base.
    + intros p st' Halloc.
      destruct (alloc_inv _ _ HI)
        as (q & st'' & l' & Halloc' & _ & _ & _ & Hbase & _).
      rewrite Halloc in Halloc'. injection Halloc' as <- <-.
      rewrite Slab_cache_alloc_unfold in Halloc. unfold alloc_target in Hbase.
      destruct (decide (cache_curr (cache s) = 0)) as [Hc|Hc].
      * destruct (grow_inv _ _ HI Hc) as (st1 & Hg & _ & Hc1 & _).
        rewrite Hg in Halloc. simpl in Halloc. exists st1.
        unfold alloc_from_curr in Halloc.
        destruct (deref st1 _); [|done]. simpl in Halloc.
        destruct (assert _); [|done]. simpl in Halloc.
        destruct (if decide (slab_next _ = 0) then _ else _); [|done].
        simpl in Halloc.
        destruct (Slab_alloc st1 _) as [[q st2]|] eqn:Hsa; [|done].
        simpl in Halloc. destruct (deref st2 _); [|done]. simpl in Halloc.
        injection Halloc as <- _. exists st2.
        split; [done|]. split; [done|]. congruence.
      * simpl in Halloc. exists (cache s).
        unfold alloc_from_curr in Halloc.
        destruct (deref (cache s) _); [|done]. simpl in Halloc.
        destruct (assert _); [|done]. simpl in Halloc.
        destruct (if decide (slab_next _ = 0) then _ else _); [|done].
        simpl in Halloc.
        destruct (Slab_alloc (cache s) _) as [[q st2]|] eqn:Hsa; [|done].
        simpl in Halloc. destruct (deref st2 _); [|done]. simpl in Halloc.
        injection Halloc as <- _. exists st2. done.
    + intros p Hp. destruct (d_live _ _ _ HD p Hp) as (a & Ha & Hbuf).
      rewrite (Data_buf_base _ _ _ _ _ HD Ha Hbuf). split; [|done].
      destruct (Shape_mapped _ _ _ HS Ha) as [r Hr]. exists r.
      apply deref_Some; [|done]. by eapply Shape_nonnull.
Qed.

Lemma Slab_alloc_n_chain fl st this h :
  this ≠ 0 → Z.of_nat (length fl) < 2 ^ (8 * WORD) →
  dat (mem_slabs st) this = Some (Z.of_nat (length fl), h) →
  chain (mem_links st) (cache_size st) h fl →
  ∃ st', Slab_alloc_n (length fl) st this = Some (fl, st') ∧
    dat (mem_slabs st') this = Some (0, 0) ∧ same_cfg st st'.
Proof.
  revert st h. induction fl as [|p fl IH]; intros st h Ht Hlen Hdat Hch.
  - simpl in *. subst h. exists st. split; [done|]. split; [done|].
    by repeat split.
  - simpl in Hch. destruct Hch as (-> & Hh & nx & Hnx & Hch).
    apply dat_Some in Hdat as (r & Hr & Hr1 & Hr2).
    simpl length in *.
    assert (Slab_alloc st this =
            Some (p, put_slab st this
               (with_head (with_avail r (wrap (slab_avail r - 1))) nx)))
      as Hsa.
    { unfold Slab_alloc. rewrite (deref_Some _ _ r) by done. simpl.
      unfold load. rewrite Hr2, decide_False, Hnx by done. simpl.
      do 2 f_equal. lia. }
    destruct (IH (put_slab st this
               (with_head (with_avail r (wrap (slab_avail r - 1))) nx)) nx)
      as (st' & Hn & Hd' & Hc'); [done|lia| |done|].
    { simpl. rewrite dat_insert, decide_True by done. simpl.
      rewrite wrap_small by lia. do 2 f_equal. lia. }
    exists st'. simpl. rewrite Hsa. simpl. rewrite Hn. simpl.
    split; [done|]. split; [done|].
    destruct Hc' as (?&?&?). by repeat split.
Qed.

(** C6: a freshly constructed slab has [avail = elem] (it is EMPTY); after
    [elem] successive allocations from it with no release, [avail] is 0
    (it is FULL) and a further allocation from it is not possible: its
    free list is exhausted. *)
Theorem fresh_slab_capacity st this :
  0 ≤ cache_size st → 0 < cache_buff st → 0 ≤ cache_elem st →
  cache_elem st * cache_buff st ≤ PAGE_SIZE → 0 < this →
  let st0 := Slab_ctor st this in
  (∃ r, deref st0 this = Some r ∧ slab_avail r = cache_elem st ∧
        empty st0 r = true) ∧
  ∃ ps st',
    Slab_alloc_n (Z.to_nat (cache_elem st)) st0 this = Some (ps, st') ∧
    Z.of_nat (length ps) = cache_elem st ∧ NoDup ps ∧
    (∀ p, p ∈ ps → is_buf st this p) ∧
    (∃ r, deref st' this = Some r ∧ slab_avail r = 0 ∧ full r = true) ∧
    Slab_alloc st' this = None.
Proof.
  intros Hsz Hbf Hel Hfit Ht st0.
  set (link := this + PAGE_SIZE - cache_buff st + cache_size st).
  set (n := Z.to_nat (cache_elem st)).
  set (r0 := Slab_format (cache_buff st) n link 0 (mem_links st)).
  set (fl := format_list (cache_buff st) (cache_size st) n link []).
  assert (st0 = put_slab (set_links st r0.2) this
                  (mkSlab (cache_elem st) 0 0 r0.1)) as Hst0 by done.
  assert (length fl = n) as Hlen
    by (unfold fl; rewrite format_list_length; simpl; lia).
  assert (chain (mem_links st0) (cache_size st0) r0.1 fl) as Hch.
  { rewrite Hst0. simpl. apply Slab_format_chain; [done|done| |].
    - by intros p ?%elem_of_nil.
    - intros k Hk. unfold link. unfold n in Hk. nia. }
  assert (dat (mem_slabs st0) this = Some (Z.of_nat (length fl), r0.1)) as Hd.
  { rewrite Hst0. simpl. rewrite dat_insert, decide_True by done.
    simpl. do 2 f_equal. unfold n in Hlen. lia. }
  clearbody st0. split.
  - exists (mkSlab (cache_elem st) 0 0 r0.1). rewrite Hst0.
    split; [apply deref_Some; [lia|apply lookup_insert_eq]|].
    split; [done|]. unfold empty. simpl. by apply bool_decide_eq_true_2.
  - destruct (Slab_alloc_n_chain fl st0 this r0.1)
      as (st' & Hn & Hd' & Hc'); [lia| |done|done|].
    { pose proof (page_fits PF). unfold n in Hlen. nia. }
    rewrite Hlen in Hn. exists fl, st'. split; [done|].
    split; [unfold n in Hlen; lia|]. split; [|split; [|split]].
    + apply format_list_NoDup; [done|constructor|].
      by intros p ?%elem_of_nil.
    + intros p Hp. apply format_list_elem in Hp as [?%elem_of_nil|Hp];
        [done|].
      destruct Hp as (k & Hk & ->). exists k. unfold n in Hk, link.
      split; lia.
    + apply dat_Some in Hd' as (r & Hr & Hr1 & Hr2). exists r.
      split; [apply deref_Some; [lia|done]|]. split; [done|].
      unfold full. by apply bool_decide_eq_true_2.
    + apply dat_Some in Hd' as (r & Hr & Hr1 & Hr2).
      unfold Slab_alloc. rewrite (deref_Some _ _ r) by (done || lia).
      simpl. by rewrite Hr2.
Qed.

(** C7: in a cache whose slabs hold at least one buffer, [alloc] always
    returns; it obtains a page exactly when [curr] is null at entry, by
    [grow], which links the new slab as [head] in front of the old head
    and makes it [curr]; [free] never obtains a page. *)
Theorem grow_iff_curr_null elem_size elem_align ops s :
  0 < cache_elem (Slab_cache_ctor elem_size elem_align) →
  run (fresh elem_size elem_align) ops = Some s →
  (∃ p st', Slab_cache_alloc (cache s) = Some (p, st') ∧
     (cache_curr (cache s) = 0 ∧
        pages_used st' = S (pages_used (cache s)) ∨
      cache_curr (cache s) ≠ 0 ∧ pages_used st' = pages_used (cache s))) ∧
  (cache_curr (cache s) = 0 →
   let slab := page_at (pages_used (cache s)) in
   ∃ st1, grow (cache s) = Some st1 ∧
     pages_used st1 = S (pages_used (cache s)) ∧
     cache_head st1 = slab ∧ cache_curr st1 = slab ∧ is_empty st1 slab ∧
     lnk (mem_slabs st1) slab = Some (0, cache_head (cache s)) ∧
     (cache_head (cache s) ≠ 0 →
      ∃ n, lnk (mem_slabs st1) (cache_head (cache s)) = Some (slab, n))) ∧
  (∀ p, p ∈ live s →
   ∃ st', Slab_cache_free (cache s) p = Some st' ∧
     pages_used st' = pages_used (cache s)).
Proof.
  intros He Hrun.
  destruct (run_inv _ _ _ _ (fresh_inv _ _ He) Hrun) as (l & HI).
  split; [|split].
  - destruct (alloc_inv _ _ HI)
      as (p & st' & l' & Halloc & _ & _ & _ & _ & _ & Hpg & _).
    exists p, st'. split; [done|]. case_decide; [left|right]; done.
  - intros Hc slab.
    destruct (grow_inv _ _ HI Hc)
      as (st1 & Hg & _ & Hc1 & Hh1 & Hp1 & Hem & Hl1 & Hl2).
    exists st1. done.
  - intros p Hp.
    destruct (free_inv _ _ _ HI Hp) as (st' & l' & Hf & _ & _ & Hpg & _).
    eauto.
Qed.

Lemma align_up_spec val align :
  0 < align →
  (align | align_up val align) ∧
  val ≤ align_up val align < val + align.
Proof.
  intros Ha. unfold align_up. split.
  - apply Z.divide_factor_r.
  - pose proof (Z.div_mod (val + (align - 1)) align ltac:(lia)) as Hdm.
    pose proof (Z.mod_pos_bound (val + (align - 1)) align Ha). lia.
Qed.

(** The layout the two-map memory relies on: in a cache whose rounded
    sizes fit a word, every buffer lies in its page behind the [Slab]
    header, has room for the object and its link word, and is disjoint
    from the other buffers of the slab. *)
Lemma buffers_layout elem_size elem_align :
  0 ≤ elem_size → 0 < elem_align →
  align_up (align_up elem_size WORD + WORD) elem_align < 2 ^ (8 * WORD) →
  let st := Slab_cache_ctor elem_size elem_align in
  ∀ a p, is_buf st a p →
    a + SLAB_SIZE ≤ p ∧
    p + cache_size st + WORD ≤ p + cache_buff st ∧
    p + cache_buff st ≤ a + PAGE_SIZE ∧
    ∀ q, is_buf st a q → q ≠ p →
         p + cache_buff st ≤ q ∨ q + cache_buff st ≤ p.
Proof.
  intros Hes Hea Hfit st a p (i & Hi & ->). pose proof (word_pos PF) as HW.
  destruct (align_up_spec elem_size WORD HW) as [_ Hr1].
  destruct (align_up_spec (align_up elem_size WORD + WORD) elem_align Hea)
    as [_ Hr2].
  assert (cache_size st = align_up elem_size WORD) as Hsize.
  { unfold st. simpl. apply wrap_small. lia. }
  assert (cache_buff st = align_up (cache_size st + WORD) elem_align)
    as Hbuff.
  { rewrite Hsize. unfold st. simpl.
    rewrite (wrap_small (align_up elem_size WORD)) by lia.
    rewrite (wrap_small (align_up elem_size WORD + WORD)) by lia.
    apply wrap_small. lia. }
  assert (0 < cache_buff st) as Hb by (rewrite Hbuff, Hsize; lia).
  assert (cache_elem st * cache_buff st ≤ PAGE_SIZE - SLAB_SIZE) as Hfits.
  { pose proof (Z.mul_div_le (PAGE_SIZE - SLAB_SIZE) (cache_buff st) Hb).
    assert (cache_elem st = (PAGE_SIZE - SLAB_SIZE) / cache_buff st) as ->
      by done. lia. }
  split; [nia|]. split; [rewrite Hbuff, Hsize; lia|]. split; [nia|].
  intros q (j & Hj & ->) Hne.
  assert (i ≠ j) as Hij by (by intros ->).
  destruct (decide (i < j)); [right|left].
  - pose proof (Z.mul_nonneg_nonneg (j - i - 1) (cache_buff st)). lia.
  - pose proof (Z.mul_nonneg_nonneg (i - j - 1) (cache_buff st)). lia.
Qed.

(** C8: the constructor stores as [size] the element size rounded up to
    the word size, as [buff] that size plus one link word rounded up to
    the element alignment, and as [elem] the truncated quotient of
    [PAGE_SIZE - sizeof (Slab)] by [buff] (as long as the rounded sizes
    fit a word). *)
Theorem ctor_geometry elem_size elem_align :
  0 ≤ elem_size → 0 < elem_align →
  align_up (align_up elem_size WORD + WORD) elem_align < 2 ^ (8 * WORD) →
  let st := Slab_cache_ctor elem_size elem_align in
  (cache_size st = align_up elem_size WORD ∧
   (WORD | cache_size st) ∧ elem_size ≤ cache_size st < elem_size + WORD) ∧
  (cache_buff st = align_up (cache_size st + WORD) elem_align ∧
   (elem_align | cache_buff st) ∧
   cache_size st + WORD ≤ cache_buff st < cache_size st + WORD + elem_align) ∧
  (cache_elem st = (PAGE_SIZE - SLAB_SIZE) / cache_buff st ∧
   cache_elem st * cache_buff st ≤ PAGE_SIZE - SLAB_SIZE
     < (cache_elem st + 1) * cache_buff st).
Proof.
  intros Hes Hea Hfit st. pose proof (word_pos PF) as HW.
  destruct (align_up_spec elem_size WORD HW) as [Hd1 Hr1].
  destruct (align_up_spec (align_up elem_size WORD + WORD) elem_align Hea)
    as [Hd2 Hr2].
  assert (cache_size st = align_up elem_size WORD) as Hsize.
  { unfold st. simpl. apply wrap_small. lia. }
  assert (cache_buff st = align_up (cache_size st + WORD) elem_align)
    as Hbuff.
  { rewrite Hsize. unfold st. simpl.
    rewrite (wrap_small (align_up elem_size WORD)) by lia.
    rewrite (wrap_small (align_up elem_size WORD + WORD)) by lia.
    apply wrap_small. lia. }
  split; [|split].
  - rewrite Hsize. done.
  - rewrite Hbuff, Hsize. done.
  - assert (cache_elem st = (PAGE_SIZE - SLAB_SIZE) / cache_buff st) as Hel
      by done.
    split; [done|]. rewrite Hel.
    assert (0 < cache_buff st) as Hb by (rewrite Hbuff, Hsize; lia).
    pose proof (Z.div_mod (PAGE_SIZE - SLAB_SIZE) (cache_buff st) ltac:(lia)).
    pose proof (Z.mod_pos_bound (PAGE_SIZE - SLAB_SIZE) (cache_buff st) Hb).
    lia.
Qed.

Lemma linked_deref st p l n a :
  linked (mem_slabs st) p l n → a ∈ l → ∃ r, deref st a = Some r.
Proof.
  intros Hl Ha. destruct (linked_mapped _ _ _ _ _ Hl Ha) as [r Hr].
  exists r. apply deref_Some; [|done]. by eapply linked_nonnull.
Qed.

Lemma hd_elem (l : list Z) : l ≠ [] → hd 0 l ∈ l.
Proof. destruct l; [done|]. intros _. left. Qed.

(** C10: in every reachable state, [free] of a live pointer performs no
    null dereference.  In particular, at the splice of the FULL-to-PARTIAL
    requeue, [curr->next] is non-null when [curr] is non-null and [head]
    is non-null when [curr] is null; and [head] is non-null when the
    PARTIAL-to-EMPTY promotion links the slab as the new head. *)
Theorem free_dereferences elem_size elem_align ops s p :
  run (fresh elem_size elem_align) ops = Some s → p ∈ live s →
  let slab := page_base p in
  (∃ st', Slab_cache_free (cache s) p = Some st') ∧
  ∃ r st1 r1,
    deref (cache s) slab = Some r ∧
    Slab_free (cache s) slab p = Some st1 ∧
    deref st1 slab = Some r1 ∧
    (full r = true → slab_prev r1 ≠ 0 →
     ∀ rp, deref st1 (slab_prev r1) = Some rp → full rp = true →
     ∃ st2, dequeue st1 slab = Some st2 ∧
       (cache_curr st2 ≠ 0 → after_curr_safe st2) ∧
       (cache_curr st2 = 0 → as_head_safe st2)) ∧
    (full r = false → empty st1 r1 = true → slab_prev r1 ≠ 0 →
     ∀ rp, deref st1 (slab_prev r1) = Some rp → empty st1 rp = false →
     ∃ st2,
       dequeue (if decide (slab = cache_curr st1)
                then set_curr st1 (slab_prev r1) else st1) slab = Some st2 ∧
       as_head_safe st2).
Proof.
  intros Hrun Hp a.
  destruct (reach_cases _ _ _ _ Hrun) as [[-> _]|(_ & l & HI)];
    [by apply elem_of_nil in Hp|].
  split.
  { destruct (free_inv _ _ _ HI Hp) as (st' & _ & Hf & _). eauto. }
  destruct HI as [HS HD Hord Hlen Hcnt]. set (st := cache s) in *.
  pose proof (s_nodup _ _ HS) as Hnd.
  destruct (Slab_free_data st _ l p HD Hnd Hp)
    as (v & st1 & Ha & Hbuf & Hv & Hvr & Hfree & HD1 & Hfr & Hdat1 & Hsl & Hpg).
  fold a in Ha, Hbuf, Hv, Hfree, Hfr, Hdat1.
  pose proof (Shape_same _ _ _ Hsl HS) as HS1.
  pose proof Hsl as (Hc1 & Hh1 & Hl1). pose proof Hfr as [He1 Hf1].
  pose proof (d_cfg _ _ _ HD) as (_ & _ & Hel & _).
  assert (a ≠ 0) as Ha0 by by eapply Shape_nonnull.
  pose proof Hv as Hv'. apply avail_at_Some in Hv' as (r & Hr & Hrv).
  apply dat_Some in Hdat1 as (r1 & Hr1 & Hr1v & _).
  exists r, st1, r1.
  split; [by apply deref_Some|]. split; [done|].
  split; [by apply deref_Some|].
  pose proof (s_linked _ _ HS1) as Hlk1. pose proof (s_head _ _ HS1) as Hhd1.
  split.
  - (* FULL-to-PARTIAL requeue *)
    intros Hfull Hprev rp Hrp Hrpf.
    unfold full in Hfull. apply bool_decide_eq_true in Hfull.
    assert (v = 0) as -> by congruence.
    destruct (free_full_order st l a Hel Hnd Hord Ha Hv)
      as (N & F1 & F2 & Hl & Hcur & HF1 & HN & _).
    rewrite Hl in Hnd, Hlk1, Hhd1.
    pose proof Hlk1 as Hla. rewrite app_assoc in Hla.
    apply linked_lookup in Hla as [_ Hla].
    unfold lnk in Hla. rewrite Hr1 in Hla. simpl in Hla.
    injection Hla as Hp1 _. rewrite last_or_app in Hp1.
    destruct (snoc_cases F1) as [->|(F1' & sp & ->)].
    { exfalso. simpl in Hp1. rewrite Hp1 in Hprev, Hrp.
      assert (last_or 0 N ∈ N) as Hin.
      { apply last_or_elem. intros ->. by apply Hprev. }
      apply (HN _ Hin). unfold is_full. rewrite <- Hf1 by by_nodup Hnd.
      apply deref_inv in Hrp as [Hnz Hrp].
      destruct (is_full_deref st1 (last_or 0 N) Hnz) as (rp' & Hrp' & Hiff);
        [eauto|].
      apply deref_inv in Hrp' as [_ Hrp']. rewrite Hrp in Hrp'.
      injection Hrp' as <-. by apply Hiff. }
    rewrite <- !app_assoc in Hnd, Hlk1, Hhd1. simpl in Hnd, Hlk1, Hhd1.
    rewrite app_assoc in Hnd, Hlk1.
    destruct (dequeue_spec st1 _ sp a F2 Hnd Hlk1)
      as (st2 & Hdq & Hlk2 & _ & _ & Hc2 & Hh2).
    rewrite <- app_assoc in Hlk2.
    exists st2. split; [done|]. rewrite Hc2, Hc1, Hcur. split.
    + intros Hcnz.
      destruct (snoc_cases N) as [->|(N' & c & ->)]; [done|].
      rewrite <- app_assoc in Hlk2. simpl in Hlk2.
      pose proof Hlk2 as Hlc. apply linked_lookup in Hlc as [Hc0 Hlc].
      apply lnk_Some in Hlc as (rc & Hrc & _ & Hrcn).
      assert (hd 0 (F1' ++ sp :: F2) ∈ N' ++ c :: F1' ++ sp :: F2) as Hin.
      { apply elem_of_app; right. right.
        apply hd_elem. by destruct F1'. }
      destruct (linked_deref _ _ _ _ _ Hlk2 Hin) as (rn & Hrn).
      exists rc, rn. rewrite Hc2, Hc1, Hcur, last_or_snoc.
      split; [by apply deref_Some|]. rewrite Hrcn.
      split; [by eapply linked_nonnull|done].
    + intros Hcz.
      assert (N = []) as ->.
      { apply last_or_zero; [|done]. intros b Hb.
        apply (linked_nonnull _ _ _ _ _ Hlk2). set_solver. }
      simpl in *.
      assert (cache_head st2 ∈ F1' ++ sp :: F2) as Hin.
      { rewrite Hh2, Hhd1. destruct F1'; simpl; left. }
      destruct (linked_deref _ _ _ _ _ Hlk2 Hin) as (rh & Hrh).
      exists rh. split; [by eapply linked_nonnull|done].
  - (* PARTIAL-to-EMPTY promotion *)
    intros Hnfull Hempty Hprev rp Hrp Hrpe.
    unfold full in Hnfull. apply bool_decide_eq_false in Hnfull.
    unfold empty in Hempty. apply bool_decide_eq_true in Hempty.
    rewrite Hrv in Hnfull. rewrite Hr1v, He1 in Hempty.
    destruct (free_partial_order st l a v Hnd Hord Ha Hv ltac:(lia))
      as (E & P1 & R & Hl & HE & HP1 & _).
    rewrite Hl in Hnd, Hlk1, Hhd1.
    pose proof Hlk1 as Hla. rewrite app_assoc in Hla.
    apply linked_lookup in Hla as [_ Hla].
    unfold lnk in Hla. rewrite Hr1 in Hla. simpl in Hla.
    injection Hla as Hp1 _. rewrite last_or_app in Hp1.
    destruct (snoc_cases P1) as [->|(P1' & sp & ->)].
    { exfalso. simpl in Hp1. rewrite Hp1 in Hprev, Hrp.
      assert (last_or 0 E ∈ E) as Hin.
      { apply last_or_elem. intros ->. by apply Hprev. }
      rewrite Forall_forall in HE. apply HE in Hin.
      unfold is_empty in Hin. rewrite <- Hf1, <- He1 in Hin.
      - apply deref_inv in Hrp as [Hnz Hrp].
        destruct (is_empty_deref st1 (last_or 0 E) Hnz)
          as (rp' & Hrp' & Hiff); [eauto|].
        apply deref_inv in Hrp' as [_ Hrp']. rewrite Hrp in Hrp'.
        injection Hrp' as <-. apply Hiff in Hin. congruence.
      - apply not_eq_sym. eapply (nodup_ne_in _ a _ E Hnd).
        + apply last_or_elem. intros ->. by apply Hprev.
        + solve_submseteq. }
    rewrite last_or_snoc in Hp1. rewrite Hp1.
    set (st1' := if decide (a = cache_curr st1) then set_curr st1 sp
                 else st1).
    assert (mem_slabs st1' = mem_slabs st1 ∧ cache_head st1' = cache_head st1)
      as [Hm1 Hh1'] by (unfold st1'; by case_decide).
    clearbody st1'.
    rewrite <- !app_assoc in Hnd, Hlk1, Hhd1. simpl in Hnd, Hlk1, Hhd1.
    rewrite app_assoc in Hnd, Hlk1. rewrite <- Hm1 in Hlk1.
    destruct (dequeue_spec st1' _ sp a R Hnd Hlk1)
      as (st2 & Hdq & Hlk2 & _ & _ & Hc2 & Hh2).
    rewrite <- app_assoc in Hlk2.
    exists st2. split; [done|].
    assert (cache_head st2 ∈ E ++ P1' ++ sp :: R) as Hin.
    { rewrite Hh2, Hh1', Hhd1.
      destruct E; simpl; [destruct P1'; simpl|]; left. }
    destruct (linked_deref _ _ _ _ _ Hlk2 Hin) as (rh & Hrh).
    exists rh. split; [by eapply linked_nonnull|done].
Qed.

(** The list has a direction: the slab at [head] has no [prev]. *)
Lemma head_has_no_prev elem_size elem_align ops s :
  run (fresh elem_size elem_align) ops = Some s →
  cache_head (cache s) ≠ 0 →
  ∃ h, deref (cache s) (cache_head (cache s)) = Some h ∧ slab_prev h = 0.
Proof.
  intros Hrun Hh.
  destruct (reach_cases _ _ _ _ Hrun) as [[-> _]|(_ & l & HI)]; [done|].
  destruct (inv_shape _ _ HI) as [_ Hhd Hlk _]. rewrite Hhd in *.
  destruct l as [|a l]; [done|]. simpl in *.
  destruct Hlk as [[Ha Hl] _].
  apply lnk_Some in Hl as (r & Hr & Hp & _).
  exists r. split; [by apply deref_Some|done].
Qed.

(** ** What the operations change in memory *)

Lemma write_prev_same_data st a v st' :
  write_prev st a v = Some st' →
  same_data st st' ∧ cache_curr st' = cache_curr st ∧
  cache_head st' = cache_head st.
Proof.
  unfold write_prev. destruct (deref st a) as [r|] eqn:Hr; [|done].
  apply deref_inv in Hr as [_ Hr]. simpl. intros [= <-].
  repeat split; simpl. intros b. by apply (dat_insert_links _ _ r).
Qed.

Lemma write_next_same_data st a v st' :
  write_next st a v = Some st' →
  same_data st st' ∧ cache_curr st' = cache_curr st ∧
  cache_head st' = cache_head st.
Proof.
  unfold write_next. destruct (deref st a) as [r|] eqn:Hr; [|done].
  apply deref_inv in Hr as [_ Hr]. simpl. intros [= <-].
  repeat split; simpl. intros b. by apply (dat_insert_links _ _ r).
Qed.

Lemma dequeue_same_data st a st' :
  dequeue st a = Some st' → same_data st st'.
Proof.
  unfold dequeue. intros H.
  destruct (deref st a) as [r|]; [|done]. simpl in H.
  destruct (write_next st _ _) as [st1|] eqn:H1; [|done]. simpl in H.
  apply write_next_same_data in H1 as (H1 & _).
  destruct (deref st1 a) as [r1|]; [|done]. simpl in H.
  case_decide; [by injection H as <-|].
  apply write_prev_same_data in H as (H & _). by eapply same_data_trans.
Qed.

Lemma enqueue_as_head_same_data st a st' :
  enqueue_as_head st a = Some st' → same_data st st'.
Proof.
  unfold enqueue_as_head. intros H.
  destruct (write_prev st a 0) as [st1|] eqn:H1; [|done]. simpl in H.
  destruct (write_next st1 _ _) as [st2|] eqn:H2; [|done]. simpl in H.
  destruct (write_prev st2 _ _) as [st3|] eqn:H3; [|done]. simpl in H.
  injection H as <-.
  apply write_prev_same_data in H1 as (H1 & _), H3 as (H3 & _).
  apply write_next_same_data in H2 as (H2 & _).
  eapply same_data_trans; [done|]. eapply same_data_trans; [done|].
  eapply same_data_trans; [done|]. by repeat split.
Qed.

Lemma enqueue_after_curr_same_data st a st' :
  enqueue_after_curr st a = Some st' → same_data st st'.
Proof.
  unfold enqueue_after_curr. intros H.
  destruct (write_prev st a _) as [st1|] eqn:H1; [|done]. simpl in H.
  destruct (deref st1 _) as [c|]; [|done]. simpl in H.
  destruct (write_next st1 _ _) as [st2|] eqn:H2; [|done]. simpl in H.
  destruct (deref st2 _) as [c2|]; [|done]. simpl in H.
  destruct (write_prev st2 _ _) as [st3|] eqn:H3; [|done]. simpl in H.
  apply write_prev_same_data in H1 as (H1 & _), H3 as (H3 & _).
  apply write_next_same_data in H2 as (H2 & _), H as (H & _).
  eapply same_data_trans; [done|]. eapply same_data_trans; [done|].
  by eapply same_data_trans.
Qed.

Lemma requeue_full_same_data st a st' :
  requeue_full st a = Some st' → same_data st st'.
Proof.
  unfold requeue_full. intros H.
  destruct (deref st a) as [r|]; [|done]. simpl in H.
  destruct (if decide (slab_prev r = 0) then _ else _) as [[|]|];
    simpl in H; [| |done].
  - destruct (dequeue st a) as [st1|] eqn:H1; [|done]. simpl in H.
    apply dequeue_same_data in H1.
    destruct (if decide (cache_curr st1 = 0) then _ else _) as [st2|] eqn:H2;
      [|done].
    simpl in H. injection H as <-.
    assert (same_data st1 st2) as H2'.
    { case_decide; [by eapply enqueue_as_head_same_data|
                    by eapply enqueue_after_curr_same_data]. }
    eapply same_data_trans; [done|]. eapply same_data_trans; [done|].
    apply same_data_set_curr.
  - injection H as <-. apply same_data_set_curr.
Qed.

Lemma requeue_empty_same_data st a st' :
  requeue_empty st a = Some st' → same_data st st'.
Proof.
  unfold requeue_empty. intros H.
  destruct (deref st a) as [r|]; [|done]. simpl in H.
  destruct (if decide (slab_prev r = 0) then _ else _) as [[|]|];
    simpl in H; [| |done].
  - set (st0 := if decide (a = cache_curr st)
                then set_curr st (slab_prev r) else st) in H.
    assert (same_data st st0) as H0.
    { unfold st0. case_decide; [apply same_data_set_curr|
                                apply same_data_refl]. }
    destruct (dequeue st0 a) as [st1|] eqn:H1; [|done]. simpl in H.
    apply dequeue_same_data in H1. apply enqueue_as_head_same_data in H.
    eapply same_data_trans; [done|]. by eapply same_data_trans.
  - injection H as <-. apply same_data_refl.
Qed.

(** [Slab_cache::free] is [Slab::free] on the slab at the page base of the
    pointer, followed by relinking only. *)
Lemma Slab_cache_free_split st p st' :
  Slab_cache_free st p = Some st' →
  ∃ st1, Slab_free st (page_base p) p = Some st1 ∧ same_data st1 st'.
Proof.
  unfold Slab_cache_free. intros H.
  destruct (deref st _) as [r|]; [|done]. simpl in H.
  destruct (Slab_free st _ p) as [st1|] eqn:H1; [|done]. simpl in H.
  exists st1. split; [done|].
  destruct (full r).
  - by apply requeue_full_same_data in H.
  - destruct (deref st1 _) as [r1|]; [|done]. simpl in H.
    destruct (empty st1 r1).
    + by apply requeue_empty_same_data in H.
    + injection H as <-. apply same_data_refl.
Qed.

(** X12: whatever the state, a [free (ptr)] that returns has written one
    link word, the one of the released buffer, which now holds the former
    head of the free list of its slab; that slab has its count raised by
    one and [ptr] as the head of its free list; the count and the free
    list of every other slab, the geometry and the number of pages are
    left alone. *)
Theorem free_effect st p st' :
  Slab_cache_free st p = Some st' →
  ∃ r, deref st (page_base p) = Some r ∧
    mem_links st' = <[p + cache_size st := slab_head r]> (mem_links st) ∧
    dat (mem_slabs st') (page_base p) =
      Some (wrap (slab_avail r + 1), p + cache_size st) ∧
    (∀ b, b ≠ page_base p →
          dat (mem_slabs st') b = dat (mem_slabs st) b) ∧
    pages_used st' = pages_used st ∧ same_cfg st st'.
Proof.
  intros H. destruct (Slab_cache_free_split _ _ _ H) as (st1 & H1 & Hsd).
  destruct Hsd as (Hs & Hb & He & Hl & Hp & Hd).
  unfold Slab_free, store in H1.
  destruct (deref st (page_base p)) as [r|] eqn:Hr; [|done]. simpl in H1.
  case_decide; [done|]. simpl in H1. injection H1 as <-.
  exists r. split; [done|]. simpl in *.
  split; [done|]. split; [|split; [|done]].
  - by rewrite Hd, dat_insert, decide_True.
  - intros b Hne. by rewrite Hd, dat_insert, decide_False.
Qed.

(** X13: an [alloc] that finds [curr] non-null and returns has popped the
    head of the free list of [curr]: it returns that buffer, lowers the
    count of [curr] by one, and moves [curr] to [curr->prev] when the
    count reaches zero.  It writes no link word, relinks no slab, obtains
    no page and leaves the other slabs alone. *)
Theorem alloc_effect st q st' :
  Slab_cache_alloc st = Some (q, st') → cache_curr st ≠ 0 →
  ∃ r nx, deref st (cache_curr st) = Some r ∧
    load st (slab_head r) = Some nx ∧
    q = slab_head r - cache_size st ∧
    dat (mem_slabs st') (cache_curr st) =
      Some (wrap (slab_avail r - 1), nx) ∧
    cache_curr st' = (if decide (wrap (slab_avail r - 1) = 0)
                      then slab_prev r else cache_curr st) ∧
    (∀ b, b ≠ cache_curr st →
          dat (mem_slabs st') b = dat (mem_slabs st) b) ∧
    (∀ b, lnk (mem_slabs st') b = lnk (mem_slabs st) b) ∧
    mem_links st' = mem_links st ∧ cache_head st' = cache_head st ∧
    pages_used st' = pages_used st.
Proof.
  intros H Hc. rewrite Slab_cache_alloc_unfold in H.
  rewrite decide_False in H by done. simpl in H.
  unfold alloc_from_curr in H.
  destruct (deref st (cache_curr st)) as [r|] eqn:Hr; [|done]. simpl in H.
  destruct (assert _); [|done]. simpl in H.
  destruct (if decide (slab_next r = 0) then _ else _); [|done]. simpl in H.
  unfold Slab_alloc in H. rewrite Hr in H. simpl in H.
  destruct (load st (slab_head r)) as [nx|] eqn:Hnx; [|done]. simpl in H.
  pose proof Hr as Hr'. apply deref_inv in Hr' as [_ Hr'].
  rewrite (deref_Some _ _ (with_head (with_avail r (wrap (slab_avail r - 1)))
                             nx)) in H
    by (done || (simpl; apply lookup_insert_eq)).
  simpl in H. unfold full in H. simpl in H.
  exists r, nx. split; [done|]. split; [done|].
  assert (∀ st2, mem_slabs st2 = <[cache_curr st :=
              with_head (with_avail r (wrap (slab_avail r - 1))) nx]>
              (mem_slabs st) →
            dat (mem_slabs st2) (cache_curr st) =
              Some (wrap (slab_avail r - 1), nx) ∧
            (∀ b, b ≠ cache_curr st →
                  dat (mem_slabs st2) b = dat (mem_slabs st) b) ∧
            (∀ b, lnk (mem_slabs st2) b = lnk (mem_slabs st) b)) as Hmem.
  { intros st2 ->. split; [|split].
    - by rewrite dat_insert, decide_True.
    - intros b Hb. by rewrite dat_insert, decide_False.
    - intros b. by apply (lnk_insert_data _ _ r). }
  case_bool_decide as Hz; injection H as <- <-.
  - rewrite decide_True by done.
    destruct (Hmem (set_curr (put_slab st (cache_curr st)
      (with_head (with_avail r (wrap (slab_avail r - 1))) nx)) (slab_prev r)))
      as (?&?&?); done.
  - rewrite decide_False by done.
    destruct (Hmem (put_slab st (cache_curr st)
      (with_head (with_avail r (wrap (slab_avail r - 1))) nx)))
      as (?&?&?); done.
Qed.

(** ** One slab: allocation and release undo each other *)

Lemma state_eq st st' :
  cache_curr st' = cache_curr st → cache_head st' = cache_head st →
  cache_size st' = cache_size st → cache_buff st' = cache_buff st →
  cache_elem st' = cache_elem st → mem_slabs st' = mem_slabs st →
  mem_links st' = mem_links st → pages_used st' = pages_used st →
  st' = st.
Proof. destruct st, st'. simpl. by intros -> -> -> -> -> -> -> ->. Qed.

Lemma Slab_eq r r' :
  slab_avail r' = slab_avail r → slab_prev r' = slab_prev r →
  slab_next r' = slab_next r → slab_head r' = slab_head r → r' = r.
Proof. destruct r, r'. simpl. by intros -> -> -> ->. Qed.

Lemma Slab_free_popped st a r nx :
  a ≠ 0 → mem_slabs st !! a = Some r → slab_head r ≠ 0 →
  mem_links st !! slab_head r = Some nx →
  0 ≤ slab_avail r < 2 ^ (8 * WORD) →
  Slab_free
    (put_slab st a (with_head (with_avail r (wrap (slab_avail r - 1))) nx))
    a (slab_head r - cache_size st) = Some st.
Proof.
  intros Ha Hr Hh Hnx Hv. unfold Slab_free.
  rewrite (deref_Some _ _ (with_head (with_avail r (wrap (slab_avail r - 1)))
                             nx))
    by (done || (simpl; apply lookup_insert_eq)).
  simpl. unfold store. rewrite decide_False by lia. simpl. f_equal.
  apply state_eq; simpl; try done.
  - rewrite insert_insert_eq. apply insert_id. rewrite Hr. f_equal.
    apply Slab_eq; simpl; try done; [|lia].
    unfold wrap. rewrite Zplus_mod_idemp_l.
    replace (slab_avail r - 1 + 1) with (slab_avail r) by lia.
    by rewrite Z.mod_small.
  - replace (slab_head r - cache_size st + cache_size st) with (slab_head r)
      by lia.
    by apply insert_id.
Qed.

(** X8: [Slab::free] of the pointer [Slab::alloc] just returned puts the
    slab and the memory back exactly as they were. *)
Theorem Slab_alloc_then_free st a r p st1 :
  deref st a = Some r → 0 ≤ slab_avail r < 2 ^ (8 * WORD) →
  Slab_alloc st a = Some (p, st1) →
  Slab_free st1 a p = Some st.
Proof.
  intros Hr Hv H. unfold Slab_alloc in H. rewrite Hr in H. simpl in H.
  unfold load in H. case_decide as Hh; [done|].
  destruct (mem_links st !! slab_head r) as [nx|] eqn:Hnx; [|done].
  simpl in H. injection H as <- <-.
  apply deref_inv in Hr as [Ha Hr].
  by apply Slab_free_popped.
Qed.

(** X9: within one slab reuse is LIFO without condition: [Slab::alloc]
    right after [Slab::free (ptr)] returns [ptr] and restores the count
    and the head of the free list; the link word of the buffer keeps the
    value the release wrote. *)
Theorem Slab_free_then_alloc st a r p st1 :
  deref st a = Some r → 0 ≤ slab_avail r < 2 ^ (8 * WORD) →
  Slab_free st a p = Some st1 →
  Slab_alloc st1 a =
  Some (p, set_links st (<[p + cache_size st := slab_head r]> (mem_links st))).
Proof.
  intros Hr Hv H. unfold Slab_free in H. rewrite Hr in H. simpl in H.
  unfold store in H. case_decide as Hl; [done|]. simpl in H.
  injection H as <-. apply deref_inv in Hr as [Ha Hr].
  unfold Slab_alloc.
  rewrite (deref_Some _ _ (with_head (with_avail r (wrap (slab_avail r + 1)))
                             (p + cache_size st)))
    by (done || (simpl; apply lookup_insert_eq)).
  simpl. unfold load. simpl. rewrite decide_False by done.
  rewrite lookup_insert_eq. simpl. f_equal. f_equal; [lia|].
  apply state_eq; simpl; try done.
  rewrite insert_insert_eq. apply insert_id. rewrite Hr. f_equal.
  apply Slab_eq; simpl; try done.
  unfold wrap. rewrite Zminus_mod_idemp_l.
  replace (slab_avail r + 1 - 1) with (slab_avail r) by lia.
  by rewrite Z.mod_small.
Qed.

Lemma alias_loop a p n st :
  a ≠ 0 → p + cache_size st ≠ 0 →
  mem_links st !! (p + cache_size st) = Some (p + cache_size st) →
  (∃ r, mem_slabs st !! a = Some r ∧ slab_head r = p + cache_size st) →
  ∃ st', Slab_alloc_n n st a = Some (replicate n p, st').
Proof.
  intros Ha. revert st. induction n as [|n IH]; intros st Hl Hm (r & Hr & Hh).
  - by exists st.
  - simpl. unfold Slab_alloc. rewrite (deref_Some _ _ r) by done. simpl.
    unfold load. rewrite Hh, decide_False, Hm by done. simpl.
    rewrite Z.add_simpl_r.
    destruct (IH (put_slab st a
        (with_head (with_avail r (wrap (slab_avail r - 1)))
                   (p + cache_size st)))) as (st' & Hn); [done|done| |].
    { simpl. rewrite lookup_insert_eq. eauto. }
    rewrite Hn. simpl. eauto.
Qed.

(** X10: a double release is not detected and ties the link word of the
    buffer to itself: after [Slab::free (ptr)] twice, every following
    [Slab::alloc] on the slab returns [ptr] again. *)
Theorem double_release_aliases st a p st1 st2 n :
  Slab_free st a p = Some st1 → Slab_free st1 a p = Some st2 →
  ∃ st3, Slab_alloc_n n st2 a = Some (replicate n p, st3).
Proof.
  intros H1 H2. unfold Slab_free in H1, H2.
  destruct (deref st a) as [r|] eqn:Hr; [|done]. simpl in H1.
  unfold store in H1. case_decide as Hl; [done|]. simpl in H1.
  injection H1 as <-. apply deref_inv in Hr as [Ha Hr].
  rewrite (deref_Some _ _ (with_head (with_avail r (wrap (slab_avail r + 1)))
                             (p + cache_size st))) in H2
    by (done || (simpl; apply lookup_insert_eq)).
  simpl in H2. unfold store in H2. simpl in H2.
  rewrite decide_False in H2 by done. simpl in H2. injection H2 as <-.
  apply alias_loop; simpl; [done|done|by rewrite lookup_insert_eq|].
  rewrite lookup_insert_eq. eauto.
Qed.

(** ** The slab list of a reachable cache *)

Lemma fresh_unmapped elem_size elem_align a :
  deref (cache (fresh elem_size elem_align)) a = None.
Proof. unfold deref. case_decide; [done|]. simpl. apply lookup_empty. Qed.

(** X1: the slab list of a reachable cache is a well-formed doubly linked
    list: the traversal from [head] along [next] ends, visits every slab
    that was ever built exactly once, and has as many slabs as pages were
    obtained; [s->next->prev == s] and [s->prev->next == s] wherever the
    neighbour exists, and [head] is the one slab without a [prev]. *)
Theorem list_well_formed elem_size elem_align ops s :
  run (fresh elem_size elem_align) ops = Some s →
  ∃ l, slab_list (cache s) = Some l ∧ NoDup l ∧
    length l = pages_used (cache s) ∧
    (∀ a, a ∈ l ↔ is_Some (deref (cache s) a)) ∧
    ∀ a r, deref (cache s) a = Some r →
      (slab_next r ≠ 0 →
       ∃ n, deref (cache s) (slab_next r) = Some n ∧ slab_prev n = a) ∧
      (slab_prev r ≠ 0 →
       ∃ q, deref (cache s) (slab_prev r) = Some q ∧ slab_next q = a) ∧
      (slab_prev r = 0 ↔ a = cache_head (cache s)).
Proof.
  intros Hrun. destruct (reach_cases _ _ _ _ Hrun) as [[-> He]|[He [l HI]]].
  { exists []. split; [done|]. split; [constructor|]. split; [done|].
    split.
    - intros a. rewrite fresh_unmapped. split; [by intros ?%elem_of_nil|].
      by intros [? ?].
    - intros a r Hr. by rewrite fresh_unmapped in Hr. }
  pose proof (inv_shape _ _ HI) as HS.
  pose proof (s_nodup _ _ HS) as Hnd. pose proof (s_linked _ _ HS) as Hlk.
  exists l. split; [by eapply Inv_slab_list|]. split; [done|].
  split; [by apply inv_len|]. split.
  { intros a. split.
    - intros Ha. destruct (Shape_mapped _ _ _ HS Ha) as [r Hr]. exists r.
      apply deref_Some; [by eapply Shape_nonnull|done].
    - intros [r [_ Hr]%deref_inv]. apply (s_dom _ _ HS). by exists r. }
  intros a r [Ha Hr]%deref_inv.
  assert (a ∈ l) as Hin by (apply (s_dom _ _ HS); by exists r).
  apply list_elem_of_split in Hin as (l1 & l2 & ->).
  destruct (linked_lookup _ _ _ _ _ _ Hlk) as [_ Hla].
  apply lnk_Some in Hla as (r' & Hr' & Hp & Hn).
  assert (r' = r) as -> by congruence. rewrite Hp, Hn.
  split; [|split].
  - intros Hnz. destruct l2 as [|n l2]; [done|]. simpl in *.
    replace (l1 ++ a :: n :: l2) with ((l1 ++ [a]) ++ n :: l2) in Hlk
      by (by rewrite <- app_assoc).
    destruct (linked_lookup _ _ _ _ _ _ Hlk) as [Hn0 Hln].
    rewrite last_or_snoc in Hln.
    apply lnk_Some in Hln as (rn & Hrn & Hpn & _). exists rn.
    split; [by apply deref_Some|done].
  - intros Hpz. destruct (snoc_cases l1) as [->|(l1' & q & ->)]; [done|].
    rewrite last_or_snoc in *.
    rewrite <- app_assoc in Hlk. simpl in Hlk.
    destruct (linked_lookup _ _ _ _ _ _ Hlk) as [Hq0 Hlq].
    apply lnk_Some in Hlq as (rq & Hrq & _ & Hnq). exists rq.
    split; [by apply deref_Some|done].
  - rewrite (s_head _ _ HS). destruct l1 as [|b l1]; [done|]. simpl.
    split.
    + intros Hz. exfalso.
      assert (last_or b l1 ∈ b :: l1) as Hl
        by (apply (last_or_elem 0 (b :: l1)); done).
      eapply (Shape_nonnull _ _ (last_or b l1) HS); [|done].
      apply elem_of_app. by left.
    + intros ->. exfalso. apply NoDup_cons in Hnd as [Hnd _].
      apply Hnd, elem_of_app. right. by left.
Qed.

Lemma ordered_partition st l :
  0 < cache_elem st → ordered st l →
  ∃ N F, l = N ++ F ∧ Forall (λ a, ¬ is_full st a) N ∧
    Forall (is_full st) F ∧ cache_curr st = last_or 0 N.
Proof.
  intros He (E & P & F & -> & HE & HP & HF & Hc).
  exists (E ++ P), F. split; [by rewrite app_assoc|].
  split; [|done]. apply Forall_app. split.
  - eapply Forall_impl; [done|]. unfold is_empty, is_full.
    intros a -> [=]. lia.
  - eapply Forall_impl; [done|]. unfold is_full.
    intros a (v & -> & Hv) [=]. lia.
Qed.

(** X2: in a reachable cache the slab list is cut in two by [curr]: the
    slabs up to and including [curr] still have a free buffer, the slabs
    behind it are all FULL; [curr] is null exactly when every slab is
    FULL. *)
Theorem cursor_partition elem_size elem_align ops s :
  run (fresh elem_size elem_align) ops = Some s →
  ∃ N F, slab_list (cache s) = Some (N ++ F) ∧
    Forall (λ a, ¬ is_full (cache s) a) N ∧
    Forall (is_full (cache s)) F ∧
    cache_curr (cache s) = last_or 0 N ∧
    (cache_curr (cache s) = 0 ↔ N = []).
Proof.
  intros Hrun. destruct (reach_cases _ _ _ _ Hrun) as [[-> He]|[He [l HI]]].
  { exists [], []. by repeat split. }
  pose proof (d_cfg _ _ _ (inv_data _ _ HI)) as (_ & _ & Hel & _).
  destruct (ordered_partition _ _ Hel (inv_order _ _ HI))
    as (N & F & -> & HN & HF & Hc).
  exists N, F. split; [by eapply Inv_slab_list|].
  split; [done|]. split; [done|]. split; [done|]. rewrite Hc. split.
  - apply last_or_zero. intros a Ha.
    apply (Inv_nonnull _ _ a HI), elem_of_app. by left.
  - by intros ->.
Qed.

(** ** Capacity *)

Lemma Inv_avail_bounds s l a :
  Inv s l → a ∈ l →
  ∃ v, avail_at (cache s) a = Some v ∧ 0 ≤ v ≤ cache_elem (cache s).
Proof.
  intros HI Ha. pose proof (inv_data _ _ HI) as HD.
  pose proof (d_cfg _ _ _ HD) as (_ & Hbf & Hel & _).
  destruct (d_slabs _ _ _ HD a Ha) as (fl & h & Hd & _ & Hnd & Hfl).
  exists (Z.of_nat (length fl)). unfold avail_at. rewrite Hd.
  split; [done|]. split; [lia|].
  apply (buffers_bound _ a); [lia|done|done|]. intros q Hq.
  by apply Hfl.
Qed.

Lemma used_bounds st l :
  (∀ a, a ∈ l → ∃ v, avail_at st a = Some v ∧ 0 ≤ v ≤ cache_elem st) →
  used st l ≤ cache_elem st * Z.of_nat (length l) ∧
  (used st l = cache_elem st * Z.of_nat (length l) ↔ Forall (is_full st) l).
Proof.
  induction l as [|a l IH]; intros H.
  - simpl. split; [lia|]. split; [constructor|lia].
  - destruct IH as [IH1 IH2].
    { intros b Hb. apply H. by right. }
    destruct (H a) as (v & Hv & Hb); [by left|].
    simpl used. rewrite Hv. simpl default. rewrite length_cons.
    split; [lia|]. rewrite Forall_cons. unfold is_full at 1. rewrite Hv.
    rewrite <- IH2. split.
    + intros Hu. assert (v = 0) as -> by lia. split; [done|lia].
    + intros [[= ->] Hu]. lia.
Qed.

Lemma Inv_capacity s l :
  Inv s l →
  Z.of_nat (length (live s)) ≤
    cache_elem (cache s) * Z.of_nat (pages_used (cache s)) ∧
  (cache_curr (cache s) = 0 ↔
   Z.of_nat (length (live s)) =
     cache_elem (cache s) * Z.of_nat (pages_used (cache s))).
Proof.
  intros HI. pose proof (inv_data _ _ HI) as HD.
  pose proof (d_cfg _ _ _ HD) as (_ & _ & Hel & _).
  destruct (used_bounds (cache s) l) as [Hu1 Hu2].
  { intros a Ha. by eapply Inv_avail_bounds. }
  rewrite (d_used _ _ _ HD), (inv_len _ _ HI) in Hu1, Hu2.
  split; [done|]. rewrite Hu2. split; [by apply Inv_curr_null|].
  intros Hall.
  destruct (ordered_partition _ _ Hel (inv_order _ _ HI))
    as (N & F & -> & HN & HF & Hc).
  destruct N as [|a N]; [done|].
  apply Forall_cons in HN as [Ha _]. by apply Forall_cons in Hall as [? _].
Qed.

(** X3: a reachable cache never holds more live objects than its pages
    have buffers, [curr] is null exactly when all of them are in use, and
    so [alloc] obtains a page only when no buffer of any page is free. *)
Theorem capacity_bound elem_size elem_align ops s :
  run (fresh elem_size elem_align) ops = Some s →
  let cap := cache_elem (cache s) * Z.of_nat (pages_used (cache s)) in
  Z.of_nat (length (live s)) ≤ cap ∧
  (cache_curr (cache s) = 0 ↔ Z.of_nat (length (live s)) = cap) ∧
  ∀ p st', Slab_cache_alloc (cache s) = Some (p, st') →
    (pages_used st' = S (pages_used (cache s)) ∧
     Z.of_nat (length (live s)) = cap) ∨
    (pages_used st' = pages_used (cache s) ∧
     Z.of_nat (length (live s)) < cap).
Proof.
  intros Hrun cap. unfold cap.
  destruct (reach_cases _ _ _ _ Hrun) as [[-> He]|[He [l HI]]].
  { split; [simpl in *; lia|]. split; [simpl in *; lia|].
    intros p st' H. unfold fresh in H. simpl cache in H.
    by rewrite alloc_no_capacity in H. }
  destruct (Inv_capacity _ _ HI) as [Hle Hiff].
  split; [done|]. split; [done|]. intros p st' H.
  destruct (alloc_inv _ _ HI) as (p' & st'' & l' & H' & _ & _ & _ & _ & _
                                   & Hpg & _).
  rewrite H in H'. injection H' as <- <-.
  case_decide as Hc.
  - left. split; [done|]. by apply Hiff.
  - right. split; [done|]. apply Z.le_neq. split; [done|].
    by rewrite <- Hiff.
Qed.

(** X4: a release always leaves a slab to allocate from: after [free] of
    a live pointer [curr] is not null, and the next [alloc] returns a
    buffer of the slab [curr] points to without obtaining a page. *)
Theorem free_leaves_room elem_size elem_align ops s p :
  run (fresh elem_size elem_align) ops = Some s → p ∈ live s →
  ∃ st' q st'',
    Slab_cache_free (cache s) p = Some st' ∧ cache_curr st' ≠ 0 ∧
    Slab_cache_alloc st' = Some (q, st'') ∧
    page_base q = cache_curr st' ∧ is_buf st' (cache_curr st') q ∧
    pages_used st'' = pages_used (cache s).
Proof.
  intros Hrun Hp. destruct (reach_cases _ _ _ _ Hrun) as [[-> He]|[He [l HI]]].
  { by apply elem_of_nil in Hp. }
  destruct (free_inv _ _ _ HI Hp) as (st' & l' & Hf & HI' & _ & Hpg & _).
  destruct (Inv_capacity _ _ HI) as [Hle _].
  destruct (Inv_capacity _ _ HI') as [_ Hiff']. simpl in Hiff'.
  assert (cache_curr st' ≠ 0) as Hc.
  { intros Hc. apply Hiff' in Hc.
    pose proof (Slab_cache_free_cfg _ _ _ Hf) as (_ & _ & Hel).
    rewrite Hel, Hpg in Hc.
    assert (length (live s) = S (length (remove_first p (live s)))) as Hlen.
    { clear -Hp. induction (live s) as [|x lv IH]; [by apply elem_of_nil in Hp|].
      simpl. case_decide; [done|]. simpl. f_equal. apply IH.
      apply elem_of_cons in Hp as [->|?]; done. }
    lia. }
  destruct (alloc_inv _ _ HI') as (q & st'' & l'' & Ha & _ & _ & Hb & Hpb & _
                                    & Hpg' & _).
  simpl in Ha, Hb, Hpb, Hpg'. unfold alloc_target in Hb, Hpb.
  rewrite decide_False in Hb by done. rewrite decide_False in Hpb by done.
  rewrite decide_False in Hpg' by done.
  exists st', q, st''. repeat split; try done. congruence.
Qed.

(** X7: the free count of every slab of a reachable cache is honest: it
    lies between 0 and [elem], and that many calls of [Slab::alloc] on the
    slab succeed and return distinct buffers of the slab, none of which is
    live; the call after them finds the free list at its end. *)
Theorem free_list_sound elem_size elem_align ops s a r :
  run (fresh elem_size elem_align) ops = Some s →
  deref (cache s) a = Some r →
  0 ≤ slab_avail r ≤ cache_elem (cache s) ∧
  ∃ fl st',
    Slab_alloc_n (Z.to_nat (slab_avail r)) (cache s) a = Some (fl, st') ∧
    Z.of_nat (length fl) = slab_avail r ∧ NoDup fl ∧
    (∀ p, p ∈ fl → is_buf (cache s) a p ∧ p ∉ live s) ∧
    Slab_alloc st' a = None.
Proof.
  intros Hrun Hr. destruct (reach_cases _ _ _ _ Hrun) as [[-> He]|[He [l HI]]].
  { by rewrite fresh_unmapped in Hr. }
  apply deref_inv in Hr as [Ha Hr].
  pose proof (inv_data _ _ HI) as HD.
  pose proof (d_cfg _ _ _ HD) as Hcfg.
  pose proof Hcfg as (_ & Hbf & Hel & _).
  assert (a ∈ l) as Hin
    by (apply (s_dom _ _ (inv_shape _ _ HI)); by exists r).
  destruct (d_slabs _ _ _ HD a Hin) as (fl & h & Hd & Hch & Hnd & Hfl).
  pose proof Hd as Hd0.
  apply dat_Some in Hd0 as (r' & Hr' & Hav & Hh).
  assert (r' = r) as -> by congruence.
  assert (Z.of_nat (length fl) ≤ cache_elem (cache s)) as Hb.
  { apply (buffers_bound _ a); [lia|done|done|]. intros q Hq. by apply Hfl. }
  pose proof (elem_fits _ Hcfg) as Hfit.
  split; [lia|].
  destruct (Slab_alloc_n_chain fl (cache s) a h)
    as (st' & Hn & Hd' & _); [done|lia|done|done|].
  exists fl, st'. rewrite Hav, Nat2Z.id.
  split; [done|]. split; [done|]. split; [done|]. split; [done|].
  apply dat_Some in Hd' as (r1 & Hr1 & _ & Hh1).
  unfold Slab_alloc. rewrite (deref_Some _ _ r1) by done.
  simpl. by rewrite Hh1.
Qed.

(** ** What a run keeps *)

Lemma Slab_alloc_cfg st a p st' :
  Slab_alloc st a = Some (p, st') → same_cfg st st'.
Proof.
  unfold Slab_alloc. intros H. destruct (deref st a); [|done]. simpl in H.
  destruct (load _ _); [|done]. simpl in H. by injection H as <- <-.
Qed.

Lemma Slab_cache_alloc_cfg st p st' :
  Slab_cache_alloc st = Some (p, st') → same_cfg st st'.
Proof.
  unfold Slab_cache_alloc. intros H.
  destruct (if decide (cache_curr st = 0) then grow st else Some st)
    as [st1|] eqn:H1; [|done].
  assert (same_cfg st st1) as Hc1.
  { case_decide; [by apply grow_cfg|]. by injection H1 as <-. }
  simpl in H. destruct (deref st1 (cache_curr st1)) as [c|]; [|done].
  simpl in H. destruct (assert _); [|done]. simpl in H.
  destruct (if decide (slab_next c = 0) then _ else _); [|done]. simpl in H.
  destruct (Slab_alloc st1 (cache_curr st1)) as [[ret st2]|] eqn:H2; [|done].
  simpl in H. destruct (deref st2 (cache_curr st2)) as [c2|]; [|done].
  simpl in H. injection H as <- <-.
  apply (same_cfg_trans _ _ _ Hc1).
  apply (same_cfg_trans _ st2); [by eapply Slab_alloc_cfg|].
  by destruct (full c2).
Qed.

Lemma run_grows s l ops s' :
  Inv s l → run s ops = Some s' →
  ∃ l', Inv s' l' ∧ (∀ a, a ∈ l → a ∈ l') ∧
    same_cfg (cache s) (cache s') ∧
    (pages_used (cache s) ≤ pages_used (cache s')
       ≤ pages_used (cache s) + count_allocs ops)%nat.
Proof.
  revert s l. induction ops as [|o ops IH]; intros s l HI Hrun.
  { injection Hrun as <-. exists l. split; [done|]. split; [done|].
    split; [done|]. simpl. lia. }
  simpl in Hrun. destruct (step s o) as [s1|] eqn:Hs; [|done].
  simpl in Hrun. destruct o as [|p]; simpl in Hs.
  - destruct (alloc_inv _ _ HI)
      as (q & st' & l' & Ha & HI' & Hl' & _ & _ & _ & Hpg & _).
    rewrite Ha in Hs. simpl in Hs. injection Hs as <-.
    destruct (IH _ _ HI' Hrun) as (l'' & HI'' & Hsub & Hcfg & Hle).
    exists l''. split; [done|]. simpl in Hcfg, Hle. split; [|split].
    + intros a Ha'. apply Hsub. rewrite Hl'. case_decide; [by right|done].
    + eapply same_cfg_trans; [by eapply Slab_cache_alloc_cfg|done].
    + rewrite Hpg in Hle. simpl. case_decide; lia.
  - case_decide as Hp; [|done].
    destruct (free_inv _ _ _ HI Hp) as (st' & l' & Hf & HI' & Hl' & Hpg & _).
    rewrite Hf in Hs. simpl in Hs. injection Hs as <-.
    destruct (IH _ _ HI' Hrun) as (l'' & HI'' & Hsub & Hcfg & Hle).
    exists l''. split; [done|]. simpl in Hcfg, Hle. split; [|split].
    + intros a Ha'. apply Hsub. by rewrite Hl'.
    + eapply same_cfg_trans; [by eapply Slab_cache_free_cfg|done].
    + rewrite Hpg in Hle. simpl. lia.
Qed.

(** X5: the cache never gives a page back and never changes its
    geometry: whatever calls follow, every slab of the cache remains one,
    the number of pages does not go down and goes up by at most one per
    [alloc], and [size], [buff] and [elem] keep the values the constructor
    computed. *)
Theorem pages_never_returned elem_size elem_align ops1 ops2 s s' :
  run (fresh elem_size elem_align) ops1 = Some s →
  run s ops2 = Some s' →
  (∀ a, is_Some (deref (cache s) a) → is_Some (deref (cache s') a)) ∧
  (pages_used (cache s) ≤ pages_used (cache s')
     ≤ pages_used (cache s) + count_allocs ops2)%nat ∧
  same_cfg (Slab_cache_ctor elem_size elem_align) (cache s').
Proof.
  intros Hrun1 Hrun2.
  assert (run (fresh elem_size elem_align) (ops1 ++ ops2) = Some s') as Hrun.
  { clear -Hrun1 Hrun2. revert Hrun1.
    generalize (fresh elem_size elem_align).
    induction ops1 as [|o ops1 IH]; intros s0 H1; simpl in *.
    - by injection H1 as ->.
    - destruct (step s0 o); [|done]. simpl in *. by apply IH. }
  destruct (reach_cases _ _ _ _ Hrun1) as [[-> He]|[He [l HI]]].
  { destruct (reach_cases _ _ _ _ Hrun2) as [[-> _]|[He' _]]; [|lia].
    split; [done|]. split; [simpl; lia|done]. }
  destruct (run_grows _ _ _ _ HI Hrun2) as (l' & HI' & Hsub & _ & Hle).
  destruct (run_grows _ _ _ _ (fresh_inv _ _ He) Hrun)
    as (_ & _ & _ & Hcfg & _).
  split; [|done]. intros a [r [Ha Hr]%deref_inv].
  assert (a ∈ l') as Hin.
  { apply Hsub, (s_dom _ _ (inv_shape _ _ HI)). by exists r. }
  destruct (Shape_mapped _ _ _ (inv_shape _ _ HI') Hin) as [r' Hr'].
  exists r'. by apply deref_Some.
Qed.

Lemma aligned_apart a b :
  0 ≤ PAGE_BITS → a mod PAGE_SIZE = 0 → b mod PAGE_SIZE = 0 → a ≠ b →
  a + PAGE_SIZE ≤ b ∨ b + PAGE_SIZE ≤ a.
Proof.
  intros Hb Ha Hb' Hne. pose proof (PAGE_SIZE_pos Hb) as Hpos.
  apply Z.mod_divide in Ha as [ka ->]; [|lia].
  apply Z.mod_divide in Hb' as [kb ->]; [|lia].
  assert (ka ≠ kb) by (by intros ->). nia.
Qed.

(** X6: the objects handed out do not overlap: every live pointer is the
    start of [buff] bytes that lie inside its page behind the [Slab]
    header and hold the element and its link word, and the ranges of two
    distinct live pointers are disjoint. *)
Theorem live_ranges_disjoint elem_size elem_align ops s :
  0 ≤ elem_size → 0 < elem_align →
  align_up (align_up elem_size WORD + WORD) elem_align < 2 ^ (8 * WORD) →
  run (fresh elem_size elem_align) ops = Some s →
  let st := cache s in
  (∀ p, p ∈ live s →
     page_base p + SLAB_SIZE ≤ p ∧
     p + cache_size st + WORD ≤ p + cache_buff st ∧
     p + cache_buff st ≤ page_base p + PAGE_SIZE) ∧
  (∀ p q, p ∈ live s → q ∈ live s → p ≠ q →
     p + cache_buff st ≤ q ∨ q + cache_buff st ≤ p).
Proof.
  intros Hes Hea Hfit Hrun st. unfold st.
  destruct (reach_cases _ _ _ _ Hrun) as [[-> He]|[He [l HI]]].
  { split; [by intros p ?%elem_of_nil|by intros p q ?%elem_of_nil]. }
  destruct (run_grows _ _ _ _ (fresh_inv _ _ He) Hrun)
    as (_ & _ & _ & (Hsz & Hbf & Hel) & _).
  pose proof (buffers_layout _ _ Hes Hea Hfit) as Hlay.
  cbv zeta in Hlay.
  assert (∀ a p, is_buf (cache s) a p →
            is_buf (Slab_cache_ctor elem_size elem_align) a p) as Hbuf.
  { intros a p (i & Hi & ->). exists i.
    unfold fresh in Hel, Hbf. simpl cache in Hel, Hbf.
    rewrite <- Hel, <- Hbf. done. }
  unfold fresh in Hsz, Hbf. simpl cache in Hsz, Hbf. rewrite Hsz, Hbf.
  pose proof (inv_data _ _ HI) as HD.
  split.
  - intros p Hp. destruct (d_live _ _ _ HD p Hp) as (a & Ha & Hb).
    rewrite (Data_buf_base _ _ _ _ _ HD Ha Hb).
    destruct (Hlay a p (Hbuf _ _ Hb)) as (H1 & H2 & H3 & _). done.
  - intros p q Hp Hq Hne.
    destruct (d_live _ _ _ HD p Hp) as (a & Ha & Hpa).
    destruct (d_live _ _ _ HD q Hq) as (b & Hb & Hqb).
    destruct (Hlay a p (Hbuf _ _ Hpa)) as (Hp1 & _ & Hp3 & Hp4).
    destruct (Hlay b q (Hbuf _ _ Hqb)) as (Hq1 & _ & Hq3 & _).
    destruct (decide (a = b)) as [->|Hab].
    + apply Hp4; [by apply Hbuf|done].
    + destruct (Data_slab_addr _ _ _ _ HD Ha) as [_ Haa].
      destruct (Data_slab_addr _ _ _ _ HD Hb) as [_ Hba].
      pose proof (slab_size PF).
      destruct (aligned_apart a b (page_bits PF) Haa Hba Hab); lia.
Qed.

(** ** The order in which a new slab hands out its buffers *)

Lemma format_list_seq buff sz n link acc :
  format_list buff sz n link acc =
  ((λ j : nat, link - sz - (Z.of_nat n - 1 - Z.of_nat j) * buff) <$> seq 0 n)
    ++ acc.
Proof.
  revert link acc. induction n as [|n IH]; intros link acc; [done|].
  simpl format_list. rewrite IH, seq_S, fmap_app, <- app_assoc. simpl.
  f_equal; [|f_equal; lia].
  apply list_fmap_ext. intros i j _. lia.
Qed.

(** X11: a new slab hands out its buffers in ascending address order: the
    [elem] calls of [Slab::alloc] that follow [Slab::Slab] return the
    buffer [elem * buff] bytes before the end of the page first and the
    one [buff] bytes before the end of the page last. *)
Theorem fresh_slab_order st this :
  0 ≤ cache_size st → 0 < cache_buff st → 0 ≤ cache_elem st →
  cache_elem st * cache_buff st ≤ PAGE_SIZE → 0 < this →
  ∃ st',
    Slab_alloc_n (Z.to_nat (cache_elem st)) (Slab_ctor st this) this =
    Some ((λ k : nat, this + PAGE_SIZE
                      - (cache_elem st - Z.of_nat k) * cache_buff st)
            <$> seq 0 (Z.to_nat (cache_elem st)), st').
Proof.
  intros Hsz Hbf Hel Hfit Ht.
  set (st0 := Slab_ctor st this).
  set (link := this + PAGE_SIZE - cache_buff st + cache_size st).
  set (n := Z.to_nat (cache_elem st)).
  set (r0 := Slab_format (cache_buff st) n link 0 (mem_links st)).
  set (fl := format_list (cache_buff st) (cache_size st) n link []).
  assert (st0 = put_slab (set_links st r0.2) this
                  (mkSlab (cache_elem st) 0 0 r0.1)) as Hst0 by done.
  assert (length fl = n) as Hlen
    by (unfold fl; rewrite format_list_length; simpl; lia).
  assert (chain (mem_links st0) (cache_size st0) r0.1 fl) as Hch.
  { rewrite Hst0. simpl. apply Slab_format_chain; [done|done| |].
    - by intros p ?%elem_of_nil.
    - intros k Hk. unfold link. unfold n in Hk. nia. }
  assert (dat (mem_slabs st0) this = Some (Z.of_nat (length fl), r0.1)) as Hd.
  { rewrite Hst0. simpl. rewrite dat_insert, decide_True by done.
    simpl. do 2 f_equal. unfold n in Hlen. lia. }
  clearbody st0.
  destruct (Slab_alloc_n_chain fl st0 this r0.1)
    as (st' & Hn & _); [lia| |done|done|].
  { pose proof (page_fits PF). unfold n in Hlen. nia. }
  rewrite Hlen in Hn. exists st'. rewrite Hn. do 2 f_equal.
  unfold fl. rewrite format_list_seq, app_nil_r.
  apply list_fmap_ext. intros i j _. unfold link, n. lia.
Qed.

(** ** How the calls reorder the slab list *)

Lemma Shape_slab_list st l :
  Shape st l → length l = pages_used st → slab_list st = Some l.
Proof.
  intros HS Hlen. unfold slab_list. rewrite (s_head _ _ HS).
  apply (walk_linked _ 0); [by apply (s_linked _ _ HS)|lia].
Qed.

(** X14: [alloc] never reorders the slab list: the list after the call is
    the list before it, with the new slab in front when a page was
    obtained. *)
Theorem alloc_keeps_order elem_size elem_align ops s p st' :
  run (fresh elem_size elem_align) ops = Some s →
  Slab_cache_alloc (cache s) = Some (p, st') →
  ∃ l, slab_list (cache s) = Some l ∧
    slab_list st' =
      Some (if decide (cache_curr (cache s) = 0)
            then page_at (pages_used (cache s)) :: l else l).
Proof.
  intros Hrun Ha.
  destruct (reach_cases _ _ _ _ Hrun) as [[-> He]|[He [l HI]]].
  { unfold fresh in Ha. simpl cache in Ha.
    by rewrite alloc_no_capacity in Ha. }
  destruct (alloc_inv _ _ HI) as (p' & st'' & l' & Ha' & HI' & Hl' & _).
  rewrite Ha in Ha'. injection Ha' as <- <-.
  exists l. split; [by eapply Inv_slab_list|].
  rewrite <- Hl'. by apply (Inv_slab_list _ _ HI').
Qed.

(** X15: how [free] reorders the slab list.  A release into a FULL slab
    moves the slab in front of the FULL slabs that preceded it, right
    behind the slabs with a free buffer, and makes it [curr].  A release
    that empties a slab moves the slab to the head of the list, unless
    only EMPTY slabs precede it, and [curr] steps back to the slab in
    front when it pointed to the moved slab.  Any other release leaves
    the list and [curr] as they are. *)
Theorem release_moves elem_size elem_align ops s p :
  run (fresh elem_size elem_align) ops = Some s → p ∈ live s →
  let st := cache s in
  let a := page_base p in
  ∃ st' l v, Slab_cache_free st p = Some st' ∧ slab_list st = Some l ∧
    avail_at st a = Some v ∧
    ((v = 0 ∧ ∃ N F1 F2, l = N ++ F1 ++ a :: F2 ∧
        Forall (λ b, ¬ is_full st b) N ∧ Forall (is_full st) F1 ∧
        slab_list st' = Some (N ++ a :: F1 ++ F2) ∧ cache_curr st' = a) ∨
     (0 < v ∧ v + 1 = cache_elem st ∧ ∃ E P1 R, l = E ++ P1 ++ a :: R ∧
        Forall (is_empty st) E ∧ Forall (is_partial st) P1 ∧
        slab_list st' = Some (if decide (P1 = []) then l
                              else a :: E ++ P1 ++ R) ∧
        cache_curr st' = (if decide (P1 ≠ [] ∧ a = cache_curr st)
                          then last_or 0 P1 else cache_curr st)) ∨
     (0 < v ∧ v + 1 < cache_elem st ∧
        slab_list st' = Some l ∧ cache_curr st' = cache_curr st)).
Proof.
  intros Hrun Hp st a.
  destruct (reach_cases _ _ _ _ Hrun) as [[-> He]|[He [l HI]]].
  { by apply elem_of_nil in Hp. }
  pose proof (Inv_slab_list _ _ HI) as Hsl0.
  destruct HI as [HS HD Hord Hlen Hcnt]. fold st in HS, HD, Hord, Hlen, Hsl0.
  pose proof (s_nodup _ _ HS) as Hnd.
  destruct (Slab_free_data st _ l p HD Hnd Hp)
    as (v & st1 & Ha & Hbuf & Hv & Hvr & Hfree & HD1 & Hfr & Hdat1 & Hsl & Hpg).
  fold a in Ha, Hbuf, Hv, Hfree, Hfr, Hdat1.
  pose proof (Shape_same _ _ _ Hsl HS) as HS1.
  pose proof Hsl as (Hc1 & Hh1 & Hl1).
  pose proof Hfr as [He1 Hf1].
  pose proof (d_cfg _ _ _ HD) as (_ & _ & Hel & _).
  assert (a ≠ 0) as Ha0 by by eapply Shape_nonnull.
  pose proof Hv as Hv'. apply avail_at_Some in Hv' as (rs & Hrs & Hrsv).
  assert (avail_at st1 a = Some (v + 1)) as Hv1
    by (unfold avail_at; by rewrite Hdat1).
  pose proof Hv1 as Hv1'. apply avail_at_Some in Hv1' as (rs1 & Hrs1 & Hrsv1).
  unfold Slab_cache_free. fold a.
  rewrite (deref_Some _ _ rs) by done. simpl. rewrite Hfree. simpl.
  unfold full. rewrite Hrsv.
  destruct (decide (v = 0)) as [->|Hv0].
  - (* the slab was FULL *)
    rewrite bool_decide_eq_true_2 by done.
    destruct (free_full_order st l a Hel Hnd Hord Ha Hv)
      as (N & F1 & F2 & Hl & Hcur & HF1 & HN & _).
    pose proof Hnd as Hnd'. rewrite Hl in Hnd'.
    destruct (requeue_full_spec st1 l a N F1 F2)
      as (st2 & Hrq & HS2 & Hsd2 & Hc2); [done|done|congruence| | |].
    { eapply is_full_frame; [done| |done]. by_nodup Hnd'. }
    { intros b Hb. unfold is_full. rewrite Hf1; [by apply HN|].
      by_nodup Hnd'. }
    pose proof Hsd2 as (_ & _ & _ & _ & Hp2 & _).
    exists st2, l, 0. split; [done|]. split; [done|]. split; [done|].
    left. split; [done|]. exists N, F1, F2. split; [done|].
    split; [by apply Forall_forall|]. split; [done|]. split; [|done].
    apply Shape_slab_list; [done|]. rewrite Hp2, Hpg, <- Hlen, Hl.
    rewrite !length_app. simpl. rewrite !length_app. simpl. lia.
  - (* the slab was PARTIAL *)
    rewrite bool_decide_eq_false_2 by done.
    rewrite (deref_Some _ _ rs1) by done. simpl.
    unfold empty. rewrite Hrsv1, He1.
    destruct (free_partial_order st l a v Hnd Hord Ha Hv ltac:(lia))
      as (E & P1 & R & Hl & HE & HP1 & _).
    destruct (decide (v + 1 = cache_elem st)) as [Hfull|Hpart].
    + rewrite bool_decide_eq_true_2 by done.
      pose proof Hnd as Hnd'. rewrite Hl in Hnd'.
      destruct (requeue_empty_spec st1 l a E P1 R)
        as (st2 & Hrq & Hsd2 & Hnil & Hcons); [done|done| | |].
      { eapply is_empty_frame; [done| |done]. by_nodup Hnd'. }
      { eapply is_partial_frame; [done| |done]. by_nodup Hnd'. }
      pose proof Hsd2 as (_ & _ & _ & _ & Hp2 & _).
      exists st2, l, v. split; [done|]. split; [done|]. split; [done|].
      right. left. split; [lia|]. split; [done|]. exists E, P1, R.
      split; [done|]. split; [done|]. split; [done|].
      destruct (decide (P1 = [])) as [HP|HP].
      * specialize (Hnil HP). subst st2.
        split; [apply Shape_slab_list; [done|congruence]|].
        rewrite decide_False by (by intros [? _]). done.
      * destruct (Hcons HP) as [HS2 Hc2]. split.
        -- apply Shape_slab_list; [done|]. rewrite Hp2, Hpg, <- Hlen, Hl.
           simpl. rewrite !length_app. simpl. lia.
        -- rewrite Hc2, Hc1.
           destruct (decide (a = cache_curr st)) as [H1|H1].
           ++ by rewrite decide_True.
           ++ rewrite decide_False; [done|]. by intros [_ ?].
    + rewrite bool_decide_eq_false_2 by done.
      exists st1, l, v. split; [done|]. split; [done|]. split; [done|].
      right. right. split; [lia|]. split; [lia|]. split; [|done].
      apply Shape_slab_list; [done|congruence].
Qed.

(** ** Allocation undone by release *)

Lemma Slab_free_set_curr st x a p st1 :
  Slab_free st a p = Some st1 →
  Slab_free (set_curr st x) a p = Some (set_curr st1 x).
Proof.
  unfold Slab_free, deref, store. simpl. intros H.
  destruct (if decide (a = 0) then None else mem_slabs st !! a) as [r|];
    [|done].
  simpl in *. case_decide; [done|]. simpl in *. by injection H as <-.
Qed.

Lemma curr_prev_not_full s l r :
  Inv s l → cache_curr (cache s) ≠ 0 →
  mem_slabs (cache s) !! cache_curr (cache s) = Some r → slab_prev r ≠ 0 →
  ∃ q, deref (cache s) (slab_prev r) = Some q ∧ full q = false.
Proof.
  intros HI Hc Hr Hp.
  destruct (curr_neighbours _ _ HI Hc) as (N & F & Hl & HN & HF).
  pose proof (inv_shape _ _ HI) as HS.
  pose proof (s_linked _ _ HS) as Hlk. rewrite Hl in Hlk.
  apply linked_lookup in Hlk as [_ Hlc].
  unfold lnk in Hlc. rewrite Hr in Hlc. simpl in Hlc.
  injection Hlc as Hrp _. rewrite Hrp in *.
  assert (last_or 0 N ∈ N) as Hin.
  { apply last_or_elem. intros ->. by apply Hp. }
  apply not_full_deref.
  - done.
  - apply (Shape_mapped _ _ _ HS). rewrite Hl. apply elem_of_app. by left.
  - apply HN. apply elem_of_app. by left.
Qed.

Lemma curr_empty_prev s l r :
  Inv s l → cache_curr (cache s) ≠ 0 →
  is_empty (cache s) (cache_curr (cache s)) →
  mem_slabs (cache s) !! cache_curr (cache s) = Some r → slab_prev r ≠ 0 →
  ∃ q, deref (cache s) (slab_prev r) = Some q ∧ empty (cache s) q = true.
Proof.
  intros HI Hc Hce Hr Hp. pose proof (inv_shape _ _ HI) as HS.
  destruct (inv_order _ _ HI) as (E & P & F & Hl & HE & HP & HF & Hcur).
  destruct (snoc_cases P) as [->|(P' & x & ->)].
  - rewrite app_nil_r in Hcur. simpl in Hl.
    destruct (snoc_cases E) as [->|(E' & x & ->)]; [done|].
    rewrite last_or_snoc in Hcur. subst x.
    pose proof (s_linked _ _ HS) as Hlk.
    rewrite Hl, <- app_assoc in Hlk. simpl in Hlk.
    apply linked_lookup in Hlk as [_ Hlc].
    unfold lnk in Hlc. rewrite Hr in Hlc. simpl in Hlc.
    injection Hlc as Hrp _. rewrite Hrp in *.
    assert (last_or 0 E' ∈ E') as Hin.
    { apply last_or_elem. intros ->. by apply Hp. }
    destruct (is_empty_deref (cache s) (last_or 0 E')) as (q & Hq & Hiff).
    + done.
    + apply (Shape_mapped _ _ _ HS). rewrite Hl.
      apply elem_of_app. left. apply elem_of_app. by left.
    + exists q. split; [done|]. apply Hiff.
      rewrite Forall_app in HE. destruct HE as [HE _].
      rewrite Forall_forall in HE. by apply HE.
  - exfalso. rewrite app_assoc, last_or_snoc in Hcur. subst x.
    rewrite Forall_app, Forall_singleton in HP.
    destruct HP as [_ (v & Hv & Hvr)].
    unfold is_empty in Hce. rewrite Hv in Hce. injection Hce. lia.
Qed.

Lemma alloc_from_curr_undo s l p st' :
  Inv s l → cache_curr (cache s) ≠ 0 →
  alloc_from_curr (cache s) = Some (p, st') →
  Slab_cache_free st' p = Some (cache s).
Proof.
  intros HI Hc H.
  pose proof (inv_data _ _ HI) as HD.
  pose proof (d_cfg _ _ _ HD) as Hcfg.
  destruct (curr_neighbours _ _ HI Hc) as (N & F & Hl & HN & _).
  assert (cache_curr (cache s) ∈ l) as Hin
    by (rewrite Hl; apply elem_of_app; right; by left).
  destruct (Inv_avail_bounds _ _ _ HI Hin) as (v & Hv & Hvb).
  assert (v ≠ 0) as Hv0.
  { intros ->. apply (HN (cache_curr (cache s))); [|done].
    apply elem_of_app. right. by left. }
  pose proof (elem_fits _ Hcfg) as Hfit.
  destruct (alloc_from_curr_inv _ _ HI Hc)
    as (p' & st'' & H' & _ & Hbuf & _).
  rewrite H in H'. injection H' as <- <-.
  pose proof (Data_buf_base _ _ _ _ _ HD Hin Hbuf) as Hpb.
  pose proof Hv as Hv'. apply avail_at_Some in Hv' as (r & Hr & Hrv).
  unfold alloc_from_curr in H.
  rewrite (deref_Some _ _ r) in H by done. simpl in H.
  destruct (assert (negb (full r))); [|done]. simpl in H.
  destruct (if decide (slab_next r = 0) then _ else _); [|done]. simpl in H.
  destruct (Slab_alloc (cache s) (cache_curr (cache s)))
    as [[ret st2]|] eqn:Halloc; [|done].
  simpl in H.
  unfold Slab_alloc in Halloc.
  rewrite (deref_Some _ _ r) in Halloc by done. simpl in Halloc.
  unfold load in Halloc. case_decide as Hh; [done|].
  destruct (mem_links (cache s) !! slab_head r) as [nx|] eqn:Hnx; [|done].
  simpl in Halloc. injection Halloc as Hret Hst2.
  pose proof (Slab_free_popped _ _ _ _ Hc Hr Hh Hnx ltac:(lia)) as Hundo.
  rewrite Hst2, Hret in Hundo.
  set (r1 := with_head (with_avail r (wrap (slab_avail r - 1))) nx) in *.
  assert (slab_avail r1 = v - 1 ∧ slab_prev r1 = slab_prev r) as [Hr1v Hr1p].
  { unfold r1. simpl. rewrite Hrv. split; [|done]. apply wrap_small. lia. }
  assert (mem_slabs st2 !! cache_curr (cache s) = Some r1
          ∧ cache_curr st2 = cache_curr (cache s)) as [Hm2 Hc2].
  { rewrite <- Hst2. simpl. split; [apply lookup_insert_eq|done]. }
  clearbody r1. clear Hst2.
  rewrite Hc2, (deref_Some _ _ r1) in H by done. simpl in H.
  injection H as Hp Hst'. rewrite Hp in Hundo.
  unfold Slab_cache_free. rewrite Hpb.
  assert (deref st' (cache_curr (cache s)) = Some r1) as ->.
  { apply deref_Some; [done|]. rewrite <- Hst'. by destruct (full r1). }
  simpl.
  assert (Slab_free st' (cache_curr (cache s)) p =
          Some (if full r1 then set_curr (cache s) (slab_prev r1)
                else cache s)) as ->.
  { rewrite <- Hst'. destruct (full r1); [|done].
    by apply Slab_free_set_curr. }
  simpl. unfold full. rewrite Hr1v.
  destruct (decide (v - 1 = 0)) as [Hv1|Hv1].
  - rewrite bool_decide_eq_true_2 by done.
    unfold requeue_full.
    rewrite (deref_Some _ _ r) by done. simpl.
    assert ((if decide (slab_prev r = 0) then Some false
             else q ← deref (set_curr (cache s) (slab_prev r1)) (slab_prev r);
                  Some (full q)) = Some false) as ->.
    { case_decide as Hp'; [done|].
      destruct (curr_prev_not_full _ _ _ HI Hc Hr Hp') as (q & Hq & Hfq).
      apply deref_inv in Hq as [? Hq].
      rewrite (deref_Some _ _ q) by done. simpl. by rewrite Hfq. }
    simpl. f_equal. by apply state_eq.
  - rewrite bool_decide_eq_false_2 by done.
    rewrite (deref_Some _ _ r) by done. simpl.
    unfold empty at 1. rewrite Hrv.
    destruct (decide (v = cache_elem (cache s))) as [Hve|Hve].
    + rewrite bool_decide_eq_true_2 by done.
      unfold requeue_empty. rewrite (deref_Some _ _ r) by done. simpl.
      assert ((if decide (slab_prev r = 0) then Some false
               else q ← deref (cache s) (slab_prev r);
                    Some (negb (empty (cache s) q))) = Some false) as ->.
      { case_decide as Hp'; [done|].
        destruct (curr_empty_prev _ _ r HI Hc) as (q & Hq & Heq);
          [by unfold is_empty; rewrite Hv, Hve|done|done|].
        rewrite Hq. simpl. by rewrite Heq. }
      done.
    + by rewrite bool_decide_eq_false_2.
Qed.

(** X18: a release undoes the allocation before it: [free] of the pointer
    [alloc] just returned gives back the cache as it was at the call of
    [alloc], fields, slab list and free lists alike; when [alloc] had to
    obtain a page, it gives back the cache as [grow] left it. *)
Theorem release_undoes_alloc elem_size elem_align ops s p st' :
  run (fresh elem_size elem_align) ops = Some s →
  Slab_cache_alloc (cache s) = Some (p, st') →
  ∃ st1,
    (if decide (cache_curr (cache s) = 0) then grow (cache s)
     else Some (cache s)) = Some st1 ∧
    Slab_cache_free st' p = Some st1.
Proof.
  intros Hrun Ha.
  destruct (reach_cases _ _ _ _ Hrun) as [[-> He]|[He [l HI]]].
  { unfold fresh in Ha. simpl cache in Ha.
    by rewrite alloc_no_capacity in Ha. }
  rewrite Slab_cache_alloc_unfold in Ha.
  destruct (decide (cache_curr (cache s) = 0)) as [Hc|Hc].
  - destruct (grow_inv _ _ HI Hc) as (st1 & Hg & HI1 & Hc1 & _).
    rewrite Hg in Ha. simpl in Ha. exists st1. split; [done|].
    apply (alloc_from_curr_undo _ _ _ _ HI1); simpl; [|done].
    rewrite Hc1. pose proof (page_nonnull PF (pages_used (cache s))). lia.
  - simpl in Ha. exists (cache s). split; [done|].
    by apply (alloc_from_curr_undo _ _ _ _ HI).
Qed.

(** ** Alignment of the objects *)

Lemma ctor_buff_aligned elem_size elem_align :
  0 ≤ elem_size → 0 < elem_align →
  align_up (align_up elem_size WORD + WORD) elem_align < 2 ^ (8 * WORD) →
  (elem_align | cache_buff (Slab_cache_ctor elem_size elem_align)).
Proof.
  intros Hes Hea Hfit. pose proof (word_pos PF) as HW.
  destruct (align_up_spec elem_size WORD HW) as [_ Hr1].
  destruct (align_up_spec (align_up elem_size WORD + WORD) elem_align Hea)
    as [Hd Hr2].
  simpl. rewrite (wrap_small (align_up elem_size WORD)) by lia.
  rewrite (wrap_small (align_up elem_size WORD + WORD)) by lia.
  by rewrite wrap_small by lia.
Qed.

(** X19: the alignment asked for is honoured when it divides the page
    size: every pointer handed out is then a multiple of the alignment
    given to the constructor. *)
Theorem live_aligned elem_size elem_align ops s p :
  0 ≤ elem_size → 0 < elem_align →
  align_up (align_up elem_size WORD + WORD) elem_align < 2 ^ (8 * WORD) →
  (elem_align | PAGE_SIZE) →
  run (fresh elem_size elem_align) ops = Some s →
  p ∈ live s → (elem_align | p).
Proof.
  intros Hes Hea Hfit Hdiv Hrun Hp.
  destruct (reach_cases _ _ _ _ Hrun) as [[-> He]|[He [l HI]]].
  { by apply elem_of_nil in Hp. }
  destruct (run_grows _ _ _ _ (fresh_inv _ _ He) Hrun)
    as (_ & _ & _ & (_ & Hbf & _) & _).
  unfold fresh in Hbf. simpl cache in Hbf.
  pose proof (ctor_buff_aligned _ _ Hes Hea Hfit) as Hb.
  rewrite <- Hbf in Hb.
  pose proof (inv_data _ _ HI) as HD.
  destruct (d_live _ _ _ HD p Hp) as (a & Ha & i & Hi & ->).
  destruct (Data_slab_addr _ _ _ _ HD Ha) as [_ Hal].
  apply Z.mod_divide in Hal; [|pose proof (PAGE_SIZE_pos (page_bits PF)); lia].
  apply Z.divide_sub_r; [apply Z.divide_add_r|].
  - by apply (Z.divide_trans _ PAGE_SIZE).
  - done.
  - by apply Z.divide_mul_r.
Qed.

(** ** A cache without capacity *)

(** X20: when a buffer is larger than what a page leaves behind the
    [Slab] header ([elem] is 0), the first [alloc] does not return: [grow]
    obtains a page and builds a slab that is FULL from the start, and the
    assertion [!curr->full()] fails. *)
Theorem zero_capacity_aborts elem_size elem_align :
  0 < cache_buff (Slab_cache_ctor elem_size elem_align) →
  cache_elem (Slab_cache_ctor elem_size elem_align) = 0 →
  let st := Slab_cache_ctor elem_size elem_align in
  Slab_cache_alloc st = None ∧
  ∃ st1 c, grow st = Some st1 ∧ pages_used st1 = 1%nat ∧
    deref st1 (cache_curr st1) = Some c ∧ full c = true.
Proof.
  intros _ He st. split; [by apply alloc_no_capacity|].
  pose proof (page_nonnull PF O) as Hp.
  assert (cache_curr st = 0) as Hc by done.
  assert (cache_head st = 0) as Hh by done.
  assert (pages_used st = O) as Hpg by done.
  fold st in He. clearbody st.
  unfold grow, write_next, Slab_ctor.
  rewrite Hpg. simpl. rewrite Hh, He. simpl.
  erewrite deref_Some; [|lia|simpl; apply lookup_insert_eq].
  simpl. eexists _, _. split; [done|]. split; [done|]. simpl.
  split; [apply deref_Some; [lia|simpl; apply lookup_insert_eq]|done].
Qed.

(** ** The link words *)

Lemma Slab_format_dom buff i link h m x :
  is_Some (snd (Slab_format buff i link h m) !! x) →
  is_Some (m !! x) ∨ ∃ k, 0 ≤ k < Z.of_nat i ∧ x = link - k * buff.
Proof.
  revert link h m. induction i as [|i IH]; intros link h m; simpl;
    [by left|].
  intros [Hx|(k & Hk & ->)]%IH.
  - apply lookup_insert_is_Some in Hx as [->|[_ Hx]]; [|by left].
    right. exists 0. split; lia.
  - right. exists (k + 1). split; lia.
Qed.

Lemma grow_links st st1 :
  grow st = Some st1 →
  mem_links st1 =
  snd (Slab_format (cache_buff st) (Z.to_nat (cache_elem st))
         (page_at (pages_used st) + PAGE_SIZE - cache_buff st + cache_size st)
         0 (mem_links st)).
Proof.
  unfold grow, write_prev, write_next. intros H.
  repeat (case_decide || simplify_option_eq); done.
Qed.

Lemma alloc_from_curr_links st p st' :
  alloc_from_curr st = Some (p, st') → mem_links st' = mem_links st.
Proof.
  unfold alloc_from_curr. intros H.
  destruct (deref st (cache_curr st)) as [c|]; [|done]. simpl in H.
  destruct (assert _); [|done]. simpl in H.
  destruct (if decide (slab_next c = 0) then _ else _); [|done]. simpl in H.
  destruct (Slab_alloc st (cache_curr st)) as [[ret st2]|] eqn:H2; [|done].
  simpl in H. destruct (deref st2 (cache_curr st2)) as [c2|]; [|done].
  simpl in H. injection H as _ <-.
  assert (mem_links st2 = mem_links st) as <-.
  { unfold Slab_alloc in H2. destruct (deref st (cache_curr st)); [|done].
    simpl in H2. destruct (load _ _); [|done]. simpl in H2.
    by injection H2 as _ <-. }
  by destruct (full c2).
Qed.

Lemma Slab_cache_free_links st p st' :
  Slab_cache_free st p = Some st' →
  ∃ v, mem_links st' = <[p + cache_size st := v]> (mem_links st).
Proof.
  intros H. destruct (Slab_cache_free_split _ _ _ H) as (st1 & H1 & Hsd).
  destruct Hsd as (_ & _ & _ & Hl & _).
  unfold Slab_free, store in H1.
  destruct (deref st (page_base p)) as [r|]; [|done]. simpl in H1.
  case_decide; [done|]. simpl in H1. injection H1 as <-.
  rewrite Hl. simpl. eauto.
Qed.

Lemma run_links s l ops s' :
  Inv s l →
  (∀ x, is_Some (mem_links (cache s) !! x) →
     ∃ a p, a ∈ l ∧ is_buf (cache s) a p ∧ x = p + cache_size (cache s)) →
  run s ops = Some s' →
  ∃ l', Inv s' l' ∧
    ∀ x, is_Some (mem_links (cache s') !! x) →
      ∃ a p, a ∈ l' ∧ is_buf (cache s') a p ∧ x = p + cache_size (cache s').
Proof.
  revert s l. induction ops as [|o ops IH]; intros s l HI HJ Hrun.
  { injection Hrun as <-. by exists l. }
  simpl in Hrun. destruct (step s o) as [s1|] eqn:Hs; [|done].
  simpl in Hrun. destruct o as [|p]; simpl in Hs.
  - destruct (alloc_inv _ _ HI)
      as (q & st' & l' & Ha & HI' & Hl' & _).
    rewrite Ha in Hs. simpl in Hs. injection Hs as <-.
    apply (IH _ _ HI'); [|done]. simpl.
    pose proof (Slab_cache_alloc_cfg _ _ _ Ha) as (Hsz & Hbf & Hel).
    assert (∀ a p, is_buf (cache s) a p → is_buf st' a p) as Hbuf.
    { intros a p (i & Hi & ->). exists i. by rewrite Hel, Hbf. }
    rewrite Hsz. rewrite Slab_cache_alloc_unfold in Ha.
    intros x Hx. destruct (decide (cache_curr (cache s) = 0)) as [Hc|Hc].
    + destruct (grow (cache s)) as [st1|] eqn:Hg; [|done]. simpl in Ha.
      apply alloc_from_curr_links in Ha. rewrite Ha, (grow_links _ _ Hg) in Hx.
      apply Slab_format_dom in Hx as [Hx|(k & Hk & ->)].
      * destruct (HJ x Hx) as (a & p & Hal & Hp & ->).
        exists a, p. rewrite Hl'. split; [by right|]. split; [|done].
        by apply Hbuf.
      * pose proof (d_cfg _ _ _ (inv_data _ _ HI)) as (_ & _ & He & _).
        exists (page_at (pages_used (cache s))),
          (page_at (pages_used (cache s)) + PAGE_SIZE
           - (k + 1) * cache_buff (cache s)).
        rewrite Hl'. split; [by left|]. split; [|lia].
        apply Hbuf. exists k. split; [lia|done].
    + simpl in Ha. apply alloc_from_curr_links in Ha. rewrite Ha in Hx.
      destruct (HJ x Hx) as (a & p & Hal & Hp & ->).
      exists a, p. rewrite Hl'. split; [done|]. split; [|done].
      by apply Hbuf.
  - case_decide as Hp; [|done].
    destruct (free_inv _ _ _ HI Hp) as (st' & l' & Hf & HI' & Hl' & _).
    rewrite Hf in Hs. simpl in Hs. injection Hs as <-.
    apply (IH _ _ HI'); [|done]. simpl.
    pose proof (Slab_cache_free_cfg _ _ _ Hf) as (Hsz & Hbf & Hel).
    assert (∀ a p, is_buf (cache s) a p → is_buf st' a p) as Hbuf.
    { intros a q (i & Hi & ->). exists i. by rewrite Hel, Hbf. }
    rewrite Hsz. destruct (Slab_cache_free_links _ _ _ Hf) as (v & Hlk).
    intros x Hx. rewrite Hlk in Hx.
    apply lookup_insert_is_Some in Hx as [<-|[_ Hx]].
    + destruct (d_live _ _ _ (inv_data _ _ HI) p Hp) as (a & Hal & Hpa).
      exists a, p. rewrite Hl'. split; [done|]. split; [|done].
      by apply Hbuf.
    + destruct (HJ x Hx) as (a & q & Hal & Hq & ->).
      exists a, q. rewrite Hl'. split; [done|]. split; [|done].
      by apply Hbuf.
Qed.

(** X21: the allocator writes into its pages nothing but link words of
    buffers: every word it has written since the constructor is the link
    word, [size] bytes into the buffer, of a buffer of one of its slabs. *)
Theorem links_within_buffers elem_size elem_align ops s x :
  run (fresh elem_size elem_align) ops = Some s →
  is_Some (mem_links (cache s) !! x) →
  ∃ a p, is_Some (deref (cache s) a) ∧ is_buf (cache s) a p ∧
         x = p + cache_size (cache s).
Proof.
  intros Hrun Hx.
  destruct (reach_cases _ _ _ _ Hrun) as [[-> He]|[He _]].
  { simpl in Hx. rewrite lookup_empty in Hx. by destruct Hx. }
  destruct (run_links _ _ _ _ (fresh_inv _ _ He)
              ltac:(by intros y [? Hy]; simpl in Hy; rewrite lookup_empty in Hy)
              Hrun) as (l & HI & HJ).
  destruct (HJ x Hx) as (a & p & Ha & Hp & ->).
  exists a, p. split; [|done].
  destruct (Shape_mapped _ _ _ (inv_shape _ _ HI) Ha) as [r Hr].
  exists r. apply deref_Some; [|done]. by eapply Inv_nonnull.
Qed.

End Allocator.

(** ** The registry of caches *)

Lemma registry_fold cs :
  let reg := foldl Slab_cache_register registry_init cs in
  Slab_cache_first reg = last_or 0 cs ∧
  (NoDup cs → ∀ l1 x l2, cs = l1 ++ x :: l2 →
     Slab_cache_next reg !! x = Some (last_or 0 l1)).
Proof.
  induction cs as [|c cs [IH1 IH2]] using rev_ind.
  { split; [done|]. intros _ l1 x l2 H. by destruct l1. }
  rewrite foldl_app. simpl. split; [by rewrite last_or_snoc|].
  intros (Hnd & Hc & _)%NoDup_app l1 x l2 H.
  destruct (snoc_cases l2) as [->|(l2' & y & ->)].
  - apply app_inj_tail in H as [-> ->].
    by rewrite lookup_insert_eq, IH1.
  - change (l1 ++ x :: l2' ++ [y]) with (l1 ++ (x :: l2') ++ [y]) in H.
    rewrite app_assoc in H. apply app_inj_tail in H as [-> ->].
    rewrite lookup_insert_ne; [by apply (IH2 Hnd l1 x l2')|].
    intros ->. apply (Hc x); [|by left].
    apply elem_of_app. right. by left.
Qed.

Lemma all_stats_loop_prefix reg cs :
  (∀ c, c ∈ cs → c ≠ 0) →
  (∀ l1 x l2, cs = l1 ++ x :: l2 →
     Slab_cache_next reg !! x = Some (last_or 0 l1)) →
  ∀ l1 l2, cs = l1 ++ l2 →
    all_stats_loop (length l1) reg (last_or 0 l1) = Some (reverse l1).
Proof.
  intros Hnz Hnext l1. induction l1 as [|x l1 IH] using rev_ind;
    intros l2 H; [done|].
  rewrite last_or_snoc, length_app, Nat.add_1_r, reverse_snoc. simpl.
  rewrite <- app_assoc in H. simpl in H.
  rewrite decide_False.
  - rewrite (Hnext _ _ _ H). simpl. by rewrite (IH _ H).
  - apply Hnz. rewrite H. apply elem_of_app. right. by left.
Qed.

Lemma all_stats_loop_cycle reg (cyc : list Z) :
  (∀ x, x ∈ cyc → x ≠ 0 ∧
     ∃ y, Slab_cache_next reg !! x = Some y ∧ y ∈ cyc) →
  ∀ fuel x, x ∈ cyc → all_stats_loop fuel reg x = None.
Proof.
  intros HS fuel. induction fuel as [|fuel IH]; intros x Hx;
    destruct (HS x Hx) as (Hx0 & y & Hy & HyS); simpl;
    rewrite decide_False by done; [done|].
  rewrite Hy. simpl. by rewrite IH.
Qed.

(** X16: the caches are chained in the order of their construction, the
    latest first: after the constructors of caches at distinct non-null
    addresses, [print_all_stats] ends and calls [print_stats] on every
    cache exactly once, the cache constructed last first. *)
Theorem print_all_stats_order cs :
  NoDup cs → (∀ c, c ∈ cs → c ≠ 0) →
  print_all_stats (length cs) (foldl Slab_cache_register registry_init cs) =
  Some (reverse cs).
Proof.
  intros Hnd Hnz. destruct (registry_fold cs) as [Hf Hn].
  unfold print_all_stats. rewrite Hf.
  apply (all_stats_loop_prefix _ cs Hnz (Hn Hnd) cs []).
  by rewrite app_nil_r.
Qed.

Lemma all_stats_at_cycle reg (cyc : list Z) :
  (∀ x, x ∈ cyc → x ≠ 0 ∧
     ∃ y, Slab_cache_next reg !! x = Some y ∧ y ∈ cyc) →
  ∀ n x, x ∈ cyc → ∃ y, all_stats_at n reg x = Some y ∧ y ∈ cyc.
Proof.
  intros HS n. induction n as [|n IH]; intros x Hx; [by exists x|].
  destruct (HS x Hx) as (Hx0 & y & Hy & HyS). simpl.
  rewrite decide_False by done. rewrite Hy. simpl. by apply IH.
Qed.

(** X17: nothing takes a cache out of the chain, and the constructor does
    not look whether the cache is in it: constructing a cache again at an
    address that is in the chain ties the chain into a cycle.  The loop
    of [print_all_stats] starts at that cache and is back at it after as
    many rounds as caches were constructed since its first construction;
    in every round its variable is one of the constructed caches, never
    null and never an address without a cache; so the loop does not
    end. *)
Theorem registered_twice_cycles cs c :
  NoDup cs → (∀ x, x ∈ cs → x ≠ 0) → c ∈ cs →
  let reg :=
    Slab_cache_register (foldl Slab_cache_register registry_init cs) c in
  Slab_cache_first reg = c ∧
  (∃ k, (0 < k ≤ length cs)%nat ∧ all_stats_at k reg c = Some c) ∧
  (∀ n, ∃ x, all_stats_at n reg (Slab_cache_first reg) = Some x ∧
             x ≠ 0 ∧ x ∈ cs) ∧
  ∀ fuel, print_all_stats fuel reg = None.
Proof.
  intros Hnd Hnz Hc reg. destruct (registry_fold cs) as [Hf Hn].
  specialize (Hn Hnd).
  apply list_elem_of_split in Hc as (l1 & l2 & ->).
  assert (c ∉ l2) as Hcl2.
  { apply NoDup_app in Hnd as (_ & _ & [? _]%NoDup_cons). done. }
  assert (c ≠ 0) as Hc0.
  { apply Hnz, elem_of_app. right. by left. }
  assert (Slab_cache_next reg !! c = Some (last_or c l2)) as Hnc.
  { unfold reg. simpl. rewrite lookup_insert_eq, Hf.
    by rewrite last_or_app. }
  assert (∀ k1 x k2, l2 = k1 ++ x :: k2 →
            Slab_cache_next reg !! x = Some (last_or c k1)) as Hnx.
  { intros k1 x k2 ->. unfold reg. simpl.
    rewrite lookup_insert_ne.
    - rewrite (Hn (l1 ++ c :: k1) x k2) by (by rewrite <- app_assoc).
      by rewrite last_or_app.
    - intros ->. apply Hcl2, elem_of_app. right. by left. }
  assert (∀ x, x ∈ c :: l2 → x ≠ 0 ∧
            ∃ y, Slab_cache_next reg !! x = Some y ∧ y ∈ c :: l2) as Hcyc.
  { intros x Hx. split.
    { apply Hnz, elem_of_app. by right. }
    apply elem_of_cons in Hx as [->|Hx].
    - rewrite Hnc. eexists. split; [done|].
      destruct l2 as [|y l2]; [by left|]. right.
      apply (last_or_elem c (y :: l2)). done.
    - apply list_elem_of_split in Hx as (k1 & k2 & ->).
      rewrite (Hnx k1 x k2 eq_refl). eexists. split; [done|].
      destruct k1 as [|y k1]; [by left|]. right.
      apply elem_of_app. left. apply (last_or_elem c (y :: k1)). done. }
  assert (Slab_cache_first reg = c) as Hfirst by done.
  clearbody reg. rewrite Hfirst.
  split; [done|]. split; [|split].
  - exists (S (length l2)). split.
    { rewrite length_app. simpl. lia. }
    simpl. rewrite decide_False by done. rewrite Hnc. simpl.
    assert (∀ k1 k2, l2 = k1 ++ k2 →
              all_stats_at (length k1) reg (last_or c k1) = Some c) as Hback.
    { intros k1. induction k1 as [|x k1 IH] using rev_ind;
        intros k2 H; [done|].
      rewrite <- app_assoc in H. simpl in H.
      rewrite last_or_snoc, length_app, Nat.add_1_r. simpl.
      rewrite decide_False.
      - rewrite (Hnx _ _ _ H). simpl. by apply (IH (x :: k2)).
      - apply Hnz. rewrite H. apply elem_of_app. right. right.
        apply elem_of_app. right. by left. }
    apply (Hback l2 []). by rewrite app_nil_r.
  - intros n.
    destruct (all_stats_at_cycle reg (c :: l2) Hcyc n c) as (y & Hy & Hin);
      [by left|].
    exists y. split; [done|].
    assert (y ∈ l1 ++ c :: l2) as Hin' by (apply elem_of_app; by right).
    split; [by apply Hnz|done].
  - intros fuel. unfold print_all_stats. rewrite Hfirst.
    apply (all_stats_loop_cycle _ (c :: l2)); [done|by left].
Qed.

(** ** A concrete platform

    64-bit words ([WORD = 8]), 4 KiB pages ([PAGE_BITS = 12]), a [Slab]
    header of five words ([SLAB_SIZE = 40]) and the page provider
    [pages64]. *)

Lemma platform64_ok : platform_ok 12 8 40 pages64.
Proof.
  split.
  - lia.
  - lia.
  - by vm_compute.
  - by vm_compute.
  - intros n. unfold pages64. lia.
  - intros n. unfold pages64. change (PAGE_SIZE 12) with 4096.
    rewrite Z.mul_comm. apply Z.mod_mul. lia.
  - intros n m. unfold pages64. lia.
Qed.

Example five_allocs_live :
  live <$> run 12 8 pages64 (fresh 12 8 40 1000 8) five_allocs =
  Some [8256; 7184; 6176; 5168; 4160].
Proof. by vm_compute. Qed.

(** C1, counterexample: after five allocations and the release of a
    pointer of the first slab, [curr] is the slab at 4096; its neighbour
    on the side of [head] is the slab at 8192, which is PARTIAL. *)
Lemma head_side_full_counterexample :
  ∃ s, run 12 8 pages64 (fresh 12 8 40 1000 8) (five_allocs ++ [Free 5168])
       = Some s ∧
       ¬ head_side_full (cache s).
Proof.
  eexists. split; [by vm_compute|].
  intros H. edestruct H as (n & Hn & Hf).
  - by vm_compute.
  - by vm_compute.
  - vm_compute in Hn. injection Hn as <-. by vm_compute in Hf.
Qed.

Lemma cursor_invariant_witness :
  ∃ s, run 12 8 pages64 (fresh 12 8 40 1000 8) (five_allocs ++ [Free 5168])
       = Some s ∧
       cache_curr (cache s) ≠ 0 ∧
       ∃ c, deref (cache s) (cache_curr (cache s)) = Some c ∧
         full c = false ∧
         (slab_next c ≠ 0 →
          ∃ n, deref (cache s) (slab_next c) = Some n ∧ full n = true) ∧
         (slab_prev c ≠ 0 →
          ∃ q, deref (cache s) (slab_prev c) = Some q ∧ full q = false).
Proof.
  eexists. split; [by vm_compute|]. split; [by vm_compute|].
  apply (cursor_invariant 12 8 40 pages64 platform64_ok 1000 8
           (five_allocs ++ [Free 5168])).
  - by vm_compute.
  - by vm_compute.
Defined.

Lemma conservation_witness :
  ∃ s, run 12 8 pages64 (fresh 12 8 40 1000 8) (five_allocs ++ [Free 5168])
       = Some s ∧
       ∃ l, slab_list (cache s) = Some l ∧
         used (cache s) l =
           Z.of_nat (count_allocs (five_allocs ++ [Free 5168])) -
           Z.of_nat (count_frees (five_allocs ++ [Free 5168])) ∧
         print_stats 8 (pages_used (cache s)) (cache s) =
           Some (wrap 8 (Z.of_nat (length l)),
                 wrap 8
                   (Z.of_nat (count_allocs (five_allocs ++ [Free 5168])) -
                    Z.of_nat (count_frees (five_allocs ++ [Free 5168])))).
Proof.
  eexists. split; [by vm_compute|].
  apply (conservation 12 8 40 pages64 platform64_ok 1000 8
           (five_allocs ++ [Free 5168])).
  by vm_compute.
Defined.

(** C3, counterexample: with the slab at 4096 current and PARTIAL, the
    pointer 8256 of the slab at 8192 is released; the next allocation is
    served from the slab at 4096 and returns 5168. *)
Lemma next_alloc_returns_counterexample :
  ∃ s, run 12 8 pages64 (fresh 12 8 40 1000 8) (five_allocs ++ [Free 5168])
       = Some s ∧
       8256 ∈ live s ∧
       ¬ next_alloc_returns 12 8 pages64 (cache s) 8256.
Proof.
  eexists. split; [by vm_compute|]. split; [compute_done|].
  intros H. edestruct H as (st'' & Ha).
  - by vm_compute.
  - vm_compute in Ha. discriminate Ha.
Qed.

Lemma lifo_reuse_witness :
  ∃ s, run 12 8 pages64 (fresh 12 8 40 1000 8) five_allocs = Some s ∧
       5168 ∈ live s ∧
       ∃ st' q st'',
         Slab_cache_free 12 8 (cache s) 5168 = Some st' ∧
         Slab_cache_alloc 12 8 pages64 st' = Some (q, st'') ∧
         (q = 5168 ↔ cache_curr st' = page_base 12 5168) ∧
         (∀ r, deref (cache s) (page_base 12 5168) = Some r →
               full r = true → q = 5168).
Proof.
  eexists. split; [by vm_compute|]. split; [compute_done|].
  apply (lifo_reuse 12 8 40 pages64 platform64_ok 1000 8 five_allocs).
  - by vm_compute.
  - compute_done.
Defined.

Lemma empty_prefix_witness :
  ∃ s, run 12 8 pages64 (fresh 12 8 40 1000 8) (five_allocs ++ [Free 8256])
       = Some s ∧
       ∃ l, slab_list (cache s) = Some l ∧
         (∃ E R, l = E ++ R ∧ Forall (is_empty (cache s)) E ∧
                 Forall (λ a, ¬ is_empty (cache s) a) R) ∧
         (∀ (i j : nat) f e, (i < j)%nat → l !! i = Some f →
            l !! j = Some e → is_full (cache s) f → ¬ is_empty (cache s) e).
Proof.
  eexists. split; [by vm_compute|].
  apply (empty_prefix 12 8 40 pages64 platform64_ok 1000 8
           (five_allocs ++ [Free 8256])).
  by vm_compute.
Defined.

Lemma owner_recovery_witness :
  ∃ s, run 12 8 pages64 (fresh 12 8 40 1000 8) five_allocs = Some s ∧
    (∀ a p st', Slab_alloc 8 (cache s) a = Some (p, st') →
       a ≤ p ∧ p + cache_buff (cache s) ≤ a + PAGE_SIZE 12 ∧
       page_base 12 p = a) ∧
    (∀ p st', Slab_cache_alloc 12 8 pages64 (cache s) = Some (p, st') →
       ∃ st1 st2,
         (if decide (cache_curr (cache s) = 0) then grow 12 pages64 (cache s)
          else Some (cache s)) = Some st1 ∧
         Slab_alloc 8 st1 (cache_curr st1) = Some (p, st2) ∧
         page_base 12 p = cache_curr st1) ∧
    (∀ p, p ∈ live s →
       is_Some (deref (cache s) (page_base 12 p)) ∧
       is_buf 12 (cache s) (page_base 12 p) p).
Proof.
  eexists. split; [by vm_compute|].
  apply (owner_recovery 12 8 40 pages64 platform64_ok 1000 8 five_allocs).
  by vm_compute.
Defined.

Lemma fresh_slab_capacity_witness :
  let st := Slab_cache_ctor 12 8 40 1000 8 in
  (0 ≤ cache_size st ∧ 0 < cache_buff st ∧ 0 ≤ cache_elem st ∧
   cache_elem st * cache_buff st ≤ PAGE_SIZE 12 ∧ 0 < 4096) ∧
  let st0 := Slab_ctor 12 st 4096 in
  (∃ r, deref st0 4096 = Some r ∧ slab_avail r = cache_elem st ∧
        empty st0 r = true) ∧
  ∃ ps st',
    Slab_alloc_n 8 (Z.to_nat (cache_elem st)) st0 4096 = Some (ps, st') ∧
    Z.of_nat (length ps) = cache_elem st ∧ NoDup ps ∧
    (∀ p, p ∈ ps → is_buf 12 st 4096 p) ∧
    (∃ r, deref st' 4096 = Some r ∧ slab_avail r = 0 ∧ full r = true) ∧
    Slab_alloc 8 st' 4096 = None.
Proof.
  intros st. split; [by vm_compute|].
  apply (fresh_slab_capacity 12 8 40 pages64 platform64_ok st 4096);
    by vm_compute.
Defined.

(** C7, counterexample: objects of 5000 bytes do not fit a page of 4096
    bytes, the slabs of their cache have no buffer, and allocate on the
    new cache does not return: the slab [grow] builds is FULL and the
    assertion on [curr] fails. *)
Lemma alloc_always_returns_counterexample :
  ∃ s, run 12 8 pages64 (fresh 12 8 40 5000 8) [] = Some s ∧
       0 < cache_buff (cache s) ∧ cache_elem (cache s) = 0 ∧
       ¬ alloc_always_returns 12 8 pages64 (cache s).
Proof.
  eexists. split; [by vm_compute|]. split; [by vm_compute|].
  split; [by vm_compute|].
  intros (p & st' & H). vm_compute in H. discriminate H.
Qed.

Lemma grow_iff_curr_null_witness :
  0 < cache_elem (Slab_cache_ctor 12 8 40 1000 8) ∧
  ∃ s, run 12 8 pages64 (fresh 12 8 40 1000 8) [Alloc; Alloc; Alloc; Alloc]
       = Some s ∧
    cache_curr (cache s) = 0 ∧ cache_head (cache s) ≠ 0 ∧
    (∃ p st', Slab_cache_alloc 12 8 pages64 (cache s) = Some (p, st') ∧
       (cache_curr (cache s) = 0 ∧
          pages_used st' = S (pages_used (cache s)) ∨
        cache_curr (cache s) ≠ 0 ∧ pages_used st' = pages_used (cache s))) ∧
    (cache_curr (cache s) = 0 →
     let slab := pages64 (pages_used (cache s)) in
     ∃ st1, grow 12 pages64 (cache s) = Some st1 ∧
       pages_used st1 = S (pages_used (cache s)) ∧
       cache_head st1 = slab ∧ cache_curr st1 = slab ∧ is_empty st1 slab ∧
       lnk (mem_slabs st1) slab = Some (0, cache_head (cache s)) ∧
       (cache_head (cache s) ≠ 0 →
        ∃ n, lnk (mem_slabs st1) (cache_head (cache s)) = Some (slab, n))) ∧
    (∀ p, p ∈ live s →
     ∃ st', Slab_cache_free 12 8 (cache s) p = Some st' ∧
       pages_used st' = pages_used (cache s)).
Proof.
  split; [by vm_compute|].
  eexists. split; [by vm_compute|].
  split; [by vm_compute|]. split; [by vm_compute|].
  apply (grow_iff_curr_null 12 8 40 pages64 platform64_ok 1000 8
           [Alloc; Alloc; Alloc; Alloc]).
  - by vm_compute.
  - by vm_compute.
Defined.

(** The geometry of the scenario of the specification: objects of 24
    bytes aligned to 8 have a stride of 32 bytes, 126 to a slab. *)
Example ctor_scenario :
  let st := Slab_cache_ctor 12 8 40 24 8 in
  cache_size st = 24 ∧ cache_buff st = 32 ∧ cache_elem st = 126.
Proof. by vm_compute. Qed.

(** C8, counterexample: the element size [2 ^ 64 - 1] is an
    [unsigned long] of 64 bits; rounding it up to the word size wraps
    around, and the constructor stores the size 0. *)
Lemma ctor_as_specified_counterexample :
  (0 ≤ 2 ^ 64 - 1 < 2 ^ (8 * 8) ∧ 0 < 8 < 2 ^ 32) ∧
  cache_size (Slab_cache_ctor 12 8 40 (2 ^ 64 - 1) 8) = 0 ∧
  align_up (2 ^ 64 - 1) 8 = 2 ^ 64 ∧
  ¬ ctor_as_specified 12 8 40 (2 ^ 64 - 1) 8.
Proof.
  split; [by vm_compute|]. split; [by vm_compute|]. split; [by vm_compute|].
  intros (Hsize & _). vm_compute in Hsize. discriminate Hsize.
Qed.

Lemma ctor_geometry_witness :
  (0 ≤ 24 ∧ 0 < 8 ∧ align_up (align_up 24 8 + 8) 8 < 2 ^ (8 * 8)) ∧
  let st := Slab_cache_ctor 12 8 40 24 8 in
  (cache_size st = align_up 24 8 ∧
   (8 | cache_size st) ∧ 24 ≤ cache_size st < 24 + 8) ∧
  (cache_buff st = align_up (cache_size st + 8) 8 ∧
   (8 | cache_buff st) ∧
   cache_size st + 8 ≤ cache_buff st < cache_size st + 8 + 8) ∧
  (cache_elem st = (PAGE_SIZE 12 - 40) / cache_buff st ∧
   cache_elem st * cache_buff st ≤ PAGE_SIZE 12 - 40
     < (cache_elem st + 1) * cache_buff st).
Proof.
  split; [by vm_compute|].
  apply (ctor_geometry 12 8 40 pages64 platform64_ok 24 8); by vm_compute.
Defined.

Lemma live_distinct_witness :
  ∃ s, run 12 8 pages64 (fresh 12 8 40 1000 8) five_allocs = Some s ∧
       NoDup (live s).
Proof.
  eexists. split; [by vm_compute|].
  apply (live_distinct 12 8 40 pages64 platform64_ok 1000 8 five_allocs).
  by vm_compute.
Defined.

Lemma free_dereferences_witness :
  ∃ s, run 12 8 pages64 (fresh 12 8 40 1000 8) nine_allocs = Some s ∧
    5168 ∈ live s ∧
    let slab := page_base 12 5168 in
    (∃ st', Slab_cache_free 12 8 (cache s) 5168 = Some st') ∧
    ∃ r st1 r1,
      deref (cache s) slab = Some r ∧
      Slab_free 8 (cache s) slab 5168 = Some st1 ∧
      deref st1 slab = Some r1 ∧
      (full r = true → slab_prev r1 ≠ 0 →
       ∀ rp, deref st1 (slab_prev r1) = Some rp → full rp = true →
       ∃ st2, dequeue st1 slab = Some st2 ∧
         (cache_curr st2 ≠ 0 → after_curr_safe st2) ∧
         (cache_curr st2 = 0 → as_head_safe st2)) ∧
      (full r = false → empty st1 r1 = true → slab_prev r1 ≠ 0 →
       ∀ rp, deref st1 (slab_prev r1) = Some rp → empty st1 rp = false →
       ∃ st2,
         dequeue (if decide (slab = cache_curr st1)
                  then set_curr st1 (slab_prev r1) else st1) slab = Some st2 ∧
         as_head_safe st2).
Proof.
  eexists. split; [by vm_compute|]. split; [compute_done|].
  apply (free_dereferences 12 8 40 pages64 platform64_ok 1000 8 nine_allocs).
  - by vm_compute.
  - compute_done.
Defined.


(** ** The scenarios of the specification *)

(** Objects of 24 bytes aligned to 8, pages of 4096 bytes: 126 allocations
    grow the cache once and leave [curr] null; the fifth pointer handed
    out is 4288. *)
Example scenario_fill :
  (λ s, (pages_used (cache s), cache_curr (cache s), nth 121 (live s) 0))
    <$> run 12 8 pages64 (fresh 12 8 40 24 8) fill_one_slab =
  Some (1%nat, 0, 4288).
Proof. by vm_compute. Qed.

(** After the release of the fifth pointer [curr] is its slab, and the
    next allocation returns that pointer without growing the cache. *)
Example scenario_release :
  (λ s, (pages_used (cache s), cache_curr (cache s)))
    <$> run 12 8 pages64 (fresh 12 8 40 24 8) (fill_one_slab ++ [Free 4288])
  = Some (1%nat, 4096).
Proof. by vm_compute. Qed.

Example scenario_reuse :
  (λ s, (pages_used (cache s), hd 0 (live s)))
    <$> run 12 8 pages64 (fresh 12 8 40 24 8)
          (fill_one_slab ++ [Free 4288; Alloc]) =
  Some (1%nat, 4288).
Proof. by vm_compute. Qed.

(** Two slabs are filled, then every object of the first slab is
    released: the slab at 4096 is EMPTY and stands ahead of the slab at
    8192 in the traversal. *)
Example scenario_segregation :
  (λ s, (slab_list (cache s), avail_at (cache s) 4096,
         avail_at (cache s) 8192))
    <$> run 12 8 pages64 (fresh 12 8 40 1000 8)
          (replicate 8 Alloc ++ [Free 4160; Free 5168; Free 6176; Free 7184])
  = Some (Some [4096; 8192], Some 4, Some 0).
Proof. by vm_compute. Qed.

(** ** The further properties at concrete inputs *)

Lemma list_well_formed_witness :
  ∃ s, run 12 8 pages64 (fresh 12 8 40 1000 8) nine_allocs = Some s ∧
    ∃ l, slab_list (cache s) = Some l ∧ NoDup l ∧
      length l = pages_used (cache s) ∧
      (∀ a, a ∈ l ↔ is_Some (deref (cache s) a)) ∧
      ∀ a r, deref (cache s) a = Some r →
        (slab_next r ≠ 0 →
         ∃ n, deref (cache s) (slab_next r) = Some n ∧ slab_prev n = a) ∧
        (slab_prev r ≠ 0 →
         ∃ q, deref (cache s) (slab_prev r) = Some q ∧ slab_next q = a) ∧
        (slab_prev r = 0 ↔ a = cache_head (cache s)).
Proof.
  eexists. split; [by vm_compute|].
  apply (list_well_formed 12 8 40 pages64 platform64_ok 1000 8 nine_allocs).
  by vm_compute.
Defined.

Lemma cursor_partition_witness :
  ∃ s, run 12 8 pages64 (fresh 12 8 40 1000 8) (nine_allocs ++ [Free 5168])
       = Some s ∧
    ∃ N F, slab_list (cache s) = Some (N ++ F) ∧
      Forall (λ a, ¬ is_full (cache s) a) N ∧
      Forall (is_full (cache s)) F ∧
      cache_curr (cache s) = last_or 0 N ∧
      (cache_curr (cache s) = 0 ↔ N = []).
Proof.
  eexists. split; [by vm_compute|].
  apply (cursor_partition 12 8 40 pages64 platform64_ok 1000 8
           (nine_allocs ++ [Free 5168])).
  by vm_compute.
Defined.

Lemma capacity_bound_witness :
  ∃ s, run 12 8 pages64 (fresh 12 8 40 1000 8) five_allocs = Some s ∧
    let cap := cache_elem (cache s) * Z.of_nat (pages_used (cache s)) in
    Z.of_nat (length (live s)) ≤ cap ∧
    (cache_curr (cache s) = 0 ↔ Z.of_nat (length (live s)) = cap) ∧
    ∀ p st', Slab_cache_alloc 12 8 pages64 (cache s) = Some (p, st') →
      (pages_used st' = S (pages_used (cache s)) ∧
       Z.of_nat (length (live s)) = cap) ∨
      (pages_used st' = pages_used (cache s) ∧
       Z.of_nat (length (live s)) < cap).
Proof.
  eexists. split; [by vm_compute|].
  apply (capacity_bound 12 8 40 pages64 platform64_ok 1000 8 five_allocs).
  by vm_compute.
Defined.

Lemma free_leaves_room_witness :
  ∃ s, run 12 8 pages64 (fresh 12 8 40 1000 8) [Alloc; Alloc; Alloc; Alloc]
       = Some s ∧
    5168 ∈ live s ∧
    ∃ st' q st'',
      Slab_cache_free 12 8 (cache s) 5168 = Some st' ∧ cache_curr st' ≠ 0 ∧
      Slab_cache_alloc 12 8 pages64 st' = Some (q, st'') ∧
      page_base 12 q = cache_curr st' ∧ is_buf 12 st' (cache_curr st') q ∧
      pages_used st'' = pages_used (cache s).
Proof.
  eexists. split; [by vm_compute|]. split; [compute_done|].
  apply (free_leaves_room 12 8 40 pages64 platform64_ok 1000 8
           [Alloc; Alloc; Alloc; Alloc]).
  - by vm_compute.
  - compute_done.
Defined.

Lemma pages_never_returned_witness :
  ∃ s s', run 12 8 pages64 (fresh 12 8 40 1000 8) five_allocs = Some s ∧
    run 12 8 pages64 s [Free 8256; Free 4160; Alloc] = Some s' ∧
    (∀ a, is_Some (deref (cache s) a) → is_Some (deref (cache s') a)) ∧
    (pages_used (cache s) ≤ pages_used (cache s')
       ≤ pages_used (cache s) + count_allocs [Free 8256; Free 4160; Alloc])%nat ∧
    same_cfg (Slab_cache_ctor 12 8 40 1000 8) (cache s').
Proof.
  do 2 eexists. split; [by vm_compute|]. split; [by vm_compute|].
  apply (pages_never_returned 12 8 40 pages64 platform64_ok 1000 8
           five_allocs [Free 8256; Free 4160; Alloc]).
  - by vm_compute.
  - by vm_compute.
Defined.

Lemma live_ranges_disjoint_witness :
  (0 ≤ 1000 ∧ 0 < 8 ∧
   align_up (align_up 1000 8 + 8) 8 < 2 ^ (8 * 8)) ∧
  ∃ s, run 12 8 pages64 (fresh 12 8 40 1000 8) five_allocs = Some s ∧
    let st := cache s in
    (∀ p, p ∈ live s →
       page_base 12 p + 40 ≤ p ∧
       p + cache_size st + 8 ≤ p + cache_buff st ∧
       p + cache_buff st ≤ page_base 12 p + PAGE_SIZE 12) ∧
    (∀ p q, p ∈ live s → q ∈ live s → p ≠ q →
       p + cache_buff st ≤ q ∨ q + cache_buff st ≤ p).
Proof.
  split; [by vm_compute|].
  eexists. split; [by vm_compute|].
  apply (live_ranges_disjoint 12 8 40 pages64 platform64_ok 1000 8
           five_allocs); by vm_compute.
Defined.

Lemma free_list_sound_witness :
  ∃ s r, run 12 8 pages64 (fresh 12 8 40 1000 8) five_allocs = Some s ∧
    deref (cache s) 8192 = Some r ∧
    0 ≤ slab_avail r ≤ cache_elem (cache s) ∧
    ∃ fl st',
      Slab_alloc_n 8 (Z.to_nat (slab_avail r)) (cache s) 8192
        = Some (fl, st') ∧
      Z.of_nat (length fl) = slab_avail r ∧ NoDup fl ∧
      (∀ p, p ∈ fl → is_buf 12 (cache s) 8192 p ∧ p ∉ live s) ∧
      Slab_alloc 8 st' 8192 = None.
Proof.
  do 2 eexists. split; [by vm_compute|]. split; [by vm_compute|].
  apply (free_list_sound 12 8 40 pages64 platform64_ok 1000 8 five_allocs).
  - by vm_compute.
  - by vm_compute.
Defined.

Lemma Slab_alloc_then_free_witness :
  let st := Slab_ctor 12 (Slab_cache_ctor 12 8 40 1000 8) 4096 in
  let r := mkSlab 4 0 0 5160 in
  let st1 := put_slab st 4096 (mkSlab 3 0 0 6168) in
  (deref st 4096 = Some r ∧ 0 ≤ slab_avail r < 2 ^ (8 * 8) ∧
   Slab_alloc 8 st 4096 = Some (4160, st1)) ∧
  Slab_free 8 st1 4096 4160 = Some st.
Proof.
  intros st r st1. split; [by vm_compute|].
  apply (Slab_alloc_then_free 8 st 4096 r 4160 st1); by vm_compute.
Defined.

Lemma Slab_free_then_alloc_witness :
  let st := put_slab (Slab_ctor 12 (Slab_cache_ctor 12 8 40 1000 8) 4096)
              4096 (mkSlab 3 0 0 6168) in
  let r := mkSlab 3 0 0 6168 in
  let st1 := put_slab (set_links st (<[5160 := 6168]> (mem_links st)))
               4096 (mkSlab 4 0 0 5160) in
  (deref st 4096 = Some r ∧ 0 ≤ slab_avail r < 2 ^ (8 * 8) ∧
   Slab_free 8 st 4096 4160 = Some st1) ∧
  Slab_alloc 8 st1 4096 =
  Some (4160, set_links st (<[4160 + cache_size st := slab_head r]>
                              (mem_links st))).
Proof.
  intros st r st1. split; [by vm_compute|].
  apply (Slab_free_then_alloc 8 st 4096 r 4160 st1); by vm_compute.
Defined.

Lemma double_release_aliases_witness :
  let st := put_slab (Slab_ctor 12 (Slab_cache_ctor 12 8 40 1000 8) 4096)
              4096 (mkSlab 3 0 0 6168) in
  let st1 := put_slab (set_links st (<[5160 := 6168]> (mem_links st)))
               4096 (mkSlab 4 0 0 5160) in
  let st2 := put_slab (set_links st1 (<[5160 := 5160]> (mem_links st1)))
               4096 (mkSlab 5 0 0 5160) in
  (Slab_free 8 st 4096 4160 = Some st1 ∧
   Slab_free 8 st1 4096 4160 = Some st2) ∧
  ∃ st3, Slab_alloc_n 8 3 st2 4096 = Some (replicate 3 4160, st3).
Proof.
  intros st st1 st2. split; [by vm_compute|].
  apply (double_release_aliases 8 st 4096 4160 st1 st2 3); by vm_compute.
Defined.

Lemma fresh_slab_order_witness :
  let st := Slab_cache_ctor 12 8 40 1000 8 in
  (0 ≤ cache_size st ∧ 0 < cache_buff st ∧ 0 ≤ cache_elem st ∧
   cache_elem st * cache_buff st ≤ PAGE_SIZE 12 ∧ 0 < 4096) ∧
  ∃ st',
    Slab_alloc_n 8 (Z.to_nat (cache_elem st)) (Slab_ctor 12 st 4096) 4096 =
    Some ((λ k : nat, 4096 + PAGE_SIZE 12
                      - (cache_elem st - Z.of_nat k) * cache_buff st)
            <$> seq 0 (Z.to_nat (cache_elem st)), st').
Proof.
  intros st. split; [by vm_compute|].
  apply (fresh_slab_order 12 8 40 pages64 platform64_ok st 4096);
    by vm_compute.
Defined.

Lemma free_effect_witness :
  ∃ s st', run 12 8 pages64 (fresh 12 8 40 1000 8) nine_allocs = Some s ∧
    Slab_cache_free 12 8 (cache s) 5168 = Some st' ∧
    ∃ r, deref (cache s) (page_base 12 5168) = Some r ∧
      mem_links st' =
        <[5168 + cache_size (cache s) := slab_head r]> (mem_links (cache s)) ∧
      dat (mem_slabs st') (page_base 12 5168) =
        Some (wrap 8 (slab_avail r + 1), 5168 + cache_size (cache s)) ∧
      (∀ b, b ≠ page_base 12 5168 →
            dat (mem_slabs st') b = dat (mem_slabs (cache s)) b) ∧
      pages_used st' = pages_used (cache s) ∧ same_cfg (cache s) st'.
Proof.
  do 2 eexists. split; [by vm_compute|]. split; [by vm_compute|].
  eapply (free_effect 12 8). by vm_compute.
Defined.

Lemma alloc_effect_witness :
  ∃ s q st', run 12 8 pages64 (fresh 12 8 40 1000 8)
               [Alloc; Alloc; Alloc] = Some s ∧
    Slab_cache_alloc 12 8 pages64 (cache s) = Some (q, st') ∧
    cache_curr (cache s) ≠ 0 ∧
    ∃ r nx, deref (cache s) (cache_curr (cache s)) = Some r ∧
      load (cache s) (slab_head r) = Some nx ∧
      q = slab_head r - cache_size (cache s) ∧
      dat (mem_slabs st') (cache_curr (cache s)) =
        Some (wrap 8 (slab_avail r - 1), nx) ∧
      cache_curr st' = (if decide (wrap 8 (slab_avail r - 1) = 0)
                        then slab_prev r else cache_curr (cache s)) ∧
      (∀ b, b ≠ cache_curr (cache s) →
            dat (mem_slabs st') b = dat (mem_slabs (cache s)) b) ∧
      (∀ b, lnk (mem_slabs st') b = lnk (mem_slabs (cache s)) b) ∧
      mem_links st' = mem_links (cache s) ∧
      cache_head st' = cache_head (cache s) ∧
      pages_used st' = pages_used (cache s).
Proof.
  do 3 eexists. split; [by vm_compute|]. split; [by vm_compute|].
  split; [by vm_compute|].
  eapply (alloc_effect 12 8 pages64); by vm_compute.
Defined.

Lemma alloc_keeps_order_witness :
  ∃ s p st', run 12 8 pages64 (fresh 12 8 40 1000 8)
               [Alloc; Alloc; Alloc; Alloc] = Some s ∧
    Slab_cache_alloc 12 8 pages64 (cache s) = Some (p, st') ∧
    ∃ l, slab_list (cache s) = Some l ∧
      slab_list st' =
        Some (if decide (cache_curr (cache s) = 0)
              then pages64 (pages_used (cache s)) :: l else l).
Proof.
  do 3 eexists. split; [by vm_compute|]. split; [by vm_compute|].
  eapply (alloc_keeps_order 12 8 40 pages64 platform64_ok 1000 8
            [Alloc; Alloc; Alloc; Alloc]); by vm_compute.
Defined.

Lemma release_moves_witness :
  ∃ s, run 12 8 pages64 (fresh 12 8 40 1000 8) nine_allocs = Some s ∧
    5168 ∈ live s ∧
    let st := cache s in
    let a := page_base 12 5168 in
    ∃ st' l v, Slab_cache_free 12 8 st 5168 = Some st' ∧
      slab_list st = Some l ∧ avail_at st a = Some v ∧
      ((v = 0 ∧ ∃ N F1 F2, l = N ++ F1 ++ a :: F2 ∧
          Forall (λ b, ¬ is_full st b) N ∧ Forall (is_full st) F1 ∧
          slab_list st' = Some (N ++ a :: F1 ++ F2) ∧ cache_curr st' = a) ∨
       (0 < v ∧ v + 1 = cache_elem st ∧ ∃ E P1 R, l = E ++ P1 ++ a :: R ∧
          Forall (is_empty st) E ∧ Forall (is_partial st) P1 ∧
          slab_list st' = Some (if decide (P1 = []) then l
                                else a :: E ++ P1 ++ R) ∧
          cache_curr st' = (if decide (P1 ≠ [] ∧ a = cache_curr st)
                            then last_or 0 P1 else cache_curr st)) ∨
       (0 < v ∧ v + 1 < cache_elem st ∧
          slab_list st' = Some l ∧ cache_curr st' = cache_curr st)).
Proof.
  eexists. split; [by vm_compute|]. split; [compute_done|].
  apply (release_moves 12 8 40 pages64 platform64_ok 1000 8 nine_allocs).
  - by vm_compute.
  - compute_done.
Defined.

Lemma release_undoes_alloc_witness :
  ∃ s p st', run 12 8 pages64 (fresh 12 8 40 1000 8)
               [Alloc; Alloc; Alloc] = Some s ∧
    Slab_cache_alloc 12 8 pages64 (cache s) = Some (p, st') ∧
    ∃ st1,
      (if decide (cache_curr (cache s) = 0) then grow 12 pages64 (cache s)
       else Some (cache s)) = Some st1 ∧
      Slab_cache_free 12 8 st' p = Some st1.
Proof.
  do 3 eexists. split; [by vm_compute|]. split; [by vm_compute|].
  eapply (release_undoes_alloc 12 8 40 pages64 platform64_ok 1000 8
            [Alloc; Alloc; Alloc]); by vm_compute.
Defined.

Lemma print_all_stats_order_witness :
  (NoDup [64; 128; 192] ∧ ∀ c, c ∈ [64; 128; 192] → c ≠ 0) ∧
  print_all_stats (length [64; 128; 192])
    (foldl Slab_cache_register registry_init [64; 128; 192]) =
  Some (reverse [64; 128; 192]).
Proof.
  assert (NoDup [64; 128; 192]) as Hnd by compute_done.
  assert (∀ c, c ∈ [64; 128; 192] → c ≠ 0) as Hnz
    by (apply Forall_forall; compute_done).
  split; [done|].
  apply (print_all_stats_order [64; 128; 192] Hnd Hnz).
Defined.

Lemma registered_twice_cycles_witness :
  (NoDup [64; 128; 192] ∧ (∀ c, c ∈ [64; 128; 192] → c ≠ 0) ∧
   128 ∈ [64; 128; 192]) ∧
  let reg :=
    Slab_cache_register
      (foldl Slab_cache_register registry_init [64; 128; 192]) 128 in
  Slab_cache_first reg = 128 ∧
  (∃ k, (0 < k ≤ length [64; 128; 192])%nat ∧
        all_stats_at k reg 128 = Some 128) ∧
  (∀ n, ∃ x, all_stats_at n reg (Slab_cache_first reg) = Some x ∧
             x ≠ 0 ∧ x ∈ [64; 128; 192]) ∧
  ∀ fuel, print_all_stats fuel reg = None.
Proof.
  assert (NoDup [64; 128; 192]) as Hnd by compute_done.
  assert (∀ c, c ∈ [64; 128; 192] → c ≠ 0) as Hnz
    by (apply Forall_forall; compute_done).
  assert (128 ∈ [64; 128; 192]) as Hin by compute_done.
  split; [done|].
  apply (registered_twice_cycles [64; 128; 192] 128 Hnd Hnz Hin).
Defined.

Lemma live_aligned_witness :
  (0 ≤ 1000 ∧ 0 < 8 ∧
   align_up (align_up 1000 8 + 8) 8 < 2 ^ (8 * 8) ∧ (8 | PAGE_SIZE 12)) ∧
  ∃ s, run 12 8 pages64 (fresh 12 8 40 1000 8) five_allocs = Some s ∧
    5168 ∈ live s ∧ (8 | 5168).
Proof.
  assert (8 | PAGE_SIZE 12) as Hdiv by (by exists 512).
  split; [split; [|split; [|split]]; (done || by vm_compute)|].
  eexists. split; [by vm_compute|]. split; [compute_done|].
  eapply (live_aligned 12 8 40 pages64 platform64_ok 1000 8 five_allocs).
  - by vm_compute.
  - by vm_compute.
  - by vm_compute.
  - done.
  - by vm_compute.
  - compute_done.
Defined.

Lemma zero_capacity_aborts_witness :
  (0 < cache_buff (Slab_cache_ctor 12 8 40 5000 8) ∧
   cache_elem (Slab_cache_ctor 12 8 40 5000 8) = 0) ∧
  let st := Slab_cache_ctor 12 8 40 5000 8 in
  Slab_cache_alloc 12 8 pages64 st = None ∧
  ∃ st1 c, grow 12 pages64 st = Some st1 ∧ pages_used st1 = 1%nat ∧
    deref st1 (cache_curr st1) = Some c ∧ full c = true.
Proof.
  split; [by vm_compute|].
  apply (zero_capacity_aborts 12 8 40 pages64 platform64_ok 5000 8);
    by vm_compute.
Defined.

Lemma links_within_buffers_witness :
  ∃ s, run 12 8 pages64 (fresh 12 8 40 1000 8) (nine_allocs ++ [Free 5168])
       = Some s ∧
    is_Some (mem_links (cache s) !! 6168) ∧
    ∃ a p, is_Some (deref (cache s) a) ∧ is_buf 12 (cache s) a p ∧
           6168 = p + cache_size (cache s).
Proof.
  eexists. split; [by vm_compute|]. split; [eexists; by vm_compute|].
  apply (links_within_buffers 12 8 40 pages64 platform64_ok 1000 8
           (nine_allocs ++ [Free 5168])).
  - by vm_compute.
  - eexists. by vm_compute.
Defined.
